(** * NetPick: pool cache and weighted random picker

    A shallow embedding of the two services of the repository that carry
    logic: [RandomPickerService] (src/lib/services/randomPicker.ts and its
    cache-backed variant) and [NetPickCache] (src/lib/services/cache.ts).

    Conventions of the embedding.
    - A JavaScript [number] holding a rating, a size or a timestamp is a [Z];
      the catalogue ratings are integers (transformShow replaces a missing
      rating by 0).
    - [Math.random()] is an explicit rational argument [u], a double being
      a rational; the draw of the weighted selection,
      [Math.random() * totalWeight], is the product rounded to the nearest
      double, while [Math.floor(Math.random() * length)] is taken of the
      exact product.
    - [Date.now()] is an explicit argument [now].
    - A JavaScript [Map] whose iteration order matters (the pick history) is
      an association list in insertion order; the pool map and the in-flight
      set, whose order is never observed, are a [gmap] and a [gset].
    - An [async] function runs synchronously up to its first [await]; the
      refresh of a pool is split accordingly into the part run by the call
      and the part run when an upstream page arrives. *)

From Stdlib Require Import ZArith QArith Qround Qpower Lia Permutation.
From stdpp Require Import gmap strings list fin_maps pretty.

Close Scope Q_scope.
Open Scope Z_scope.

(** ** JavaScript truthiness of the values the code tests *)

Definition truthyString (s : string) : bool :=
  match s with EmptyString => false | _ => true end.

Definition truthyOpt (o : option string) : bool :=
  match o with Some s => truthyString s | None => false end.

Definition truthyNumber (n : Z) : bool := negb (n =? 0).

Definition truthyOptNumber (o : option Z) : bool :=
  match o with Some n => truthyNumber n | None => false end.

(** ** Titles (interface NetflixShow) *)

Inductive ShowType := movie | series.

Definition showTypeName (t : ShowType) : string :=
  match t with movie => "movie" | series => "series" end.

(** The fields the two services read.  [poster_w480] stands for
    [imageSet?.verticalPoster?.w480]. *)
Record NetflixShow := {
  show_id : string;
  title : string;
  overview : string;
  showType : ShowType;
  rating : Z;
  netflixLink : option string;
  poster_w480 : option string
}.

(** ** The pool cache (class NetPickCache) *)

Module Cache.

(** [Array.prototype.slice(0, end)]: a negative [end] counts from the back. *)
Definition sliceTo {A} (l : list A) (stop : Z) : list A :=
  let len := Z.of_nat (length l) in
  let k := if stop <? 0 then Z.max (len + stop) 0 else Z.min stop len in
  firstn (Z.to_nat k) l.

Record CachePool := {
  shows : list NetflixShow;
  lastUpdate : Z;
  country : string;
  pool_showType : string          (* 'movie' | 'series' | 'any' *)
}.

Record CacheConfig := {
  poolSize : Z;
  minPoolSize : Z;
  ttlHours : Z;
  refreshIntervalMs : Z
}.

(** [hitRate] is recomputed by getStats and is not stored here. *)
Record CacheMetadata := {
  totalShows : Z;
  lastGlobalRefresh : Z;
  poolSizes : gmap string Z;
  missCount : Z;
  hitCount : Z
}.

Record NetPickCache := {
  pools : gmap string CachePool;
  metadata : CacheMetadata;
  isRefreshing : gset string;
  config : CacheConfig
}.

(** The constructor's defaults: CACHE_POOL_SIZE 200, CACHE_MIN_POOL_SIZE 50,
    CACHE_TTL_HOURS 6, a refresh every six hours. *)
Definition defaultConfig : CacheConfig :=
  {| poolSize := 200; minPoolSize := 50; ttlHours := 6;
     refreshIntervalMs := 6 * 60 * 60 * 1000 |}.

(** [Object.keys(SUPPORTED_COUNTRIES)] *)
Definition supportedCountries : list string := ["us"; "fr"; "ca"; "gb"; "de"].

(** [`${country}-${showType || "any"}`] *)
Definition getPoolKey (c : string) (t : option ShowType) : string :=
  c +:+ "-" +:+ match t with Some t => showTypeName t | None => "any" end.

Definition emptyPool (c : string) (t : ShowType) : CachePool :=
  {| shows := []; lastUpdate := 0; country := c; pool_showType := showTypeName t |}.

(** [initializePools]: one empty pool per country and type. *)
Definition initializePools : gmap string CachePool :=
  foldl (fun m c =>
           foldl (fun m t => <[getPoolKey c (Some t) := emptyPool c t]> m)
                 m [movie; series])
        ∅ supportedCountries.

Definition newCache (cfg : CacheConfig) (now : Z) : NetPickCache :=
  {| pools := initializePools;
     metadata := {| totalShows := 0; lastGlobalRefresh := now; poolSizes := ∅;
                    missCount := 0; hitCount := 0 |};
     isRefreshing := ∅;
     config := cfg |}.

(** [Date.now() - pool.lastUpdate > ttlHours * 60 * 60 * 1000] *)
Definition isPoolExpired (cfg : CacheConfig) (now : Z) (p : CachePool) : bool :=
  ttlHours cfg * 60 * 60 * 1000 <? now - lastUpdate p.

(** [!pool || this.isPoolExpired(pool) || pool.shows.length === 0] *)
Definition unusable (cfg : CacheConfig) (now : Z) (p : option CachePool) : bool :=
  match p with
  | None => true
  | Some p => isPoolExpired cfg now p || (length (shows p) =? 0)%nat
  end.

Definition recordCacheHit (c : NetPickCache) : NetPickCache :=
  let m := metadata c in
  {| pools := pools c;
     metadata := {| totalShows := totalShows m; lastGlobalRefresh := lastGlobalRefresh m;
                    poolSizes := poolSizes m; missCount := missCount m;
                    hitCount := hitCount m + 1 |};
     isRefreshing := isRefreshing c; config := config c |}.

Definition recordCacheMiss (c : NetPickCache) : NetPickCache :=
  let m := metadata c in
  {| pools := pools c;
     metadata := {| totalShows := totalShows m; lastGlobalRefresh := lastGlobalRefresh m;
                    poolSizes := poolSizes m; missCount := missCount m + 1;
                    hitCount := hitCount m |};
     isRefreshing := isRefreshing c; config := config c |}.

(** *** One refresh pass *)

(** What [streamingAvailabilityService.searchShows] resolves to; a rejected
    promise is [SearchFailed]. *)
Inductive SearchResult :=
  | SearchFailed
  | SearchPage (page : list NetflixShow) (hasMore : bool) (nextCursor : option string).

(** The filter of the refresh: a Netflix link, a title, an overview and a
    poster. *)
Definition validShow (s : NetflixShow) : bool :=
  truthyOpt (netflixLink s) && truthyString (title s) &&
  truthyString (overview s) && truthyOpt (poster_w480 s).

Definition maxAttempts : Z := 10.

(** The guard of the [while]. *)
Definition loopGuard (cfg : CacheConfig) (collected : list NetflixShow) (attempts : Z) : bool :=
  (Z.of_nat (length collected) <? poolSize cfg) && (attempts <? maxAttempts).

(** The body of the [while] from the point where the page has arrived. *)
Inductive LoopStep :=
  | Continue (collected : list NetflixShow) (cursor : option string)
  | Break (collected : list NetflixShow).

Definition processPage (collected : list NetflixShow) (r : SearchResult) : LoopStep :=
  match r with
  | SearchFailed => Break collected
  | SearchPage page hasMore nextCursor =>
      if (length page =? 0)%nat then Break collected
      else
        let collected' := collected ++ List.filter validShow page in
        if negb hasMore || negb (truthyOpt nextCursor) then Break collected'
        else Continue collected' nextCursor
  end.

Definition sumPoolSizes (ps : gmap string CachePool) : Z :=
  map_fold (fun _ p acc => acc + Z.of_nat (length (shows p))) 0 ps.

(** The block under the comment "Update pool". *)
Definition updatePool (c : NetPickCache) (poolKey ctry : string) (t : option ShowType)
    (collected : list NetflixShow) (now : Z) : NetPickCache :=
  if (0 <? length collected)%nat then
    let pool := {| shows := sliceTo collected (poolSize (config c));
                   lastUpdate := now;
                   country := ctry;
                   pool_showType := match t with Some t => showTypeName t | None => "any" end |} in
    let pools' := <[poolKey := pool]> (pools c) in
    let m := metadata c in
    {| pools := pools';
       metadata := {| totalShows := sumPoolSizes pools';
                      lastGlobalRefresh := lastGlobalRefresh m;
                      poolSizes := <[poolKey := Z.of_nat (length (shows pool))]> (poolSizes m);
                      missCount := missCount m; hitCount := hitCount m |};
       isRefreshing := isRefreshing c; config := config c |}
  else c.

(** [this.isRefreshing.add(poolKey)] and, in the [finally],
    [this.isRefreshing.delete(poolKey)]. *)
Definition markRefreshing (c : NetPickCache) (poolKey : string) : NetPickCache :=
  {| pools := pools c; metadata := metadata c;
     isRefreshing := {[poolKey]} ∪ isRefreshing c; config := config c |}.

Definition clearRefreshing (c : NetPickCache) (poolKey : string) : NetPickCache :=
  {| pools := pools c; metadata := metadata c;
     isRefreshing := isRefreshing c ∖ {[poolKey]}; config := config c |}.

(** The end of a pass: install what was collected, then the [finally]. *)
Definition finishRefresh (c : NetPickCache) (poolKey ctry : string) (t : option ShowType)
    (collected : list NetflixShow) (now : Z) : NetPickCache :=
  clearRefreshing (updatePool c poolKey ctry t collected now) poolKey.

(** *** refreshPool run to completion against a given upstream *)

Section Sequential.

(** The upstream, as a function of the country, the type and the cursor of
    the request. *)
Variable searchShows : string -> option ShowType -> option string -> SearchResult.

(** The [while] loop; [remaining] is [maxAttempts - attempts]. *)
Fixpoint collectShows (cfg : CacheConfig) (ctry : string) (t : option ShowType)
    (remaining : nat) (collected : list NetflixShow) (cursor : option string)
    : list NetflixShow :=
  match remaining with
  | O => collected
  | S remaining' =>
      if Z.of_nat (length collected) <? poolSize cfg then
        match processPage collected (searchShows ctry t cursor) with
        | Break collected' => collected'
        | Continue collected' cursor' =>
            collectShows cfg ctry t remaining' collected' cursor'
        end
      else collected
  end.

Definition refreshPool (c : NetPickCache) (poolKey ctry : string) (t : option ShowType)
    (now : Z) : NetPickCache :=
  if bool_decide (poolKey ∈ isRefreshing c) then c
  else
    let c1 := markRefreshing c poolKey in
    let collected :=
      collectShows (config c1) ctry t (Z.to_nat maxAttempts) [] None in
    finishRefresh c1 poolKey ctry t collected now.

End Sequential.

(** *** refreshPool as it interleaves with the rest of the process

    A refresh is suspended only at [await searchShows(...)].  A suspended
    refresh is a [RefreshTask] carrying the locals of the call; the log
    [fetches] records every request sent upstream. *)

Record RefreshTask := {
  task_poolKey : string;
  task_country : string;
  task_showType : option ShowType;
  task_shows : list NetflixShow;
  task_cursor : option string;
  task_attempts : Z
}.

Record System := {
  cache : NetPickCache;
  tasks : list RefreshTask;
  fetches : list (string * option string)
}.

Definition withCache (sys : System) (c : NetPickCache) : System :=
  {| cache := c; tasks := tasks sys; fetches := fetches sys |}.

(** The head of the [while]: either the next request goes out and the call
    is suspended, or the pass ends. *)
Definition loopHead (sys : System) (t : RefreshTask) (now : Z) : System :=
  if loopGuard (config (cache sys)) (task_shows t) (task_attempts t) then
    {| cache := cache sys;
       tasks := tasks sys ++ [t];
       fetches := fetches sys ++ [(task_poolKey t, task_cursor t)] |}
  else
    withCache sys (finishRefresh (cache sys) (task_poolKey t) (task_country t)
                                 (task_showType t) (task_shows t) now).

(** A call of [refreshPool], up to its first [await]. *)
Definition callRefreshPool (sys : System) (poolKey ctry : string)
    (t : option ShowType) (now : Z) : System :=
  if bool_decide (poolKey ∈ isRefreshing (cache sys)) then sys
  else
    loopHead (withCache sys (markRefreshing (cache sys) poolKey))
             {| task_poolKey := poolKey; task_country := ctry; task_showType := t;
                task_shows := []; task_cursor := None; task_attempts := 0 |}
             now.

(** The suspended refresh number [i] receives the answer [r]: the rest of
    the loop body, then the loop head again or the end of the pass. *)
Definition resumeTask (sys : System) (i : nat) (r : SearchResult) (now : Z) : System :=
  match tasks sys !! i with
  | None => sys
  | Some t =>
      let sys' := {| cache := cache sys; tasks := delete i (tasks sys);
                     fetches := fetches sys |} in
      match processPage (task_shows t) r with
      | Break collected =>
          withCache sys' (finishRefresh (cache sys') (task_poolKey t) (task_country t)
                                        (task_showType t) collected now)
      | Continue collected cursor =>
          loopHead sys'
                   {| task_poolKey := task_poolKey t; task_country := task_country t;
                      task_showType := task_showType t; task_shows := collected;
                      task_cursor := cursor; task_attempts := task_attempts t + 1 |}
                   now
      end
  end.

(** [clearCache] *)
Definition clearCache (c : NetPickCache) : NetPickCache :=
  let m := metadata c in
  {| pools := ∅;
     metadata := {| totalShows := 0; lastGlobalRefresh := lastGlobalRefresh m;
                    poolSizes := ∅; missCount := 0; hitCount := 0 |};
     isRefreshing := isRefreshing c; config := config c |}.

(** *** Reads *)

(** [getRandomShow]: [u] is the value of [Math.random()]. *)
Definition getRandomShow (sys : System) (ctry : string) (t : option ShowType)
    (now : Z) (u : Q) : option NetflixShow * System :=
  let poolKey := getPoolKey ctry t in
  let pool := pools (cache sys) !! poolKey in
  if unusable (config (cache sys)) now pool then
    let sys1 := withCache sys (recordCacheMiss (cache sys)) in
    let sys2 :=
      if negb (bool_decide (poolKey ∈ isRefreshing (cache sys1)))
      then callRefreshPool sys1 poolKey ctry t now else sys1 in
    (None, sys2)
  else
    match pool with
    | None => (None, sys)
    | Some p =>
        let sys1 :=
          if Z.of_nat (length (shows p)) <? minPoolSize (config (cache sys)) then
            if negb (bool_decide (poolKey ∈ isRefreshing (cache sys)))
            then callRefreshPool sys poolKey ctry t now else sys
          else sys in
        let sys2 := withCache sys1 (recordCacheHit (cache sys1)) in
        let randomIndex := Qfloor (u * inject_Z (Z.of_nat (length (shows p)))) in
        (if randomIndex <? 0 then None else shows p !! Z.to_nat randomIndex, sys2)
    end.

(** [getRandomShows]: [shuffle] is the permutation the randomly-keyed sort
    produces.  Nothing is written. *)
Definition getRandomShows (sys : System) (ctry : string) (count : Z)
    (t : option ShowType) (now : Z)
    (shuffle : list NetflixShow -> list NetflixShow) : list NetflixShow * System :=
  let poolKey := getPoolKey ctry t in
  let pool := pools (cache sys) !! poolKey in
  if unusable (config (cache sys)) now pool then ([], sys)
  else
    match pool with
    | None => ([], sys)
    | Some p =>
        let shuffled := shuffle (shows p) in
        (sliceTo shuffled (Z.min count (Z.of_nat (length shuffled))), sys)
    end.

End Cache.

(** ** The picker (class RandomPickerService) *)

Module Picker.

(** *** Doubles

    A product of two doubles is the exact product rounded to the nearest
    double, ties to even (IEEE 754 binary64, 53 bits of precision, least
    exponent -1074).  A double is a rational; the products taken here are
    far from the overflow threshold, which is left out. *)

(** The nearest integer, ties to even. *)
Definition roundHalfEven (q : Q) : Z :=
  let f := Qfloor q in
  match (q - inject_Z f ?= 1 # 2)%Q with
  | Lt => f
  | Gt => f + 1
  | Eq => if Z.even f then f else f + 1
  end.

(** The exponent [e] with [2 ^ e <= q < 2 ^ (e + 1)], for a positive [q]. *)
Definition binade (q : Q) : Z :=
  let e := Z.log2 (Qnum q) - Z.log2 (Zpos (Qden q)) in
  if Qle_bool (2 ^ e) q then e else e - 1.

Definition roundPositive (q : Q) : Q :=
  let ulp := (2 ^ Z.max (binade q - 52) (-1074))%Q in
  (inject_Z (roundHalfEven (q / ulp)) * ulp)%Q.

Definition roundToDouble (q : Q) : Q :=
  match (q ?= 0)%Q with
  | Eq => 0%Q
  | Gt => roundPositive q
  | Lt => (- roundPositive (- q))%Q
  end.

(** *** Weighted random selection *)

(** [const rating = show.rating || 50; return Math.max(rating, 30)] *)
Definition minimumWeight : Z := 30.

Definition weightOf (s : NetflixShow) : Z :=
  let r := if truthyNumber (rating s) then rating s else 50 in
  Z.max r minimumWeight.

Definition weightsOf (shows : list NetflixShow) : list Z := map weightOf shows.

(** [weights.reduce((sum, weight) => sum + weight, 0)] *)
Definition totalWeight (weights : list Z) : Z := fold_left Z.add weights 0.

(** The scan [for (i = 0; i < shows.length; i++) { currentWeight += weights[i];
    if (random <= currentWeight) return shows[i] }], returning the index at
    which it stops, [None] when it runs off the end. *)
Fixpoint scanWeights (random : Q) (currentWeight : Z) (i : nat)
    (weights : list Z) : option nat :=
  match weights with
  | [] => None
  | w :: rest =>
      let currentWeight' := currentWeight + w in
      if Qle_bool random (inject_Z currentWeight') then Some i
      else scanWeights random currentWeight' (S i) rest
  end.

(** The index the function returns the show of when the variable [random]
    holds [random]; the fallback is [shows.length - 1]. *)
Definition indexAt (random : Q) (shows : list NetflixShow) : nat :=
  match scanWeights random 0 0 (weightsOf shows) with
  | Some i => i
  | None => (length shows - 1)%nat
  end.

(** [const random = Math.random() * totalWeight], a product of doubles, for
    the value [u] of [Math.random()]. *)
Definition drawOf (u : Q) (shows : list NetflixShow) : Q :=
  roundToDouble (u * inject_Z (totalWeight (weightsOf shows))).

Definition selectedIndex (u : Q) (shows : list NetflixShow) : nat :=
  indexAt (drawOf u shows) shows.

(** [shows[i]]; [None] is JavaScript's [undefined], only possible on the
    empty array. *)
Definition weightedRandomSelection (u : Q) (shows : list NetflixShow)
    : option NetflixShow :=
  shows !! selectedIndex u shows.


(** *** Configuration and state *)

Inductive ShowKind := kind_movie | kind_series | kind_any.

Definition kindName (k : ShowKind) : string :=
  match k with kind_movie => "movie" | kind_series => "series" | kind_any => "any" end.

(** interface RandomPickerConfig *)
Record RandomPickerConfig := {
  country : string;
  cfg_showType : option ShowKind;
  excludeRecent : option bool;
  minRating : option Z
}.

(** The constants that differ between the two copies of the service: the
    cache-backed one remembers 20 picks and prunes above 1000 users down to
    500, the direct one remembers 10 and prunes above 100 down to 50. *)
Record PickerParams := {
  maxRecentPicks : nat;
  maxUsers : nat;
  keepUsers : nat
}.

Definition cachedPicker : PickerParams :=
  {| maxRecentPicks := 20; maxUsers := 1000; keepUsers := 500 |}.

Definition directPicker : PickerParams :=
  {| maxRecentPicks := 10; maxUsers := 100; keepUsers := 50 |}.

(** [Map<string, NetflixShow[]>], entries in insertion order. *)
Definition PickMap := list (string * list NetflixShow).

Fixpoint mapGet (k : string) (m : PickMap) : option (list NetflixShow) :=
  match m with
  | [] => None
  | (k', v) :: rest => if String.eqb k k' then Some v else mapGet k rest
  end.

Definition mapHas (k : string) (m : PickMap) : bool :=
  match mapGet k m with Some _ => true | None => false end.

(** [Map.prototype.set]: an existing key keeps its place, a new key goes
    last. *)
Fixpoint mapSet (k : string) (v : list NetflixShow) (m : PickMap) : PickMap :=
  match m with
  | [] => [(k, v)]
  | (k', v') :: rest =>
      if String.eqb k k' then (k', v) :: rest else (k', v') :: mapSet k v rest
  end.

Fixpoint mapDelete (k : string) (m : PickMap) : PickMap :=
  match m with
  | [] => []
  | (k', v') :: rest =>
      if String.eqb k k' then rest else (k', v') :: mapDelete k rest
  end.

Record PickerState := {
  recentPicks : PickMap;
  totalPicks : Z
}.

Definition initialState : PickerState := {| recentPicks := []; totalPicks := 0 |}.

(** interface DiscoverResponse, without the measured response time. *)
Record DiscoverResponse := {
  resp_show : NetflixShow;
  resp_country : string;
  fromCache : bool
}.

(** A resolved or a rejected promise of [discover]. *)
Inductive DiscoverResult :=
  | Found (r : DiscoverResponse)
  | Failed (message : string).

(** *** Pick history *)

Definition getUserRecentPicks (userId : string) (m : PickMap) : list NetflixShow :=
  match mapGet userId m with Some l => l | None => [] end.

Definition clearUserHistory (userId : string) (st : PickerState) : PickerState :=
  {| recentPicks := mapDelete userId (recentPicks st); totalPicks := totalPicks st |}.

(** [entries.splice(keep); clear(); entries.forEach(set)] once the map is
    larger than [maxUsers]. *)
Definition cleanupOldPicks (P : PickerParams) (m : PickMap) : PickMap :=
  if (maxUsers P <? length m)%nat then
    foldl (fun acc e => mapSet (fst e) (snd e) acc) [] (firstn (keepUsers P) m)
  else m.

Definition trackUserPick (P : PickerParams) (userId : string) (show : NetflixShow)
    (m : PickMap) : PickMap :=
  let m1 := if mapHas userId m then m else mapSet userId [] m in
  let userPicks := show :: getUserRecentPicks userId m1 in
  let userPicks' :=
    if (maxRecentPicks P <? length userPicks)%nat
    then firstn (maxRecentPicks P) userPicks else userPicks in
  cleanupOldPicks P (mapSet userId userPicks' m1).

(** *** Selection *)

(** The "Quality filters" of selectRandomShow. *)
Definition qualityFilter (s : NetflixShow) : bool :=
  truthyString (title s) && truthyString (overview s) &&
  truthyOpt (netflixLink s) && truthyOpt (poster_w480 s) && (0 <? rating s).

Definition ratingFilter (cfg : RandomPickerConfig) (l : list NetflixShow) : list NetflixShow :=
  match minRating cfg with
  | Some m => if truthyNumber m then List.filter (fun s => m <=? rating s) l else l
  | None => l
  end.

(** [excludeRecent = true] is the default of the destructuring. *)
Definition excludeRecentOf (cfg : RandomPickerConfig) : bool :=
  match excludeRecent cfg with Some b => b | None => true end.

Definition recentFilter (cfg : RandomPickerConfig) (userId : option string)
    (m : PickMap) (l : list NetflixShow) : list NetflixShow :=
  match userId with
  | Some uid =>
      if excludeRecentOf cfg && truthyString uid then
        let recentIds : gset string :=
          list_to_set (map show_id (getUserRecentPicks uid m)) in
        List.filter (fun s => negb (bool_decide (show_id s ∈ recentIds))) l
      else l
  | None => l
  end.

Definition strictFilter (cfg : RandomPickerConfig) (userId : option string)
    (m : PickMap) (l : list NetflixShow) : list NetflixShow :=
  List.filter qualityFilter (recentFilter cfg userId m (ratingFilter cfg l)).

(** selectRandomShow from the point where the candidates have been read. *)
Definition selectAmong (cfg : RandomPickerConfig) (userId : option string)
    (m : PickMap) (candidates : list NetflixShow) (u : Q) : option NetflixShow :=
  if (length candidates =? 0)%nat then None
  else
    let filteredCandidates := strictFilter cfg userId m candidates in
    if (length filteredCandidates =? 0)%nat then None
    else weightedRandomSelection u filteredCandidates.

(** What one run of selectRandomShow observes: the cache as it is when the
    pools are read, the clock, the shuffle of getRandomShows and the draw of
    the weighted selection. *)
Record Pass := {
  seen : Cache.System;
  at_time : Z;
  shuffle : list NetflixShow -> list NetflixShow;
  draw : Q
}.

(** "Get candidates from cache" *)
Definition gatherCandidates (cfg : RandomPickerConfig) (p : Pass) : list NetflixShow :=
  match cfg_showType cfg with
  | None | Some kind_any =>
      let '(movies, sys1) :=
        Cache.getRandomShows (seen p) (country cfg) 10 (Some movie) (at_time p) (shuffle p) in
      let '(series_, _) :=
        Cache.getRandomShows sys1 (country cfg) 10 (Some series) (at_time p) (shuffle p) in
      movies ++ series_
  | Some kind_movie =>
      fst (Cache.getRandomShows (seen p) (country cfg) 20 (Some movie) (at_time p) (shuffle p))
  | Some kind_series =>
      fst (Cache.getRandomShows (seen p) (country cfg) 20 (Some series) (at_time p) (shuffle p))
  end.

Definition selectRandomShow (cfg : RandomPickerConfig) (userId : option string)
    (m : PickMap) (p : Pass) : option NetflixShow :=
  selectAmong cfg userId m (gatherCandidates cfg p) (draw p).

(** [{ ...config, excludeRecent: false, minRating: undefined }] *)
Definition relaxedConfig (cfg : RandomPickerConfig) : RandomPickerConfig :=
  {| country := country cfg; cfg_showType := cfg_showType cfg;
     excludeRecent := Some false; minRating := None |}.

(** [`No Netflix ${config.showType || "content"} found for ${config.country}`] *)
Definition notFoundMessage (cfg : RandomPickerConfig) : string :=
  "No Netflix " +:+
  match cfg_showType cfg with Some k => kindName k | None => "content" end +:+
  " found for " +:+ country cfg.

Definition buildResponse (show : NetflixShow) (ctry : string) (cached : bool)
    (st : PickerState) : DiscoverResponse * PickerState :=
  ({| resp_show := show; resp_country := ctry; fromCache := cached |},
   {| recentPicks := recentPicks st; totalPicks := totalPicks st + 1 |}).

(** discover of the cache-backed service: [strict] is what the first run of
    selectRandomShow observes, [relaxed] what the fallback run observes. *)
Definition discover (P : PickerParams) (cfg : RandomPickerConfig)
    (userId : option string) (strict relaxed : Pass) (st : PickerState)
    : DiscoverResult * PickerState :=
  match selectRandomShow cfg userId (recentPicks st) strict with
  | None =>
      match selectRandomShow (relaxedConfig cfg) userId (recentPicks st) relaxed with
      | None => (Failed (notFoundMessage cfg), st)
      | Some fallbackShow =>
          let '(r, st') := buildResponse fallbackShow (country cfg) false st in
          (Found r, st')
      end
  | Some show =>
      let st1 :=
        if truthyOpt userId then
          match userId with
          | Some uid =>
              {| recentPicks := trackUserPick P uid show (recentPicks st);
                 totalPicks := totalPicks st |}
          | None => st
          end
        else st in
      let '(r, st') := buildResponse show (country cfg) true st1 in
      (Found r, st')
  end.

End Picker.

(** ** Notions used to state the properties *)

Module Notions.

Import Picker.

(** The sum of the first [k] weights. *)
Definition prefixWeight (ws : list Z) (k : nat) : Z := totalWeight (firstn k ws).

(** The share of the draw interval from 0 to the total weight on which
    candidate [i] is selected: the length of its interval out of the
    total. *)
Definition intervalShare (shows : list NetflixShow) (i : nat) : Q :=
  (inject_Z (prefixWeight (weightsOf shows) (S i) - prefixWeight (weightsOf shows) i)
   / inject_Z (totalWeight (weightsOf shows)))%Q.

(** The histories never grow beyond [maxRecentPicks]. *)
Definition historiesBounded (P : PickerParams) (m : PickMap) : Prop :=
  Forall (fun e => (length (snd e) <= maxRecentPicks P)%nat) m.

(** A candidate that passes the rating filter of the request and the
    quality filter. *)
Definition eligible (cfg : RandomPickerConfig) (s : NetflixShow) : bool :=
  match minRating cfg with
  | Some m => if truthyNumber m then m <=? rating s else true
  | None => true
  end && qualityFilter s.

(** The identifiers of the eligible candidates of a list. *)
Definition eligibleIds (cfg : RandomPickerConfig) (l : list NetflixShow) : gset string :=
  list_to_set (map show_id (List.filter (eligible cfg) l)).

(** One request to discover and what its two runs of selectRandomShow
    observe. *)
Record Call := {
  call_cfg : RandomPickerConfig;
  call_user : option string;
  call_strict : Pass;
  call_relaxed : Pass
}.

(** Requests served one after the other. *)
Fixpoint runCalls (P : PickerParams) (calls : list Call) (st : PickerState)
    : list DiscoverResult * PickerState :=
  match calls with
  | [] => ([], st)
  | c :: rest =>
      let '(r, st1) :=
        discover P (call_cfg c) (call_user c) (call_strict c) (call_relaxed c) st in
      let '(rs, st2) := runCalls P rest st1 in
      (r :: rs, st2)
  end.

(** The requests of one user among [calls]. *)
Definition callsOf (uid : string) (calls : list Call) : list Call :=
  List.filter (fun c => bool_decide (call_user c = Some uid)) calls.

(** The users who ask with an identifier that is recorded. *)
Definition callers (calls : list Call) : list string :=
  omap (fun c => match call_user c with
                 | Some u => if truthyString u then Some u else None
                 | None => None
                 end) calls.

(** The users a run can bring into the pick map: those it holds and those
    who ask. *)
Definition usersOf (m : PickMap) (calls : list Call) : gset string :=
  list_to_set (map fst m) ∪ list_to_set (callers calls).

(** Requests served one after the other, each with the state it finds and
    its result. *)
Fixpoint runTrace (P : PickerParams) (calls : list Call) (st : PickerState)
    : list (PickerState * DiscoverResult) :=
  match calls with
  | [] => []
  | c :: rest =>
      let '(r, st1) :=
        discover P (call_cfg c) (call_user c) (call_strict c) (call_relaxed c) st in
      (st, r) :: runTrace P rest st1
  end.

(** The strict pass of the request reads a candidate that passes the rating
    and quality filters and is not among the recent picks of [uid]. *)
Definition readsFresh (uid : string) (c : Call) (st : PickerState) : Prop :=
  exists s,
    In s (gatherCandidates (call_cfg c) (call_strict c)) /\
    eligible (call_cfg c) s = true /\
    ~ In (show_id s) (map show_id (getUserRecentPicks uid (recentPicks st))).

End Notions.

(** ** Notions used to state the properties of the cache *)

Module CacheNotions.

Import Cache.

(** Every pool holds at most [poolSize] titles. *)
Definition poolsBounded (c : NetPickCache) : Prop :=
  forall k p, pools c !! k = Some p ->
    Z.of_nat (length (shows p)) <= poolSize (config c).

(** The states the [while] loop of a pass goes through, as triples of the
    attempts left, the titles collected and the cursor, for the upstream
    [searchShows]. *)
Inductive loopReaches (searchShows : string -> option ShowType -> option string -> SearchResult)
    (cfg : CacheConfig) (ctry : string) (t : option ShowType)
    : nat -> list NetflixShow -> option string -> Prop :=
  | reaches_start : loopReaches searchShows cfg ctry t (Z.to_nat maxAttempts) [] None
  | reaches_next remaining collected cursor collected' cursor' :
      loopReaches searchShows cfg ctry t (S remaining) collected cursor ->
      Z.of_nat (length collected) < poolSize cfg ->
      processPage collected (searchShows ctry t cursor) = Continue collected' cursor' ->
      loopReaches searchShows cfg ctry t remaining collected' cursor'.

(** A process that has just been started. *)
Definition initialSystem (cfg : CacheConfig) (now : Z) : System :=
  {| cache := newCache cfg now; tasks := []; fetches := [] |}.

(** What can happen to the cache between two [await]s: a call of
    refreshPool (by a timer or by a read), the arrival of an upstream answer
    for a suspended refresh, a read, a call of clearCache. *)
Inductive step : System -> System -> Prop :=
  | step_call sys poolKey ctry t now :
      step sys (callRefreshPool sys poolKey ctry t now)
  | step_resume sys i r now :
      (i < length (tasks sys))%nat ->
      step sys (resumeTask sys i r now)
  | step_getRandomShow sys ctry t now u :
      step sys (snd (getRandomShow sys ctry t now u))
  | step_getRandomShows sys ctry count t now shuffle :
      step sys (snd (getRandomShows sys ctry count t now shuffle))
  | step_clearCache sys :
      step sys (withCache sys (clearCache (cache sys))).

(** The keys of the suspended refreshes. *)
Definition inFlight (sys : System) : list string := map task_poolKey (tasks sys).

(** The in-flight set is exactly the set of keys of the suspended
    refreshes, and no key has two of them. *)
Definition markersExact (sys : System) : Prop :=
  NoDup (inFlight sys) /\
  forall k, k ∈ isRefreshing (cache sys) <-> k ∈ inFlight sys.

(** The pools stay bounded while refreshes interleave: a suspended refresh
    exists only when the pool size is positive, and what a pass installs is
    cut to the pool size. *)
Definition boundedSystem (sys : System) : Prop :=
  poolsBounded (cache sys) /\ (tasks sys <> [] -> 0 < poolSize (config (cache sys))).

(** The interleaved model run with a single refresh and the upstream
    [searchShows]: the suspended refresh, if any, receives the answer to its
    request, [fuel] times at most. *)
Fixpoint runAlone (searchShows : string -> option ShowType -> option string -> SearchResult)
    (fuel : nat) (sys : System) (now : Z) : System :=
  match fuel with
  | O => sys
  | S fuel' =>
      match tasks sys with
      | [] => sys
      | tk :: _ =>
          runAlone searchShows fuel'
            (resumeTask sys 0
               (searchShows (task_country tk) (task_showType tk) (task_cursor tk)) now)
            now
      end
  end.

End CacheNotions.

(** ** Concrete data used by the examples *)

Module Samples.

Import Picker Notions.

(** A title with every field the filters look at filled in. *)
Definition sampleShow (i : string) (r : Z) : NetflixShow :=
  {| show_id := i; title := "Title " +:+ i; overview := "Overview"; showType := movie;
     rating := r; netflixLink := Some "https://www.netflix.com/title";
     poster_w480 := Some "poster-480.jpg" |}.

Definition showA : NetflixShow := sampleShow "A" 90.
Definition showB : NetflixShow := sampleShow "B" 60.
Definition showC : NetflixShow := sampleShow "C" 10.

(** The three titles of the 90 / 60 / 10 scenario. *)
Definition ratedThree : list NetflixShow := [showA; showB; showC].

(** Twenty-one rated titles with distinct identifiers. *)
Definition twentyOne : list NetflixShow :=
  map (fun i => sampleShow (pretty i) 80) (seq 0 21).

(** A title the catalogue has no rating for. *)
Definition unrated : NetflixShow := sampleShow "U" 0.

(** A pick map of [n] users, inserted in the order user0, user1, ... *)
Definition userName (i : nat) : string := "user" +:+ pretty i.

Definition crowd (n : nat) : PickMap :=
  map (fun i => (userName i, [showA])) (seq 0 n).

(** An upstream that answers every request with the single page [l]. *)
Definition onePage (l : list NetflixShow)
    : string -> option ShowType -> option string -> Cache.SearchResult :=
  fun _ _ _ => Cache.SearchPage l false None.

(** A process started at time 0 whose "us-movie" pool was refreshed from
    [l] at time 1000, nothing in flight. *)
Definition systemWith (l : list NetflixShow) : Cache.System :=
  {| Cache.cache :=
       Cache.refreshPool (onePage l) (Cache.newCache Cache.defaultConfig 0)
                         "us-movie" "us" (Some movie) 1000;
     Cache.tasks := [];
     Cache.fetches := [] |}.

(** A pass that reads [sys] at time 2000, with the identity shuffle and the
    draw [u]. *)
Definition passOver (sys : Cache.System) (u : Q) : Pass :=
  {| seen := sys; at_time := 2000; shuffle := fun l => l; draw := u |}.

Definition movieRequest (r : option Z) : RandomPickerConfig :=
  {| country := "us"; cfg_showType := Some kind_movie;
     excludeRecent := Some true; minRating := r |}.

(** A freshly started process in which refreshPool("us-movie") has been
    called once and waits for its first page. *)
Definition refreshing : Cache.System :=
  Cache.callRefreshPool (CacheNotions.initialSystem Cache.defaultConfig 0)
    "us-movie" "us" (Some movie) 10.

(** An upstream whose first page holds [l] and whose second request fails. *)
Definition failsOnSecond (l : list NetflixShow)
    : string -> option ShowType -> option string -> Cache.SearchResult :=
  fun _ _ cursor =>
    match cursor with
    | None => Cache.SearchPage l true (Some "page-2")
    | Some _ => Cache.SearchFailed
    end.

(** A request of user u1 for a movie, served from [sys] with the draw [u]. *)
Definition callBy (sys : Cache.System) (u : Q) : Call :=
  {| call_cfg := movieRequest None; call_user := Some "u1";
     call_strict := passOver sys u; call_relaxed := passOver sys u |}.

(** Twenty-one requests of u1 against a pool of twenty-one titles: twenty
    with the draw 0, then one with the draw 999/1000. *)
Definition repeatCalls : list Call :=
  replicate 20 (callBy (systemWith twentyOne) 0)
  ++ [callBy (systemWith twentyOne) (999 # 1000)].

End Samples.

(** ** More of the picker: several suggestions at once *)

Module PickerMore.

Import Picker.

(** [suggestions.some((s) => s.show.id === response.show.id)] *)
Definition isDuplicate (suggestions : list DiscoverResponse)
    (response : DiscoverResponse) : bool :=
  existsb (fun s => String.eqb (show_id (resp_show s)) (show_id (resp_show response)))
          suggestions.

(** The [for] loop of getMultipleSuggestions; [remaining] is [attempts - i]
    and [passes i] is what the two runs of selectRandomShow of attempt [i]
    observe.  A rejected discover is caught and only logged. *)
Fixpoint suggestLoop (P : PickerParams) (cfg : RandomPickerConfig) (count : Z)
    (userId : option string) (passes : nat -> Pass * Pass) (remaining i : nat)
    (suggestions : list DiscoverResponse) (st : PickerState)
    : list DiscoverResponse * PickerState :=
  match remaining with
  | O => (suggestions, st)
  | S remaining' =>
      if Z.of_nat (length suggestions) <? count then
        let '(r, st1) := discover P cfg userId (fst (passes i)) (snd (passes i)) st in
        let suggestions' :=
          match r with
          | Found response =>
              if isDuplicate suggestions response then suggestions
              else suggestions ++ [response]
          | Failed _ => suggestions
          end in
        suggestLoop P cfg count userId passes remaining' (S i) suggestions' st1
      else (suggestions, st)
  end.

(** [const attempts = Math.min(count * 2, 20)] *)
Definition getMultipleSuggestions (P : PickerParams) (cfg : RandomPickerConfig)
    (count : Z) (userId : option string) (passes : nat -> Pass * Pass)
    (st : PickerState) : list DiscoverResponse * PickerState :=
  suggestLoop P cfg count userId passes (Z.to_nat (Z.min (count * 2) 20)) 0 [] st.

End PickerMore.

(** ** The direct picker (src/lib/services/randomPicker.ts)

    The later copy of the service reads its candidates from the upstream
    with getPopularShows instead of the cache; the filters, the weighted
    selection and the pick history are the same code. *)

Module DirectPicker.

Import Picker.

(** What [streamingAvailabilityService.getPopularShows] resolves to, or the
    message of the APIError it rejects with. *)
Inductive ApiAnswer :=
  | ApiFailed (message : string)
  | ApiShows (candidates : list NetflixShow).

(** What one run of selectRandomShow observes. *)
Record DirectPass := {
  answer : ApiAnswer;
  direct_draw : Q
}.

(** selectRandomShow: the error of the API call is logged and thrown
    again. *)
Definition selectRandomShow (cfg : RandomPickerConfig) (userId : option string)
    (m : PickMap) (p : DirectPass) : string + option NetflixShow :=
  match answer p with
  | ApiFailed message => inl message
  | ApiShows candidates => inr (selectAmong cfg userId m candidates (direct_draw p))
  end.

Definition discover (P : PickerParams) (cfg : RandomPickerConfig)
    (userId : option string) (strict relaxed : DirectPass) (st : PickerState)
    : DiscoverResult * PickerState :=
  match selectRandomShow cfg userId (recentPicks st) strict with
  | inl message => (Failed message, st)
  | inr None =>
      match selectRandomShow (relaxedConfig cfg) userId (recentPicks st) relaxed with
      | inl message => (Failed message, st)
      | inr None => (Failed (notFoundMessage cfg), st)
      | inr (Some fallbackShow) =>
          let '(r, st') := buildResponse fallbackShow (country cfg) false st in
          (Found r, st')
      end
  | inr (Some show) =>
      let st1 :=
        if truthyOpt userId then
          match userId with
          | Some uid =>
              {| recentPicks := trackUserPick P uid show (recentPicks st);
                 totalPicks := totalPicks st |}
          | None => st
          end
        else st in
      let '(r, st') := buildResponse show (country cfg) false st1 in
      (Found r, st')
  end.

End DirectPicker.

(** ** The health check of the cache (NetPickCache.healthCheck) *)

Module CacheHealth.

Import Cache.

Inductive HealthStatus := healthy | degraded | unhealthy.

(** [hitRate] is the rate getStats reports, a floating-point quotient
    rounded to two decimals; it is taken as the rational it denotes. *)
Definition healthCheck (c : NetPickCache) (hitRate : Q) : HealthStatus :=
  let activePools := Z.of_nat (size (poolSizes (metadata c))) in
  let total := totalShows (metadata c) in
  if (total =? 0) || (activePools =? 0) then unhealthy
  else if negb (Qle_bool (8 # 10) hitRate) || (total <? minPoolSize (config c) * 4)
       then degraded
       else healthy.

End CacheHealth.

(** ** The discover route (GET /api/discover) *)

Module DiscoverRoute.

Import Picker.

(** [{ count, resetTime }] *)
Record ClientData := {
  count : Z;
  resetTime : Z
}.

(** RATE_LIMIT_PER_USER and RATE_LIMIT_WINDOW_MS *)
Record Limits := {
  RATE_LIMIT : Z;
  RATE_WINDOW : Z
}.

Definition defaultLimits : Limits := {| RATE_LIMIT := 100; RATE_WINDOW := 60000 |}.

Definition checkRateLimit (L : Limits) (clientIP : string) (now : Z)
    (requestCounts : gmap string ClientData) : bool * gmap string ClientData :=
  match requestCounts !! clientIP with
  | None =>
      (true, <[clientIP := {| count := 1; resetTime := now + RATE_WINDOW L |}]> requestCounts)
  | Some clientData =>
      if resetTime clientData <? now then
        (true,
         <[clientIP := {| count := 1; resetTime := now + RATE_WINDOW L |}]> requestCounts)
      else if count clientData <? RATE_LIMIT L then
        (true,
         <[clientIP := {| count := count clientData + 1;
                          resetTime := resetTime clientData |}]> requestCounts)
      else (false, requestCounts)
  end.

(** The periodic cleanup: entries whose window ended more than a window ago
    are deleted. *)
Definition cleanupRateLimits (L : Limits) (now : Z)
    (requestCounts : gmap string ClientData) : gmap string ClientData :=
  filter (fun e => ~ (resetTime (snd e) + RATE_WINDOW L < now)) requestCounts.

(** The query of a request: the parameters as they are read, [minRating]
    after parseInt ([None] when the parameter is absent or is not a
    number). *)
Record Query := {
  q_country : option string;
  q_type : option string;
  q_minRating : option Z;
  q_userId : option string
}.

Inductive Response :=
  | TooManyRequests                      (* 429 *)
  | BadRequest (error : string)          (* 400 *)
  | Success (r : DiscoverResponse)       (* 200 *)
  | ServerError (message : string).      (* 500 *)

Definition statusOf (r : Response) : Z :=
  match r with
  | TooManyRequests => 429
  | BadRequest _ => 400
  | Success _ => 200
  | ServerError _ => 500
  end.

(** [x || fallback] on a string parameter *)
Definition orElse (o : option string) (fallback : string) : string :=
  match o with
  | Some s => if truthyString s then s else fallback
  | None => fallback
  end.

Definition parseKind (s : string) : option ShowKind :=
  if String.eqb s "movie" then Some kind_movie
  else if String.eqb s "series" then Some kind_series
  else if String.eqb s "any" then Some kind_any
  else None.

Record RouteState := {
  requestCounts : gmap string ClientData;
  picker : PickerState
}.

(** The handler, which calls the direct picker; [clientIP] is the value
    getClientIP extracted from the headers of the request. *)
Definition GET (P : PickerParams) (L : Limits) (clientIP : string) (q : Query)
    (now : Z) (strict relaxed : DirectPicker.DirectPass) (st : RouteState)
    : Response * RouteState :=
  let '(allowed, counts) := checkRateLimit L clientIP now (requestCounts st) in
  let st1 := {| requestCounts := counts; picker := picker st |} in
  if negb allowed then (TooManyRequests, st1)
  else
    let ctry := orElse (q_country q) "us" in
    let showType := orElse (q_type q) "any" in
    let userId := orElse (q_userId q) clientIP in
    if negb (bool_decide (ctry ∈ Cache.supportedCountries)) then
      (BadRequest "Invalid country", st1)
    else
      match parseKind showType with
      | None => (BadRequest "Invalid type", st1)
      | Some kind =>
          if truthyOptNumber (q_minRating q) &&
             match q_minRating q with
             | Some m => (m <? 0) || (100 <? m)
             | None => false
             end
          then (BadRequest "Invalid minRating. Must be between 0 and 100.", st1)
          else
            let config :=
              {| country := ctry;
                 cfg_showType := match kind with kind_any => None | k => Some k end;
                 excludeRecent := Some true;
                 minRating := q_minRating q |} in
            match DirectPicker.discover P config (Some userId) strict relaxed (picker st) with
            | (Found r, pst) =>
                (Success r, {| requestCounts := counts; picker := pst |})
            | (Failed message, pst) =>
                (ServerError message, {| requestCounts := counts; picker := pst |})
            end
      end.

End DiscoverRoute.

(** ** The health route of the cache-backed service (GET /api/health) *)

Module HealthRoute.

Import CacheHealth.

(** The status of streamingAvailabilityService.healthCheck *)
Inductive ApiStatus := api_ok | api_error.

Definition overallStatus (cacheHealth : HealthStatus) (apiHealth : ApiStatus)
    : HealthStatus :=
  let isHealthy :=
    match cacheHealth, apiHealth with healthy, api_ok => true | _, _ => false end in
  let isDegraded :=
    match cacheHealth, apiHealth with
    | degraded, _ => true
    | _, api_error => true
    | _, _ => false
    end in
  if isHealthy then healthy else if isDegraded then degraded else unhealthy.

Definition httpStatus (overall : HealthStatus) : Z :=
  match overall with healthy => 200 | degraded => 207 | unhealthy => 503 end.

End HealthRoute.

(** ** Notions used to state the further properties *)

Module MoreNotions.

Import Cache.

(** The pick map is a map: no key twice, and it stays within its bound. *)
Definition wellFormed (P : Picker.PickerParams) (m : Picker.PickMap) : Prop :=
  NoDup (map fst m) /\ (length m <= Picker.maxUsers P)%nat.

(** The metadata agree with the pools: the total is the sum of the pool
    sizes, a recorded size is the positive size of the pool at that key, and
    every non-empty pool has its size recorded. *)
Definition metadataExact (c : NetPickCache) : Prop :=
  totalShows (metadata c) = sumPoolSizes (pools c) /\
  (forall k n, poolSizes (metadata c) !! k = Some n ->
     0 < n /\ exists p, pools c !! k = Some p /\ n = Z.of_nat (length (shows p))) /\
  (forall k p, pools c !! k = Some p -> shows p <> [] ->
     is_Some (poolSizes (metadata c) !! k)).

(** Every title in a pool or collected by a suspended refresh passed the
    filter of the refresh. *)
Definition pooledValid (sys : System) : Prop :=
  (forall k p, pools (cache sys) !! k = Some p ->
     Forall (fun s => validShow s = true) (shows p)) /\
  Forall (fun t => Forall (fun s => validShow s = true) (task_shows t)) (tasks sys).

(** Requests to the rate limiter, as pairs of a client and a time, served
    one after the other. *)
Fixpoint serve (L : DiscoverRoute.Limits) (reqs : list (string * Z))
    (counts : gmap string DiscoverRoute.ClientData)
    : list bool * gmap string DiscoverRoute.ClientData :=
  match reqs with
  | [] => ([], counts)
  | (ip, now) :: rest =>
      let '(v, counts1) := DiscoverRoute.checkRateLimit L ip now counts in
      let '(vs, counts2) := serve L rest counts1 in
      (v :: vs, counts2)
  end.

(** How many of the requests of [ip] were let through. *)
Fixpoint allowedOf (ip : string) (reqs : list (string * Z)) (verdicts : list bool) : Z :=
  match reqs, verdicts with
  | (ip', _) :: rest, v :: vs =>
      (if String.eqb ip ip' && v then 1 else 0) + allowedOf ip rest vs
  | _, _ => 0
  end.

(** How many requests [ip] made. *)
Definition requestsOf (ip : string) (reqs : list (string * Z)) : Z :=
  Z.of_nat (length (List.filter (fun r => String.eqb ip (fst r)) reqs)).

(** The facts that hold between any two steps of the process: the metadata
    are exact, the titles held are valid, and a refresh is only suspended
    while the pool size is positive. *)
Definition soundSystem (sys : System) : Prop :=
  metadataExact (cache sys) /\ pooledValid sys /\
  (tasks sys <> [] -> 0 < poolSize (config (cache sys))).

End MoreNotions.

(** * Properties of the weighted selection *)

Module PickerFacts.

Import Picker Notions.

Lemma fold_add_shift (ws : list Z) (a : Z) :
  fold_left Z.add ws a = a + fold_left Z.add ws 0.
Proof.
  revert a. induction ws as [|w ws IH]; intros a; simpl; [lia|].
  rewrite (IH (a + w)), (IH (0 + w)). lia.
Qed.

Lemma prefixWeight_0 ws : prefixWeight ws 0 = 0.
Proof. reflexivity. Qed.

Lemma prefixWeight_cons w ws k :
  prefixWeight (w :: ws) (S k) = w + prefixWeight ws k.
Proof. unfold prefixWeight, totalWeight. simpl. apply fold_add_shift. Qed.

Lemma prefixWeight_all ws : prefixWeight ws (length ws) = totalWeight ws.
Proof. unfold prefixWeight. now rewrite firstn_all. Qed.

Lemma prefixWeight_step ws k w :
  ws !! k = Some w -> prefixWeight ws (S k) = prefixWeight ws k + w.
Proof.
  revert k. induction ws as [|x ws IH]; intros [|k] H; simpl in H; try discriminate.
  - injection H as ->. rewrite prefixWeight_cons, !prefixWeight_0. lia.
  - rewrite !prefixWeight_cons, (IH k H). lia.
Qed.

Lemma prefixWeight_mono ws k k' :
  Forall (fun w => 0 <= w) ws -> (k <= k')%nat -> prefixWeight ws k <= prefixWeight ws k'.
Proof.
  intros Hpos. revert k k'.
  induction Hpos as [|w ws Hw _ IH]; intros k k' Hk.
  - unfold prefixWeight. rewrite !firstn_nil. lia.
  - destruct k as [|k]; destruct k' as [|k']; try lia.
    + rewrite prefixWeight_0, prefixWeight_cons.
      specialize (IH 0%nat k' ltac:(lia)). rewrite prefixWeight_0 in IH. lia.
    + rewrite !prefixWeight_cons. specialize (IH k k' ltac:(lia)). lia.
Qed.

Lemma weightOf_floor s : minimumWeight <= weightOf s.
Proof. unfold weightOf. lia. Qed.

Lemma weightsOf_nonneg shows : Forall (fun w => 0 <= w) (weightsOf shows).
Proof.
  unfold weightsOf. apply List.Forall_forall. intros w Hw.
  apply in_map_iff in Hw as (s & <- & _).
  pose proof (weightOf_floor s). unfold minimumWeight in *. lia.
Qed.

Lemma weightOf_rated s : 0 < rating s -> weightOf s = Z.max (rating s) 30.
Proof.
  intros H. unfold weightOf, truthyNumber, minimumWeight.
  destruct (rating s =? 0) eqn:E; simpl; [lia | reflexivity].
Qed.

(** A title without a rating would weigh 50; the quality filter keeps such
    titles away from the selection. *)
Lemma weightOf_unrated : weightOf Samples.unrated = 50.
Proof. reflexivity. Qed.

Lemma qualityFilter_rated s : qualityFilter s = true -> 0 < rating s.
Proof.
  unfold qualityFilter. intros H.
  apply andb_prop in H as [_ H]. lia.
Qed.

Lemma totalWeight_positive shows :
  shows <> [] -> 0 < totalWeight (weightsOf shows).
Proof.
  destruct shows as [|s shows]; [congruence|]. intros _.
  pose proof (prefixWeight_mono (weightsOf (s :: shows)) 1 (length (weightsOf (s :: shows)))
                (weightsOf_nonneg _)) as H.
  rewrite prefixWeight_all in H. simpl in H.
  specialize (H ltac:(lia)).
  change (prefixWeight (weightOf s :: weightsOf shows) 1) with (0 + weightOf s) in H.
  pose proof (weightOf_floor s). unfold minimumWeight in *. simpl. lia.
Qed.

(** What the scan returns: the first position whose cumulative weight
    reaches the draw, or nothing when no position does. *)
Lemma scanWeights_spec (ws : list Z) (r : Q) (cw : Z) (i : nat) :
  match scanWeights r cw i ws with
  | Some j =>
      exists k, j = (i + k)%nat /\ (k < length ws)%nat /\
        (r <= inject_Z (cw + prefixWeight ws (S k)))%Q /\
        forall k', (k' < k)%nat -> (inject_Z (cw + prefixWeight ws (S k')) < r)%Q
  | None =>
      forall k, (k < length ws)%nat -> (inject_Z (cw + prefixWeight ws (S k)) < r)%Q
  end.
Proof.
  revert cw i. induction ws as [|w ws IH]; intros cw i; simpl.
  - intros k Hk. lia.
  - destruct (Qle_bool r (inject_Z (cw + w))) eqn:E.
    + apply Qle_bool_iff in E. exists 0%nat. repeat split; try lia.
      rewrite prefixWeight_cons, prefixWeight_0. now rewrite Z.add_0_r.
    + assert (Hlt : (inject_Z (cw + w) < r)%Q).
      { apply Qnot_le_lt. intros Hle. apply Qle_bool_iff in Hle. congruence. }
      specialize (IH (cw + w) (S i)).
      destruct (scanWeights r (cw + w) (S i) ws) as [j|].
      * destruct IH as (k & -> & Hk & Hle & Hbefore).
        exists (S k). repeat split; try lia.
        -- rewrite prefixWeight_cons. now rewrite Z.add_assoc.
        -- intros [|k'] Hk'.
           ++ rewrite prefixWeight_cons, prefixWeight_0. now rewrite Z.add_0_r.
           ++ rewrite prefixWeight_cons, Z.add_assoc. apply Hbefore. lia.
      * intros [|k] Hk.
        -- rewrite prefixWeight_cons, prefixWeight_0. now rewrite Z.add_0_r.
        -- rewrite prefixWeight_cons, Z.add_assoc. apply IH. lia.
Qed.

(** *** Rounding to a double *)

Lemma roundHalfEven_floor (q : Q) :
  Qfloor q <= roundHalfEven q <= Qfloor q + 1.
Proof.
  unfold roundHalfEven. destruct (_ ?= _)%Q; [destruct (Z.even _)| |]; lia.
Qed.

Lemma roundHalfEven_nonneg (q : Q) : (0 <= q)%Q -> 0 <= roundHalfEven q.
Proof.
  intros Hq. pose proof (roundHalfEven_floor q) as [H _].
  pose proof (Qfloor_resp_le 0 q Hq) as H0. change (Qfloor 0) with 0 in H0. lia.
Qed.

Lemma roundHalfEven_le (q : Q) (n : Z) : (q <= inject_Z n)%Q -> roundHalfEven q <= n.
Proof.
  intros Hq. pose proof (Qfloor_resp_le q (inject_Z n) Hq) as Hf.
  rewrite Qfloor_Z in Hf.
  destruct (Z.eq_dec (Qfloor q) n) as [E | E].
  - unfold roundHalfEven. rewrite E.
    assert (Hlt : (q - inject_Z n < 1 # 2)%Q).
    { apply Qle_lt_trans with (y := 0%Q); [|reflexivity].
      apply (Qplus_le_l _ _ (inject_Z n)). ring_simplify. exact Hq. }
    assert (C : (q - inject_Z n ?= 1 # 2)%Q = Lt) by (now apply Qlt_alt).
    rewrite C. lia.
  - pose proof (roundHalfEven_floor q). lia.
Qed.

Lemma pow2_pos (k : Z) : (0 < 2 ^ k)%Q.
Proof. now apply Qpower_0_lt. Qed.

(** For a positive [q] the binade is above the place where [q] lies by less
    than one. *)
Lemma binade_below (q : Q) : (0 < q)%Q -> (2 ^ binade q <= q)%Q.
Proof.
  intros Hq. unfold binade.
  destruct (Qle_bool _ q) eqn:E; [now apply Qle_bool_iff|]. clear E.
  destruct q as [a b]. unfold Qlt in Hq. cbn [Qnum Qden] in *.
  assert (Ha : 0 < a) by lia.
  pose proof (Z.log2_spec a Ha) as [Ha1 _].
  pose proof (Z.log2_spec (Z.pos b) ltac:(lia)) as [_ Hb2].
  pose proof (Z.log2_nonneg a) as Hla. pose proof (Z.log2_nonneg (Z.pos b)) as Hlb.
  replace (Z.log2 a - Z.log2 (Z.pos b) - 1)
    with (Z.log2 a - (Z.log2 (Z.pos b) + 1)) by lia.
  rewrite Qpower_minus by discriminate.
  rewrite <- !(Zpower_Qpower 2) by lia.
  assert (Hp : 0 < 2 ^ (Z.log2 (Z.pos b) + 1)) by (apply Z.pow_pos_nonneg; lia).
  apply Qle_shift_div_r.
  - change 0%Q with (inject_Z 0). now rewrite <- Zlt_Qlt.
  - unfold Qle, Qmult, inject_Z. cbn [Qnum Qden].
    replace (Z.succ (Z.log2 (Z.pos b))) with (Z.log2 (Z.pos b) + 1) in Hb2 by lia.
    rewrite Z.mul_1_r. nia.
Qed.

Lemma binade_small (q : Q) (n : Z) :
  (0 < q)%Q -> (q < 2 ^ n)%Q -> binade q < n.
Proof.
  intros Hq Hn. pose proof (binade_below q Hq) as Hb.
  apply (Qpower_lt_compat_l_inv 2); [|reflexivity].
  eapply Qle_lt_trans; eassumption.
Qed.

Lemma roundPositive_nonneg (q : Q) : (0 < q)%Q -> (0 <= roundPositive q)%Q.
Proof.
  intros Hq. unfold roundPositive. apply Qmult_le_0_compat.
  - change 0%Q with (inject_Z 0). rewrite <- Zle_Qle. apply roundHalfEven_nonneg.
    apply Qle_shift_div_l; [apply pow2_pos|]. rewrite Qmult_0_l. now apply Qlt_le_weak.
  - apply Qlt_le_weak, pow2_pos.
Qed.

(** Rounding never passes an integer that a double holds exactly. *)
Lemma roundPositive_le (q : Q) (n : Z) :
  (0 < q)%Q -> (q <= inject_Z n)%Q -> n < 2 ^ 53 -> (roundPositive q <= inject_Z n)%Q.
Proof.
  intros Hq Hn Hsmall. unfold roundPositive.
  assert (Hb : binade q < 53).
  { apply binade_small; [exact Hq|]. eapply Qle_lt_trans; [exact Hn|].
    rewrite <- (Zpower_Qpower 2) by lia. now rewrite <- Zlt_Qlt. }
  set (k := Z.max (binade q - 52) (-1074)).
  assert (Hk : k <= 0) by lia.
  assert (Hulp : (2 ^ k == / inject_Z (2 ^ (- k)))%Q).
  { rewrite (Zpower_Qpower 2) by lia. rewrite <- Qpower_opp.
    now replace (- - k) with k by lia. }
  assert (Hpos : (0 < inject_Z (2 ^ (- k)))%Q).
  { change 0%Q with (inject_Z 0). rewrite <- Zlt_Qlt. apply Z.pow_pos_nonneg; lia. }
  assert (Hm : roundHalfEven (q / 2 ^ k) <= n * 2 ^ (- k)).
  { apply roundHalfEven_le. rewrite Hulp. unfold Qdiv. rewrite Qinv_involutive.
    rewrite inject_Z_mult. apply Qmult_le_compat_r; [exact Hn | now apply Qlt_le_weak]. }
  remember (roundHalfEven (q / 2 ^ k)) as m eqn:Em. clear Em.
  rewrite Hulp. apply Qle_shift_div_r; [exact Hpos|].
  rewrite <- inject_Z_mult. now rewrite <- Zle_Qle.
Qed.

Lemma roundToDouble_range (q : Q) (n : Z) :
  (0 <= q)%Q -> (q <= inject_Z n)%Q -> n < 2 ^ 53 ->
  (0 <= roundToDouble q)%Q /\ (roundToDouble q <= inject_Z n)%Q.
Proof.
  intros H0 Hn Hsmall. unfold roundToDouble.
  destruct (q ?= 0)%Q eqn:E.
  - apply Qeq_alt in E. split; [apply Qle_refl|]. rewrite <- E. exact Hn.
  - apply Qlt_alt in E. exfalso. apply (Qlt_irrefl q). eapply Qlt_le_trans; eassumption.
  - apply Qgt_alt in E. split; [now apply roundPositive_nonneg | now apply roundPositive_le].
Qed.

(** *** The scan *)

Lemma indexAt_in_range (shows : list NetflixShow) (r : Q) :
  shows <> [] -> (indexAt r shows < length shows)%nat.
Proof.
  intros Hne. unfold indexAt.
  pose proof (scanWeights_spec (weightsOf shows) r 0 0) as H.
  destruct (scanWeights _ 0 0 _) as [j|].
  - destruct H as (k & -> & Hk & _). unfold weightsOf in Hk.
    rewrite length_map in Hk. lia.
  - destruct shows; [congruence | simpl; lia].
Qed.

(** A draw above the whole cumulative weight falls through the loop. *)
Lemma indexAt_overshoot (shows : list NetflixShow) (r : Q) :
  (inject_Z (totalWeight (weightsOf shows)) < r)%Q ->
  indexAt r shows = (length shows - 1)%nat.
Proof.
  intros Hover. unfold indexAt.
  pose proof (scanWeights_spec (weightsOf shows) r 0 0) as H.
  destruct (scanWeights _ 0 0 _) as [j|]; [|reflexivity].
  destruct H as (k & -> & Hk & Hle & _). exfalso.
  pose proof (prefixWeight_mono (weightsOf shows) (S k) (length (weightsOf shows))
                (weightsOf_nonneg shows) ltac:(lia)) as Hmono.
  rewrite prefixWeight_all in Hmono. rewrite Z.add_0_l in Hle.
  rewrite Zle_Qle in Hmono.
  apply (Qlt_irrefl r).
  eapply Qle_lt_trans; [exact Hle|]. eapply Qle_lt_trans; [exact Hmono | exact Hover].
Qed.

(** A draw inside the cumulative weight stops at the first position whose
    cumulative weight reaches it. *)
Lemma indexAt_first (shows : list NetflixShow) (r : Q) :
  shows <> [] ->
  (r <= inject_Z (totalWeight (weightsOf shows)))%Q ->
  (r <= inject_Z (prefixWeight (weightsOf shows) (S (indexAt r shows))))%Q /\
  forall j, (j < indexAt r shows)%nat ->
    (inject_Z (prefixWeight (weightsOf shows) (S j)) < r)%Q.
Proof.
  intros Hne Hin. unfold indexAt.
  pose proof (scanWeights_spec (weightsOf shows) r 0 0) as H.
  destruct (scanWeights _ 0 0 _) as [j|].
  - destruct H as (k & -> & Hk & Hle & Hbefore). simpl. split.
    + now rewrite Z.add_0_l in Hle.
    + intros j Hj. specialize (Hbefore j Hj). now rewrite Z.add_0_l in Hbefore.
  - exfalso. assert (Hlen : (length (weightsOf shows) - 1 < length (weightsOf shows))%nat).
    { unfold weightsOf. rewrite length_map. destruct shows; [congruence | simpl; lia]. }
    specialize (H _ Hlen). rewrite Z.add_0_l in H.
    replace (S (length (weightsOf shows) - 1)) with (length (weightsOf shows)) in H by lia.
    rewrite prefixWeight_all in H.
    apply (Qlt_irrefl r). eapply Qle_lt_trans; eassumption.
Qed.

Lemma selectedIndex_in_range (shows : list NetflixShow) (u : Q) :
  shows <> [] -> (selectedIndex u shows < length shows)%nat.
Proof. apply indexAt_in_range. Qed.

Lemma selectedIndex_overshoot (shows : list NetflixShow) (u : Q) :
  (inject_Z (totalWeight (weightsOf shows)) < drawOf u shows)%Q ->
  selectedIndex u shows = (length shows - 1)%nat.
Proof. apply indexAt_overshoot. Qed.

(** The draw of the code lies between 0 and the total weight, the total
    being an integer that a double holds exactly. *)
Lemma drawOf_in_range (shows : list NetflixShow) (u : Q) :
  (0 <= u)%Q -> (u < 1)%Q -> totalWeight (weightsOf shows) < 2 ^ 53 ->
  (0 <= drawOf u shows)%Q /\
  (drawOf u shows <= inject_Z (totalWeight (weightsOf shows)))%Q.
Proof.
  intros H0 H1 Hsmall.
  assert (Hpos : 0 <= totalWeight (weightsOf shows)).
  { pose proof (prefixWeight_mono (weightsOf shows) 0 (length (weightsOf shows))
                  (weightsOf_nonneg shows) ltac:(lia)) as H.
    now rewrite prefixWeight_all, prefixWeight_0 in H. }
  rewrite Zle_Qle in Hpos.
  unfold drawOf. apply roundToDouble_range; [| |exact Hsmall].
  - now apply Qmult_le_0_compat.
  - rewrite <- (Qmult_1_l (inject_Z (totalWeight (weightsOf shows)))) at 2.
    apply Qmult_le_compat_r; [now apply Qlt_le_weak | exact Hpos].
Qed.

Lemma selection_defined (shows : list NetflixShow) (u : Q) :
  shows <> [] ->
  exists s, weightedRandomSelection u shows = Some s /\ In s shows.
Proof.
  intros Hne.
  destruct (lookup_lt_is_Some_2 shows _ (selectedIndex_in_range shows u Hne)) as [s Hs].
  exists s. split; [exact Hs|].
  apply list_elem_of_In. eapply list_elem_of_lookup_2. exact Hs.
Qed.

(** C10: on a non-empty list the weighted selection always returns an
    element of the list, whatever the draw; when the draw is larger than the
    whole accumulated weight, the loop falls through and the last element of
    the list is returned. *)
Theorem weightedRandomSelection_total (shows : list NetflixShow) (u : Q) :
  shows <> [] ->
  exists s,
    weightedRandomSelection u shows = Some s /\ In s shows /\
    ((inject_Z (totalWeight (weightsOf shows)) < drawOf u shows)%Q ->
     last shows = Some s).
Proof.
  intros Hne.
  pose proof (selectedIndex_in_range shows u Hne) as Hlt.
  destruct (lookup_lt_is_Some_2 shows _ Hlt) as [s Hs].
  exists s. unfold weightedRandomSelection. split; [exact Hs|]. split.
  - apply list_elem_of_In. eapply list_elem_of_lookup_2. exact Hs.
  - intros Hover. rewrite last_lookup.
    rewrite (selectedIndex_overshoot shows u Hover) in Hs.
    now replace (Init.Nat.pred (length shows)) with (length shows - 1)%nat by lia.
Qed.

Lemma weightedRandomSelection_total_witness :
  exists s,
    weightedRandomSelection (3 # 2)%Q Samples.ratedThree = Some s /\
    In s Samples.ratedThree /\
    ((inject_Z (totalWeight (weightsOf Samples.ratedThree))
        < drawOf (3 # 2)%Q Samples.ratedThree)%Q ->
     last Samples.ratedThree = Some s).
Proof.
  apply (weightedRandomSelection_total
           Samples.ratedThree (3 # 2)%Q).
  discriminate.
Defined.

(** Candidate [i] is selected exactly when the draw lies above the
    cumulative weight before it (or [i] is the first) and at most at its own
    cumulative weight. *)
Lemma indexAt_interval (shows : list NetflixShow) (r : Q) (i : nat) :
  shows <> [] -> (r <= inject_Z (totalWeight (weightsOf shows)))%Q ->
  (indexAt r shows = i <->
   ((inject_Z (prefixWeight (weightsOf shows) i) < r)%Q \/ i = 0%nat) /\
   (r <= inject_Z (prefixWeight (weightsOf shows) (S i)))%Q).
Proof.
  intros Hne Hr.
  destruct (indexAt_first shows r Hne Hr) as [Hle Hbefore].
  split.
  - intros <-. split; [|exact Hle].
    destruct (indexAt r shows) as [|j] eqn:E; [now right | left].
    apply Hbefore. lia.
  - intros [Hlo Hhi].
    destruct (Nat.lt_trichotomy (indexAt r shows) i) as [Hlt | [Heq | Hgt]];
      [exfalso | exact Heq | exfalso].
    + destruct Hlo as [Hlo | ->]; [|lia].
      pose proof (prefixWeight_mono (weightsOf shows) (S (indexAt r shows)) i
                    (weightsOf_nonneg shows) ltac:(lia)) as Hmono.
      rewrite Zle_Qle in Hmono.
      apply (Qlt_irrefl r).
      eapply Qle_lt_trans; [exact Hle|]. eapply Qle_lt_trans; [exact Hmono | exact Hlo].
    + specialize (Hbefore i Hgt).
      apply (Qlt_irrefl r). eapply Qle_lt_trans; eassumption.
Qed.

Lemma weightsOf_rated (shows : list NetflixShow) :
  Forall (fun s => qualityFilter s = true) shows ->
  weightsOf shows = map (fun s => Z.max (rating s) 30) shows.
Proof.
  intros Hq. unfold weightsOf. apply map_ext_in. intros s Hs.
  apply weightOf_rated, qualityFilter_rated.
  rewrite List.Forall_forall in Hq. now apply Hq.
Qed.

Lemma prefixWeight_bounds (shows : list NetflixShow) (i : nat) :
  (i <= length shows)%nat ->
  0 <= prefixWeight (weightsOf shows) i <= totalWeight (weightsOf shows).
Proof.
  intros Hi.
  pose proof (prefixWeight_mono (weightsOf shows) 0 i (weightsOf_nonneg shows)
                ltac:(lia)) as H0.
  pose proof (prefixWeight_mono (weightsOf shows) i (length (weightsOf shows))
                (weightsOf_nonneg shows)) as H1.
  rewrite prefixWeight_all in H1. rewrite prefixWeight_0 in H0.
  assert (Hl : length (weightsOf shows) = length shows)
    by (unfold weightsOf; apply length_map).
  rewrite Hl in H1. specialize (H1 Hi). lia.
Qed.

(** With the ratings 90, 60 and 10 the title rated 90 is returned exactly
    for the draws up to 90 out of 180. *)
Lemma indexAt_ratings_90_60_10 (r : Q) :
  (r <= 180)%Q ->
  (Samples.ratedThree !! indexAt r Samples.ratedThree = Some Samples.showA
   <-> (r <= 90)%Q).
Proof.
  intros Hr.
  pose proof (indexAt_interval Samples.ratedThree r 0%nat ltac:(discriminate) Hr) as Hiff.
  pose proof (indexAt_in_range Samples.ratedThree r ltac:(discriminate)) as Hlt.
  change (prefixWeight (weightsOf Samples.ratedThree) 1) with 90 in Hiff.
  assert (Hidx : Samples.ratedThree !! indexAt r Samples.ratedThree = Some Samples.showA
                 <-> indexAt r Samples.ratedThree = 0%nat).
  { destruct (indexAt r Samples.ratedThree) as [|[|[|k]]]; simpl in *;
      split; intros H; try reflexivity; try discriminate; lia. }
  rewrite Hidx, Hiff. split; [now intros [_ H] | intros H; split; [now right | exact H]].
Qed.

Lemma strictFilter_quality cfg userId m candidates :
  Forall (fun s => qualityFilter s = true) (strictFilter cfg userId m candidates).
Proof.
  unfold strictFilter. apply List.Forall_forall. intros s Hs.
  now apply filter_In in Hs as [_ Hs].
Qed.

(** C2: let [shows] be the non-empty list selectRandomShow passes to the
    weighted selection, that is, the candidates left by the rating, recent
    and quality filters.  The weight of each candidate is its rating floored
    at 30.  The draw is the product of [Math.random()] and the total weight
    as the multiplication of doubles gives it; it lies between 0 and the
    total weight, and the selection is read at it.  Every value [r] of the
    draw up to the total weight, so every [r] in [0, total), selects the
    first candidate whose cumulative weight is at least [r]: candidate [i]
    is selected exactly for the [r] above the cumulative weight before it
    (from 0 on for the first candidate) and up to its own cumulative weight,
    an interval of length [max rating 30], which is the share
    [max rating 30 / sum of the floored ratings] of the draw interval.  For
    the ratings 90, 60 and 10 the weights are 90, 60 and 30 and the title
    rated 90 is selected exactly for [r <= 90], which is the share 90/180 =
    1/2 of the draw interval. *)
Theorem weighted_selection_proportional cfg userId m candidates shows :
  shows = strictFilter cfg userId m candidates ->
  shows <> [] ->
  weightsOf shows = map (fun s => Z.max (rating s) 30) shows /\
  (forall u,
     drawOf u shows = roundToDouble (u * inject_Z (totalWeight (weightsOf shows))) /\
     weightedRandomSelection u shows = shows !! indexAt (drawOf u shows) shows) /\
  (forall u, (0 <= u)%Q -> (u < 1)%Q -> totalWeight (weightsOf shows) < 2 ^ 53 ->
     (0 <= drawOf u shows)%Q /\
     (drawOf u shows <= inject_Z (totalWeight (weightsOf shows)))%Q) /\
  (forall r, (r <= inject_Z (totalWeight (weightsOf shows)))%Q ->
     exists s,
       shows !! indexAt r shows = Some s /\
       (r <= inject_Z (prefixWeight (weightsOf shows) (S (indexAt r shows))))%Q /\
       (forall j, (j < indexAt r shows)%nat ->
          (inject_Z (prefixWeight (weightsOf shows) (S j)) < r)%Q)) /\
  (forall i s, shows !! i = Some s ->
     (forall r, (r <= inject_Z (totalWeight (weightsOf shows)))%Q ->
        (indexAt r shows = i <->
         ((inject_Z (prefixWeight (weightsOf shows) i) < r)%Q \/ i = 0%nat) /\
         (r <= inject_Z (prefixWeight (weightsOf shows) (S i)))%Q)) /\
     0 <= prefixWeight (weightsOf shows) i /\
     prefixWeight (weightsOf shows) (S i) <= totalWeight (weightsOf shows) /\
     prefixWeight (weightsOf shows) (S i) - prefixWeight (weightsOf shows) i
       = Z.max (rating s) 30 /\
     (intervalShare shows i ==
        inject_Z (Z.max (rating s) 30)
        / inject_Z (totalWeight (map (fun s => Z.max (rating s) 30) shows)))%Q) /\
  (weightsOf Samples.ratedThree = [90; 60; 30] /\
   (intervalShare Samples.ratedThree 0 == 1 # 2)%Q /\
   forall r, (0 <= r)%Q -> (r < 180)%Q ->
     (Samples.ratedThree !! indexAt r Samples.ratedThree = Some Samples.showA
      <-> (r <= 90)%Q)).
Proof.
  intros -> Hne.
  pose proof (weightsOf_rated _ (strictFilter_quality cfg userId m candidates)) as Hw.
  set (shows := strictFilter cfg userId m candidates) in *.
  split; [exact Hw|]. split; [now split|]. split; [apply drawOf_in_range|].
  split; [|split].
  - intros r Hr.
    destruct (lookup_lt_is_Some_2 shows _ (indexAt_in_range shows r Hne)) as [s Hs].
    exists s. split; [exact Hs|]. now apply indexAt_first.
  - intros i s Hs.
    assert (Hi : (i < length shows)%nat) by (eapply lookup_lt_Some; exact Hs).
    assert (Hwi : weightsOf shows !! i = Some (Z.max (rating s) 30)).
    { rewrite Hw. rewrite list_lookup_fmap, Hs. reflexivity. }
    pose proof (prefixWeight_step _ _ _ Hwi) as Hstep.
    pose proof (prefixWeight_bounds shows i ltac:(lia)) as Hlo.
    pose proof (prefixWeight_bounds shows (S i) ltac:(lia)) as Hhi.
    split; [intros r Hr; now apply indexAt_interval|].
    split; [lia|]. split; [lia|]. split; [lia|].
    unfold intervalShare. rewrite <- Hw.
    now replace (prefixWeight (weightsOf shows) (S i) - prefixWeight (weightsOf shows) i)
      with (Z.max (rating s) 30) by lia.
  - split; [reflexivity|]. split; [reflexivity|].
    intros r _ Hr. apply indexAt_ratings_90_60_10. now apply Qlt_le_weak.
Qed.

Lemma weighted_selection_proportional_witness :
  weightsOf Samples.ratedThree = [90; 60; 30] /\
  (intervalShare Samples.ratedThree 1 == 60 # 180)%Q /\
  indexAt 91 Samples.ratedThree = 1%nat /\
  (0 <= drawOf (1 # 2) Samples.ratedThree)%Q.
Proof.
  destruct (weighted_selection_proportional (Samples.movieRequest None) None []
              Samples.ratedThree Samples.ratedThree)
    as (Hw & _ & Hrange & _ & Hint & _).
  - reflexivity.
  - discriminate.
  - destruct (Hint 1%nat Samples.showB eq_refl) as (Hiff & _ & _ & _ & Hshare).
    split; [exact Hw|]. split; [exact Hshare|]. split.
    + apply (Hiff 91%Q); [discriminate|].
      split; [left; reflexivity | discriminate].
    + apply (Hrange (1 # 2)%Q); [discriminate | reflexivity | reflexivity].
Defined.

(** The multiplication is that of doubles: for five titles rated 30 and
    [Math.random()] the double nearest to 0.2, the draw is 30 and the first
    title is selected, where the exact product lies above 30. *)
Lemma draw_is_a_double :
  (30 < (3602879701896397 # 18014398509481984)
        * inject_Z (totalWeight (weightsOf (replicate 5 (Samples.sampleShow "T" 30)))))%Q /\
  (drawOf (3602879701896397 # 18014398509481984)
          (replicate 5 (Samples.sampleShow "T" 30)) == 30)%Q /\
  selectedIndex (3602879701896397 # 18014398509481984)
                (replicate 5 (Samples.sampleShow "T" 30)) = 0%nat.
Proof. repeat split; vm_compute; reflexivity. Qed.

(** * Properties of the pick history *)

Lemma mapGet_mapSet_eq k v m : mapGet k (mapSet k v m) = Some v.
Proof.
  induction m as [|[k' v'] m IH]; simpl.
  - now rewrite String.eqb_refl.
  - destruct (String.eqb k k') eqn:E; simpl; rewrite E; [reflexivity | exact IH].
Qed.

Lemma mapGet_mapSet_ne k k' v m : k <> k' -> mapGet k' (mapSet k v m) = mapGet k' m.
Proof.
  intros Hne. induction m as [|[k0 v0] m IH]; simpl.
  - apply String.eqb_neq in Hne. rewrite String.eqb_sym in Hne. now rewrite Hne.
  - destruct (String.eqb k k0) eqn:E; simpl.
    + apply String.eqb_eq in E. subst k0.
      assert (String.eqb k' k = false) as -> by (apply String.eqb_neq; congruence).
      reflexivity.
    + now rewrite IH.
Qed.

Lemma mapGet_None_keys k m : mapGet k m = None <-> ~ In k (map fst m).
Proof.
  induction m as [|[k' v'] m IH]; simpl; [tauto|].
  destruct (String.eqb k k') eqn:E.
  - apply String.eqb_eq in E. subst. split; [discriminate | tauto].
  - apply String.eqb_neq in E. rewrite IH. split; [intros H [H'|H']; congruence | tauto].
Qed.

Lemma mapSet_fresh k v m : mapGet k m = None -> mapSet k v m = m ++ [(k, v)].
Proof.
  induction m as [|[k' v'] m IH]; simpl; [reflexivity|].
  destruct (String.eqb k k'); [discriminate|]. intros H. now rewrite IH.
Qed.

Lemma mapSet_mapSet k v v' m : mapSet k v' (mapSet k v m) = mapSet k v' m.
Proof.
  induction m as [|[k0 v0] m IH]; simpl.
  - now rewrite String.eqb_refl.
  - destruct (String.eqb k k0) eqn:E; simpl; rewrite E; [reflexivity | now rewrite IH].
Qed.

Lemma length_mapSet k v m :
  length (mapSet k v m) = if mapHas k m then length m else S (length m).
Proof.
  unfold mapHas. induction m as [|[k0 v0] m IH]; simpl; [reflexivity|].
  destruct (String.eqb k k0); simpl; [reflexivity|].
  rewrite IH. now destruct (mapGet k m).
Qed.

Lemma keys_mapSet_present k v m :
  mapHas k m = true -> map fst (mapSet k v m) = map fst m.
Proof.
  unfold mapHas. induction m as [|[k0 v0] m IH]; simpl; [discriminate|].
  destruct (String.eqb k k0); simpl; [reflexivity|]. intros H. now rewrite IH.
Qed.

(** Re-inserting the entries of a map with distinct keys, in order, into an
    empty map gives the same entries in the same order. *)
Lemma rebuild_entries (l acc : PickMap) :
  NoDup (map fst (acc ++ l)) ->
  foldl (fun a e => mapSet (fst e) (snd e) a) acc l = acc ++ l.
Proof.
  revert acc. induction l as [|[k v] l IH]; intros acc Hnd; simpl.
  - now rewrite app_nil_r.
  - assert (Hfresh : mapGet k acc = None).
    { apply mapGet_None_keys. rewrite map_app in Hnd. simpl in Hnd.
      apply NoDup_ListNoDup in Hnd. apply List.NoDup_remove_2 in Hnd.
      intros Hin. apply Hnd. apply in_or_app. now left. }
    rewrite (mapSet_fresh _ _ _ Hfresh).
    rewrite IH; rewrite <- app_assoc; [reflexivity | exact Hnd].
Qed.

Lemma truncate_firstn (n : nat) (l : list NetflixShow) :
  (if (n <? length l)%nat then firstn n l else l) = firstn n l.
Proof.
  destruct (n <? length l)%nat eqn:E; [reflexivity|].
  apply Nat.ltb_ge in E. symmetry. now apply firstn_all2.
Qed.

(** The shape of trackUserPick before the cleanup. *)
Lemma trackUserPick_unfold P uid s m :
  trackUserPick P uid s m =
  cleanupOldPicks P
    (mapSet uid (firstn (maxRecentPicks P) (s :: getUserRecentPicks uid m)) m).
Proof.
  unfold trackUserPick, getUserRecentPicks, mapHas.
  destruct (mapGet uid m) as [l|] eqn:E.
  - rewrite E. now rewrite truncate_firstn.
  - rewrite mapGet_mapSet_eq, truncate_firstn. now rewrite mapSet_mapSet.
Qed.

Lemma cleanupOldPicks_idle P m :
  (length m <= maxUsers P)%nat -> cleanupOldPicks P m = m.
Proof.
  intros H. unfold cleanupOldPicks.
  destruct (maxUsers P <? length m)%nat eqn:E; [|reflexivity].
  apply Nat.ltb_lt in E. lia.
Qed.

(** Above the threshold the cleanup keeps the entries that were inserted
    first and drops every later one. *)
Lemma cleanupOldPicks_keeps_first P (m : PickMap) :
  NoDup (map fst m) -> (maxUsers P < length m)%nat ->
  cleanupOldPicks P m = firstn (keepUsers P) m.
Proof.
  intros Hnd Hlen. unfold cleanupOldPicks.
  apply Nat.ltb_lt in Hlen. rewrite Hlen.
  rewrite rebuild_entries; [reflexivity|]. simpl.
  rewrite <- firstn_map. apply NoDup_ListNoDup.
  apply NoDup_ListNoDup in Hnd.
  rewrite <- (firstn_skipn (keepUsers P) (map fst m)) in Hnd.
  now apply List.NoDup_app_remove_r in Hnd.
Qed.

(** C9 (the code at the failing input): in the direct service, user100
    makes a pick while user0 ... user99 are tracked; the map then holds 101
    users, above the bound of 100, and the cleanup keeps user0 ... user49,
    the users tracked first, and drops the 51 most recent ones, user100 and
    its fresh pick included.  The cache-backed service does the same at
    1001 users, keeping user0 ... user499. *)
Theorem cleanup_drops_newest_users :
  trackUserPick directPicker (Samples.userName 100) Samples.showB (Samples.crowd 100)
    = Samples.crowd 50 /\
  mapGet (Samples.userName 100)
    (trackUserPick directPicker (Samples.userName 100) Samples.showB (Samples.crowd 100))
    = None /\
  mapGet (Samples.userName 0)
    (trackUserPick directPicker (Samples.userName 100) Samples.showB (Samples.crowd 100))
    = Some [Samples.showA] /\
  trackUserPick cachedPicker (Samples.userName 1000) Samples.showB (Samples.crowd 1000)
    = Samples.crowd 500.
Proof. repeat split; vm_compute; reflexivity. Qed.

Lemma mapSet_Forall (Q : string * list NetflixShow -> Prop) k v m :
  (forall k', Q (k', v)) -> Forall Q m -> Forall Q (mapSet k v m).
Proof.
  intros Hv Hm. induction Hm as [|[k0 v0] m H0 Hm IH]; simpl.
  - constructor; [apply Hv | constructor].
  - destruct (String.eqb k k0); constructor; auto.
Qed.

Lemma rebuild_Forall (Q : string * list NetflixShow -> Prop) (l acc : PickMap) :
  (forall k k' v, Q (k, v) -> Q (k', v)) ->
  Forall Q l -> Forall Q acc ->
  Forall Q (foldl (fun a e => mapSet (fst e) (snd e) a) acc l).
Proof.
  intros Hk Hl. revert acc. induction Hl as [|[k v] l H0 Hl IH]; intros acc Hacc; simpl.
  - exact Hacc.
  - apply IH. apply mapSet_Forall; [|exact Hacc]. intros k'. now apply (Hk k).
Qed.

Lemma trackUserPick_bounded P uid s m :
  historiesBounded P m -> historiesBounded P (trackUserPick P uid s m).
Proof.
  intros Hm. rewrite trackUserPick_unfold.
  assert (Hset : historiesBounded P
            (mapSet uid (firstn (maxRecentPicks P) (s :: getUserRecentPicks uid m)) m)).
  { apply mapSet_Forall; [|exact Hm]. intros k'. simpl.
    rewrite length_firstn. lia. }
  unfold cleanupOldPicks.
  destruct (maxUsers P <? length _)%nat; [|exact Hset].
  apply rebuild_Forall; [intros k k' v H; exact H | | constructor].
  now apply Forall_take.
Qed.

(** When the first run of selectRandomShow finds a title and the cleanup
    does not fire, the title is put in front of the user's history and the
    history is cut to [maxRecentPicks]. *)
Lemma discover_strict_tracks P cfg uid strict relaxed st s :
  truthyString uid = true ->
  selectRandomShow cfg (Some uid) (recentPicks st) strict = Some s ->
  (length (recentPicks st) < maxUsers P)%nat ->
  let '(r, st') := discover P cfg (Some uid) strict relaxed st in
  r = Found {| resp_show := s; resp_country := country cfg; fromCache := true |} /\
  mapGet uid (recentPicks st')
    = Some (firstn (maxRecentPicks P) (s :: getUserRecentPicks uid (recentPicks st))).
Proof.
  intros Huid Hsel Hlen. unfold discover. rewrite Hsel. simpl. rewrite Huid.
  split; [reflexivity|]. simpl.
  rewrite trackUserPick_unfold, cleanupOldPicks_idle.
  - apply mapGet_mapSet_eq.
  - rewrite length_mapSet. destruct (mapHas uid (recentPicks st)); lia.
Qed.

(** Every path of discover keeps the histories bounded. *)
Lemma discover_bounded P cfg userId strict relaxed st :
  historiesBounded P (recentPicks st) ->
  historiesBounded P (recentPicks (snd (discover P cfg userId strict relaxed st))).
Proof.
  intros Hb. unfold discover.
  destruct (selectRandomShow cfg userId (recentPicks st) strict) as [s|].
  - destruct userId as [uid|]; simpl; [|exact Hb].
    destruct (truthyString uid); simpl; [|exact Hb].
    now apply trackUserPick_bounded.
  - destruct (selectRandomShow (relaxedConfig cfg) userId (recentPicks st) relaxed);
      simpl; exact Hb.
Qed.

(** C8 (the code at the failing input): user u1 asks for a movie rated at
    least 95 while the pool holds only the title A, rated 90.  The first
    run finds nothing, the fallback run returns A, and discover resolves
    with A without recording it: the history of u1 is still absent. *)
Theorem discover_fallback_not_tracked :
  discover cachedPicker (Samples.movieRequest (Some 95)) (Some "u1")
    (Samples.passOver (Samples.systemWith [Samples.showA]) 0)
    (Samples.passOver (Samples.systemWith [Samples.showA]) 0)
    initialState
  = (Found {| resp_show := Samples.showA; resp_country := "us"; fromCache := false |},
     {| recentPicks := []; totalPicks := 1 |}).
Proof. vm_compute. reflexivity. Qed.

(** * The strict pass and the relaxed retry *)

Lemma gatherCandidates_relaxed cfg p :
  gatherCandidates (relaxedConfig cfg) p = gatherCandidates cfg p.
Proof. reflexivity. Qed.

(** The relaxed configuration leaves only the quality filter. *)
Lemma strictFilter_relaxed cfg userId m l :
  strictFilter (relaxedConfig cfg) userId m l = List.filter qualityFilter l.
Proof.
  unfold strictFilter, recentFilter, ratingFilter, excludeRecentOf. simpl.
  now destruct userId.
Qed.

Lemma strictFilter_nil cfg userId m : strictFilter cfg userId m [] = [].
Proof.
  unfold strictFilter, recentFilter, ratingFilter.
  repeat case_match; reflexivity.
Qed.

Lemma selectAmong_None cfg userId m l u :
  selectAmong cfg userId m l u = None <-> strictFilter cfg userId m l = [].
Proof.
  unfold selectAmong.
  destruct l as [|c l]; [rewrite strictFilter_nil; simpl; tauto|].
  change (length (c :: l) =? 0)%nat with false. cbv iota.
  destruct (strictFilter cfg userId m (c :: l)) as [|s f] eqn:E; [tauto|].
  change (length (s :: f) =? 0)%nat with false. cbv iota.
  destruct (selection_defined (s :: f) u ltac:(discriminate)) as (x & Hx & _).
  rewrite Hx. split; discriminate.
Qed.

Lemma selectAmong_Some cfg userId m l u s :
  selectAmong cfg userId m l u = Some s ->
  weightedRandomSelection u (strictFilter cfg userId m l) = Some s /\
  In s (strictFilter cfg userId m l).
Proof.
  unfold selectAmong.
  destruct (length l =? 0)%nat; [discriminate|].
  destruct (strictFilter cfg userId m l) as [|c f] eqn:E; [discriminate|].
  change (length (c :: f) =? 0)%nat with false. cbv iota. intros H. split; [exact H|].
  destruct (selection_defined (c :: f) u ltac:(discriminate)) as (x & Hx & Hin).
  congruence.
Qed.

(** C1, as the code has it: when the strict pass leaves no candidate
    although the pools it read were not empty, discover runs
    selectRandomShow once more with excludeRecent off and no minimum rating;
    that run still applies the quality filter.  If a title read by the retry
    passes the quality filter, discover resolves with one of them (marked
    fromCache = false); otherwise it rejects with "No Netflix ... found for
    ...". *)
Theorem discover_relaxed_retry P cfg userId strict relaxed st :
  gatherCandidates cfg strict <> [] ->
  strictFilter cfg userId (recentPicks st) (gatherCandidates cfg strict) = [] ->
  (List.filter qualityFilter (gatherCandidates cfg relaxed) <> [] ->
   exists s,
     In s (List.filter qualityFilter (gatherCandidates cfg relaxed)) /\
     weightedRandomSelection (draw relaxed)
       (List.filter qualityFilter (gatherCandidates cfg relaxed)) = Some s /\
     fst (discover P cfg userId strict relaxed st)
       = Found {| resp_show := s; resp_country := country cfg; fromCache := false |}) /\
  (List.filter qualityFilter (gatherCandidates cfg relaxed) = [] ->
   fst (discover P cfg userId strict relaxed st) = Failed (notFoundMessage cfg)).
Proof.
  intros _ Hstrict.
  assert (H1 : selectRandomShow cfg userId (recentPicks st) strict = None).
  { unfold selectRandomShow. now apply selectAmong_None. }
  unfold discover. rewrite H1. split.
  - intros Hne.
    destruct (selectRandomShow (relaxedConfig cfg) userId (recentPicks st) relaxed)
      as [s|] eqn:E.
    + unfold selectRandomShow in E. apply selectAmong_Some in E as [Hsel Hin].
      rewrite strictFilter_relaxed, gatherCandidates_relaxed in Hsel, Hin.
      exists s. repeat split; assumption.
    + unfold selectRandomShow in E. apply selectAmong_None in E.
      rewrite strictFilter_relaxed, gatherCandidates_relaxed in E. contradiction.
  - intros Hnil.
    assert (H2 : selectRandomShow (relaxedConfig cfg) userId (recentPicks st) relaxed = None).
    { unfold selectRandomShow. apply selectAmong_None.
      now rewrite strictFilter_relaxed, gatherCandidates_relaxed. }
    now rewrite H2.
Qed.

Lemma discover_relaxed_retry_witness :
  fst (discover cachedPicker (Samples.movieRequest (Some 95)) (Some "u1")
         (Samples.passOver (Samples.systemWith [Samples.showA]) 0)
         (Samples.passOver (Samples.systemWith [Samples.showA]) 0) initialState)
  = Found {| resp_show := Samples.showA; resp_country := "us"; fromCache := false |}.
Proof.
  destruct (discover_relaxed_retry cachedPicker (Samples.movieRequest (Some 95))
              (Some "u1")
              (Samples.passOver (Samples.systemWith [Samples.showA]) 0)
              (Samples.passOver (Samples.systemWith [Samples.showA]) 0) initialState)
    as [Hfound _].
  - vm_compute. discriminate.
  - vm_compute. reflexivity.
  - destruct Hfound as (s & Hin & _ & Hres).
    + vm_compute. discriminate.
    + rewrite Hres. vm_compute in Hin. destruct Hin as [<- | []]. reflexivity.
Defined.

(** C1 as stated fails: the pool read by both runs holds one title, which
    the catalogue does not rate; the strict pass and the retry both discard
    it in the quality filter and discover rejects although the pool is not
    empty. *)
Lemma discover_fails_on_nonempty_pool :
  gatherCandidates (Samples.movieRequest None)
    (Samples.passOver (Samples.systemWith [Samples.unrated]) 0) = [Samples.unrated] /\
  strictFilter (Samples.movieRequest None) (Some "u1") []
    (gatherCandidates (Samples.movieRequest None)
       (Samples.passOver (Samples.systemWith [Samples.unrated]) 0)) = [] /\
  discover cachedPicker (Samples.movieRequest None) (Some "u1")
    (Samples.passOver (Samples.systemWith [Samples.unrated]) 0)
    (Samples.passOver (Samples.systemWith [Samples.unrated]) 0) initialState
  = (Failed "No Netflix movie found for us", initialState).
Proof. repeat split; vm_compute; reflexivity. Qed.

(** * Exclusion of recent picks *)

Lemma size_list_to_set_le (l : list string) :
  (size (list_to_set l : gset string) <= length l)%nat.
Proof.
  induction l as [|x l IH].
  - rewrite list_to_set_nil, size_empty. simpl. lia.
  - rewrite list_to_set_cons, size_union_alt, size_singleton. simpl.
    assert (Hs : (list_to_set l : gset string) ∖ {[x]} ⊆ list_to_set l).
    { intros y Hy. now apply elem_of_difference in Hy as [Hy _]. }
    apply subseteq_size in Hs. lia.
Qed.

Lemma In_strictFilter cfg userId m l s :
  In s (strictFilter cfg userId m l) <->
  In s l /\ eligible cfg s = true /\
  match userId with
  | Some uid =>
      excludeRecentOf cfg && truthyString uid = true ->
      ~ In (show_id s) (map show_id (getUserRecentPicks uid m))
  | None => True
  end.
Proof.
  unfold strictFilter, eligible. rewrite filter_In.
  assert (Hr : forall x, In x (ratingFilter cfg l) <->
     In x l /\ match minRating cfg with
               | Some m0 => if truthyNumber m0 then (m0 <=? rating x)%Z else true
               | None => true end = true).
  { intros x. unfold ratingFilter. destruct (minRating cfg) as [m0|]; [|tauto].
    destruct (truthyNumber m0); [|tauto]. now rewrite filter_In. }
  unfold recentFilter. destruct userId as [uid|].
  - destruct (excludeRecentOf cfg && truthyString uid).
    + rewrite filter_In, Hr, negb_true_iff, bool_decide_eq_false.
      rewrite elem_of_list_to_set, list_elem_of_In, andb_true_iff. tauto.
    + rewrite Hr, andb_true_iff. intuition discriminate.
  - rewrite Hr, andb_true_iff. tauto.
Qed.

Lemma strict_survivor cfg uid m l :
  (length (getUserRecentPicks uid m) <
     size (eligibleIds cfg l))%nat ->
  strictFilter cfg (Some uid) m l <> [].
Proof.
  intros Hsize Hnil.
  assert (Hsub : eligibleIds cfg l ⊆
                 (list_to_set (map show_id (getUserRecentPicks uid m)) : gset string)).
  { intros i Hi. unfold eligibleIds in Hi.
    apply elem_of_list_to_set, list_elem_of_In, in_map_iff in Hi as (s & <- & Hs).
    apply filter_In in Hs as [Hs He].
    apply elem_of_list_to_set, list_elem_of_In.
    destruct (in_dec String.string_dec (show_id s)
                (map show_id (getUserRecentPicks uid m)))
      as [Hin | Hout]; [exact Hin | exfalso].
    assert (Hsurv : In s (strictFilter cfg (Some uid) m l)).
    { apply In_strictFilter. repeat split; auto. }
    rewrite Hnil in Hsurv. exact Hsurv. }
  apply subseteq_size in Hsub.
  pose proof (size_list_to_set_le (map show_id (getUserRecentPicks uid m))) as Hle.
  rewrite length_map in Hle. lia.
Qed.

Lemma getUserRecentPicks_bounded P uid m :
  historiesBounded P m -> (length (getUserRecentPicks uid m) <= maxRecentPicks P)%nat.
Proof.
  unfold getUserRecentPicks. intros Hb.
  induction Hb as [|[k v] m H0 Hb IH]; simpl; [lia|].
  destruct (String.eqb uid k); [exact H0 | exact IH].
Qed.

Lemma trackUserPick_quiet P uid s m :
  (length m < maxUsers P)%nat ->
  trackUserPick P uid s m
  = mapSet uid (firstn (maxRecentPicks P) (s :: getUserRecentPicks uid m)) m.
Proof.
  intros Hlen. rewrite trackUserPick_unfold. apply cleanupOldPicks_idle.
  rewrite length_mapSet. destruct (mapHas uid m); lia.
Qed.

Lemma length_mapSet_le k v m : (length (mapSet k v m) <= S (length m))%nat.
Proof. rewrite length_mapSet. destruct (mapHas k m); lia. Qed.

(** What discover does to the pick map. *)
Lemma discover_history P cfg userId strict relaxed st :
  recentPicks (snd (discover P cfg userId strict relaxed st)) = recentPicks st \/
  exists uid s,
    userId = Some uid /\ truthyString uid = true /\
    selectRandomShow cfg userId (recentPicks st) strict = Some s /\
    fst (discover P cfg userId strict relaxed st)
      = Found {| resp_show := s; resp_country := country cfg; fromCache := true |} /\
    recentPicks (snd (discover P cfg userId strict relaxed st))
      = trackUserPick P uid s (recentPicks st).
Proof.
  unfold discover.
  destruct (selectRandomShow cfg userId (recentPicks st) strict) as [s|].
  - destruct userId as [uid|]; simpl; [|now left].
    destruct (truthyString uid) eqn:E; simpl; [|now left].
    right. exists uid, s. repeat split; auto.
  - destruct (selectRandomShow (relaxedConfig cfg) userId (recentPicks st) relaxed);
      simpl; now left.
Qed.

Lemma discover_strict P cfg uid strict relaxed st s :
  truthyString uid = true ->
  selectRandomShow cfg (Some uid) (recentPicks st) strict = Some s ->
  discover P cfg (Some uid) strict relaxed st
  = (Found {| resp_show := s; resp_country := country cfg; fromCache := true |},
     {| recentPicks := trackUserPick P uid s (recentPicks st);
        totalPicks := (totalPicks st + 1)%Z |}).
Proof.
  intros Hu Hsel. unfold discover. rewrite Hsel. simpl. now rewrite Hu.
Qed.

(** The keys of a pick map after a set. *)
Lemma keys_mapSet k v m :
  map fst (mapSet k v m) = if mapHas k m then map fst m else map fst m ++ [k].
Proof.
  destruct (mapHas k m) eqn:E.
  - now apply keys_mapSet_present.
  - unfold mapHas in E. destruct (mapGet k m) eqn:E'; [discriminate|].
    rewrite (mapSet_fresh _ _ _ E'), map_app. reflexivity.
Qed.

Lemma mapSet_NoDup k v m : NoDup (map fst m) -> NoDup (map fst (mapSet k v m)).
Proof.
  intros Hnd. rewrite keys_mapSet. destruct (mapHas k m) eqn:E; [exact Hnd|].
  apply NoDup_app. repeat split; [exact Hnd | | apply NoDup_singleton].
  intros x Hx Hx'. apply list_elem_of_singleton in Hx'. subst x.
  unfold mapHas in E. destruct (mapGet k m) eqn:E'; [discriminate|].
  apply mapGet_None_keys in E'. apply E'. now apply list_elem_of_In.
Qed.

Lemma runTrace_results P calls : forall st,
  map snd (runTrace P calls st) = fst (runCalls P calls st).
Proof.
  induction calls as [|c rest IH]; intros st; simpl; [reflexivity|].
  destruct (discover P (call_cfg c) (call_user c) (call_strict c) (call_relaxed c) st)
    as [r st1].
  specialize (IH st1). destruct (runCalls P rest st1) as [rs st2]. simpl in *.
  now rewrite IH.
Qed.

(** The cleanup does nothing while the map stays within its bound. *)
Lemma trackUserPick_calm P uid s m :
  (length (mapSet uid (firstn (maxRecentPicks P) (s :: getUserRecentPicks uid m)) m)
   <= maxUsers P)%nat ->
  trackUserPick P uid s m
  = mapSet uid (firstn (maxRecentPicks P) (s :: getUserRecentPicks uid m)) m.
Proof. intros H. rewrite trackUserPick_unfold. now apply cleanupOldPicks_idle. Qed.

Lemma keys_mapSet_set k v m :
  (list_to_set (map fst (mapSet k v m)) : gset string)
  = list_to_set (map fst m) ∪ {[k]}.
Proof.
  rewrite keys_mapSet. destruct (mapHas k m) eqn:E.
  - assert (Hin : k ∈ (list_to_set (map fst m) : gset string)).
    { apply elem_of_list_to_set.
      unfold mapHas in E. destruct (mapGet k m) eqn:E'; [|discriminate].
      destruct (decide (k ∈ map fst m)) as [H | H]; [exact H|].
      rewrite list_elem_of_In in H. apply mapGet_None_keys in H. congruence. }
    apply set_eq. intros x. rewrite elem_of_union, elem_of_singleton.
    split; [now left | intros [H | ->]; assumption].
  - rewrite list_to_set_app_L. simpl. now rewrite union_empty_r_L.
Qed.

Lemma length_keys (m : PickMap) :
  NoDup (map fst m) -> length m = size (list_to_set (map fst m) : gset string).
Proof. intros H. rewrite size_list_to_set by exact H. now rewrite length_map. Qed.

Lemma usersOf_cons_subseteq m c rest : usersOf m rest ⊆ usersOf m (c :: rest).
Proof.
  unfold usersOf, callers. simpl.
  destruct (match call_user c with Some u => _ | None => _ end); [|reflexivity].
  simpl. apply union_mono_l. apply union_subseteq_r.
Qed.

(** A recorded pick of a caller stays within the users of the run. *)
Lemma usersOf_mapSet u v m c rest :
  call_user c = Some u -> truthyString u = true ->
  list_to_set (map fst (mapSet u v m)) ⊆ usersOf m (c :: rest) /\
  usersOf (mapSet u v m) rest ⊆ usersOf m (c :: rest).
Proof.
  intros Hu Ht. unfold usersOf, callers. simpl. rewrite Hu, Ht. simpl.
  rewrite keys_mapSet_set. split.
  - intros x. rewrite !elem_of_union, elem_of_singleton. intros [H | ->]; auto.
  - intros x. rewrite !elem_of_union, elem_of_singleton. intros [[H | ->] | H]; auto.
Qed.

(** One request with recent picks excluded, by a user with a recorded
    identifier: when the strict pass reads a fresh candidate the request
    resolves, on the strict path, with a title outside the recent picks; a
    recent pick can only come back from the relaxed retry. *)
Lemma discover_excludes P cfg uid strict relaxed st :
  truthyString uid = true ->
  excludeRecentOf cfg = true ->
  ((exists s, In s (gatherCandidates cfg strict) /\ eligible cfg s = true /\
              ~ In (show_id s) (map show_id (getUserRecentPicks uid (recentPicks st)))) ->
   exists resp,
     fst (discover P cfg (Some uid) strict relaxed st) = Found resp /\
     fromCache resp = true /\
     ~ In (show_id (resp_show resp)) (map show_id (getUserRecentPicks uid (recentPicks st)))) /\
  (forall resp,
     fst (discover P cfg (Some uid) strict relaxed st) = Found resp ->
     In (show_id (resp_show resp)) (map show_id (getUserRecentPicks uid (recentPicks st))) ->
     fromCache resp = false /\
     strictFilter cfg (Some uid) (recentPicks st) (gatherCandidates cfg strict) = []).
Proof.
  intros Hu Hex.
  destruct (selectRandomShow cfg (Some uid) (recentPicks st) strict) as [s|] eqn:Hsel.
  - rewrite (discover_strict P cfg uid strict relaxed st s Hu Hsel). cbn [fst].
    unfold selectRandomShow in Hsel. apply selectAmong_Some in Hsel as [_ Hin].
    apply In_strictFilter in Hin as (_ & _ & Hrec).
    rewrite Hex, Hu in Hrec. specialize (Hrec eq_refl). split.
    + intros _. eexists. split; [reflexivity|]. split; [reflexivity | exact Hrec].
    + intros resp [= <-] Hin. contradiction.
  - assert (Hnil : strictFilter cfg (Some uid) (recentPicks st) (gatherCandidates cfg strict)
                   = []) by (now apply selectAmong_None in Hsel).
    split.
    + intros (s & Hs & He & Hfresh). exfalso.
      assert (Hin : In s (strictFilter cfg (Some uid) (recentPicks st)
                            (gatherCandidates cfg strict))).
      { apply In_strictFilter. repeat split; auto. }
      rewrite Hnil in Hin. contradiction.
    + intros resp Hr _. split; [|exact Hnil]. unfold discover in Hr. rewrite Hsel in Hr.
      destruct (selectRandomShow (relaxedConfig cfg) (Some uid) (recentPicks st) relaxed);
        [|discriminate].
      unfold buildResponse in Hr. cbn in Hr. now injection Hr as <-.
Qed.

(** Right after the history of a user became [[X]], a request of that user
    with recent picks excluded resolves with a title other than [X] as soon
    as its strict pass reads another eligible title. *)
Lemma next_call_excludes P cfg uid strict relaxed st X s :
  truthyString uid = true ->
  excludeRecentOf cfg = true ->
  mapGet uid (recentPicks st) = Some [X] ->
  In s (gatherCandidates cfg strict) -> eligible cfg s = true ->
  show_id s <> show_id X ->
  exists resp,
    fst (discover P cfg (Some uid) strict relaxed st) = Found resp /\
    show_id (resp_show resp) <> show_id X.
Proof.
  intros Hu Hex HX Hs He Hne.
  destruct (discover_excludes P cfg uid strict relaxed st Hu Hex) as [Hfresh _].
  unfold getUserRecentPicks in Hfresh. rewrite HX in Hfresh.
  destruct Hfresh as (resp & Hr & _ & Hout).
  - exists s. repeat split; auto. simpl. intros [H | []]. now apply Hne.
  - exists resp. split; [exact Hr|]. intros Heq. apply Hout. simpl. now left.
Qed.

Section Exclusion.

Variable P : PickerParams.
Variable uid : string.
Variable T : NetflixShow.
Hypothesis uid_truthy : truthyString uid = true.

Lemma run_excludes (calls : list Call) : forall (st : PickerState) (k : nat),
  NoDup (map fst (recentPicks st)) ->
  (size (usersOf (recentPicks st) calls) <= maxUsers P)%nat ->
  (callsOf uid calls <> [] ->
   In (show_id T)
      (map show_id (firstn (S k) (getUserRecentPicks uid (recentPicks st)))) /\
   (k + length (callsOf uid calls) <= maxRecentPicks P)%nat) ->
  Forall2 (fun c b =>
             call_user c = Some uid ->
             In (show_id T) (map show_id (getUserRecentPicks uid (recentPicks (fst b)))) /\
             (excludeRecentOf (call_cfg c) = true ->
              (readsFresh uid c (fst b) ->
               exists resp,
                 snd b = Found resp /\ fromCache resp = true /\
                 show_id (resp_show resp) <> show_id T) /\
              (forall resp,
                 snd b = Found resp -> show_id (resp_show resp) = show_id T ->
                 fromCache resp = false /\
                 strictFilter (call_cfg c) (Some uid) (recentPicks (fst b))
                   (gatherCandidates (call_cfg c) (call_strict c)) = [])))
          calls (runTrace P calls st).
Proof.
  induction calls as [|c rest IH]; intros st k Hnd Hsize Hinv; simpl.
  - constructor.
  - pose proof (discover_history P (call_cfg c) (call_user c) (call_strict c)
                  (call_relaxed c) st) as Hhist.
    destruct (discover P (call_cfg c) (call_user c) (call_strict c) (call_relaxed c) st)
      as [r st1] eqn:Hd.
    cbn [fst snd] in Hhist.
    (* the map after the call *)
    assert (Hmap : recentPicks st1 = recentPicks st \/
                   exists u s,
                     call_user c = Some u /\ truthyString u = true /\
                     recentPicks st1
                     = mapSet u (firstn (maxRecentPicks P)
                                   (s :: getUserRecentPicks u (recentPicks st)))
                         (recentPicks st)).
    { destruct Hhist as [H | (u & s & Hu & Htr & _ & _ & H)]; [now left | right].
      exists u, s. split; [exact Hu|]. split; [exact Htr|].
      rewrite H. apply trackUserPick_calm.
      destruct (usersOf_mapSet u (firstn (maxRecentPicks P)
                                    (s :: getUserRecentPicks u (recentPicks st)))
                  (recentPicks st) c rest Hu Htr) as [Hsub _].
      rewrite length_keys by (now apply mapSet_NoDup).
      apply subseteq_size in Hsub. lia. }
    assert (Hnd1 : NoDup (map fst (recentPicks st1))).
    { destruct Hmap as [-> | (u & s & _ & _ & ->)]; [exact Hnd | now apply mapSet_NoDup]. }
    assert (Hsize1 : (size (usersOf (recentPicks st1) rest) <= maxUsers P)%nat).
    { destruct Hmap as [-> | (u & s & Hu & Htr & ->)].
      - pose proof (subseteq_size _ _ (usersOf_cons_subseteq (recentPicks st) c rest)). lia.
      - destruct (usersOf_mapSet u (firstn (maxRecentPicks P)
                                      (s :: getUserRecentPicks u (recentPicks st)))
                    (recentPicks st) c rest Hu Htr) as [_ Hsub].
        apply subseteq_size in Hsub. lia. }
    destruct (decide (call_user c = Some uid)) as [Hu | Hu].
    + (* a request of the user *)
      assert (Hcalls : callsOf uid (c :: rest) = c :: callsOf uid rest).
      { unfold callsOf. simpl. now rewrite bool_decide_eq_true_2. }
      rewrite Hcalls in Hinv. destruct Hinv as [HT Hk]; [discriminate|].
      simpl in Hk.
      assert (HTin : In (show_id T)
                        (map show_id (getUserRecentPicks uid (recentPicks st)))).
      { apply in_map_iff in HT as (x & Hx & Hin). apply in_map_iff. exists x.
        split; [exact Hx|]. apply list_elem_of_In. apply list_elem_of_In in Hin.
        eapply elem_of_take in Hin as (i & Hi & _). eapply list_elem_of_lookup_2. exact Hi. }
      constructor.
      * intros _. cbn [fst snd]. split; [exact HTin|]. intros Hex.
        rewrite Hu in Hd.
        destruct (discover_excludes P (call_cfg c) uid (call_strict c) (call_relaxed c) st
                    uid_truthy Hex) as [Hfresh Hback].
        rewrite Hd in Hfresh, Hback. cbn [fst] in Hfresh, Hback. split.
        -- intros Hread. destruct (Hfresh Hread) as (resp & Hr & Hc & Hout).
           exists resp. split; [exact Hr|]. split; [exact Hc|].
           intros Heq. apply Hout. now rewrite Heq.
        -- intros resp Hr Heq. apply (Hback resp Hr). now rewrite Heq.
      * apply (IH st1 (S k) Hnd1 Hsize1). intros Hmore.
        assert (0 < length (callsOf uid rest))%nat
          by (destruct (callsOf uid rest); [congruence | simpl; lia]).
        split; [|lia].
        destruct Hmap as [-> | (u & s & Hu' & _ & ->)].
        -- simpl. simpl in HT.
           destruct (getUserRecentPicks uid (recentPicks st)) as [|x l];
             [destruct HT | ].
           simpl in HT. simpl. destruct HT as [HT | HT]; [now left | right].
           apply in_map_iff in HT as (y & Hy & Hin). apply in_map_iff. exists y.
           split; [exact Hy|]. apply list_elem_of_In. apply list_elem_of_In in Hin.
           apply elem_of_take in Hin as (i & Hi & Hlt).
           apply elem_of_take. exists i. split; [exact Hi | lia].
        -- assert (u = uid) by congruence. subst u.
           unfold getUserRecentPicks at 1. rewrite mapGet_mapSet_eq.
           rewrite take_take.
           replace (S (S k) `min` maxRecentPicks P)%nat with (S (S k)) by lia.
           simpl. right. exact HT.
    + (* a request of somebody else *)
      assert (Hcalls : callsOf uid (c :: rest) = callsOf uid rest).
      { unfold callsOf. simpl. now rewrite bool_decide_eq_false_2. }
      rewrite Hcalls in Hinv.
      constructor; [intros; contradiction|].
      assert (Hkeep : getUserRecentPicks uid (recentPicks st1)
                      = getUserRecentPicks uid (recentPicks st)).
      { destruct Hmap as [-> | (u & s & Hu' & _ & ->)]; [reflexivity|].
        unfold getUserRecentPicks. now rewrite mapGet_mapSet_ne by congruence. }
      apply (IH st1 k Hnd1 Hsize1). now rewrite Hkeep.
Qed.

End Exclusion.

(** C3, as the code has it: let [T] be at the head of the recorded
    history of a user with a non-empty identifier, and let requests be
    served one after the other, at most [maxRecentPicks] of them by that
    user, while the users in the pick map and the users who ask number at
    most the bound of the map.  Then [T] is among the recent picks of the
    user whenever one of the user's requests is served.  Such a request
    with recent picks excluded resolves on the strict path with a title
    other than [T] if its strict pass reads an eligible candidate that is
    not among the recent picks of the user at that time; it can resolve
    with [T] only through the relaxed retry, after a strict pass that left
    no candidate. *)
Theorem recent_pick_excluded P uid T older (calls : list Call) (st : PickerState) :
  truthyString uid = true ->
  mapGet uid (recentPicks st) = Some (T :: older) ->
  NoDup (map fst (recentPicks st)) ->
  (size (usersOf (recentPicks st) calls) <= maxUsers P)%nat ->
  (length (callsOf uid calls) <= maxRecentPicks P)%nat ->
  map snd (runTrace P calls st) = fst (runCalls P calls st) /\
  Forall2 (fun c b =>
             call_user c = Some uid ->
             In (show_id T) (map show_id (getUserRecentPicks uid (recentPicks (fst b)))) /\
             (excludeRecentOf (call_cfg c) = true ->
              (readsFresh uid c (fst b) ->
               exists resp,
                 snd b = Found resp /\ fromCache resp = true /\
                 show_id (resp_show resp) <> show_id T) /\
              (forall resp,
                 snd b = Found resp -> show_id (resp_show resp) = show_id T ->
                 fromCache resp = false /\
                 strictFilter (call_cfg c) (Some uid) (recentPicks (fst b))
                   (gatherCandidates (call_cfg c) (call_strict c)) = [])))
          calls (runTrace P calls st).
Proof.
  intros Hu HT Hnd Hsize Hn. split; [apply runTrace_results|].
  apply (run_excludes P uid T Hu calls st 0%nat Hnd Hsize).
  intros _. unfold getUserRecentPicks. rewrite HT. simpl. split; [now left | lia].
Qed.

Lemma recent_pick_excluded_witness :
  map snd (runTrace cachedPicker
             (replicate 20 (Samples.callBy (Samples.systemWith Samples.twentyOne) 0))
             {| recentPicks := [("u1", [Samples.sampleShow "0" 80])]; totalPicks := 1 |})
  = fst (runCalls cachedPicker
           (replicate 20 (Samples.callBy (Samples.systemWith Samples.twentyOne) 0))
           {| recentPicks := [("u1", [Samples.sampleShow "0" 80])]; totalPicks := 1 |}) /\
  Forall2 (fun c b =>
             call_user c = Some "u1" ->
             In (show_id (Samples.sampleShow "0" 80))
                (map show_id (getUserRecentPicks "u1" (recentPicks (fst b)))) /\
             (excludeRecentOf (call_cfg c) = true ->
              (readsFresh "u1" c (fst b) ->
               exists resp,
                 snd b = Found resp /\ fromCache resp = true /\
                 show_id (resp_show resp) <> show_id (Samples.sampleShow "0" 80)) /\
              (forall resp,
                 snd b = Found resp ->
                 show_id (resp_show resp) = show_id (Samples.sampleShow "0" 80) ->
                 fromCache resp = false /\
                 strictFilter (call_cfg c) (Some "u1") (recentPicks (fst b))
                   (gatherCandidates (call_cfg c) (call_strict c)) = [])))
    (replicate 20 (Samples.callBy (Samples.systemWith Samples.twentyOne) 0))
    (runTrace cachedPicker
       (replicate 20 (Samples.callBy (Samples.systemWith Samples.twentyOne) 0))
       {| recentPicks := [("u1", [Samples.sampleShow "0" 80])]; totalPicks := 1 |}).
Proof.
  apply (recent_pick_excluded cachedPicker "u1" (Samples.sampleShow "0" 80) []).
  - reflexivity.
  - reflexivity.
  - simpl. apply NoDup_singleton.
  - vm_compute. lia.
  - vm_compute. lia.
Defined.

(** The proviso of C3 at work: after title 0, user u1 asks twenty times
    and every read returns the same twenty titles.  The first nineteen
    requests read a title that is not a recent pick and resolve on the
    strict path with the titles 1 to 19; the twentieth reads recent picks
    only and the relaxed retry returns title 0 again. *)
Lemma recent_pick_boundary :
  let results :=
    fst (runCalls cachedPicker
           (replicate 20 (Samples.callBy (Samples.systemWith Samples.twentyOne) 0))
           {| recentPicks := [("u1", [Samples.sampleShow "0" 80])]; totalPicks := 1 |}) in
  results !! 0%nat
    = Some (Found {| resp_show := Samples.sampleShow "1" 80; resp_country := "us";
                     fromCache := true |}) /\
  results !! 18%nat
    = Some (Found {| resp_show := Samples.sampleShow "19" 80; resp_country := "us";
                     fromCache := true |}) /\
  results !! 19%nat
    = Some (Found {| resp_show := Samples.sampleShow "0" 80; resp_country := "us";
                     fromCache := false |}).
Proof. repeat split; vm_compute; reflexivity. Qed.

(** C3 as stated fails: the "us-movie" pool holds twenty-one eligible
    titles with distinct identifiers.  User u1 asks twenty times; every
    read returns the same twenty titles and u1 is shown the titles 0 to 19
    in turn, title 19 last.  The next request of u1, with excludeRecent set,
    reads the same twenty titles, all of them recent picks; the strict pass
    is empty and the relaxed retry returns title 19 again, although title 20
    of the pool was never shown. *)
Lemma recent_pick_returned_again :
  Cache.pools (Cache.cache (Samples.systemWith Samples.twentyOne)) !! "us-movie"
    = Some {| Cache.shows := Samples.twentyOne; Cache.lastUpdate := 1000;
              Cache.country := "us"; Cache.pool_showType := "movie" |} /\
  size (eligibleIds (Samples.movieRequest None) Samples.twentyOne)
    = S (maxRecentPicks cachedPicker) /\
  fst (runCalls cachedPicker Samples.repeatCalls initialState) !! 19%nat
    = Some (Found {| resp_show := Samples.sampleShow "19" 80; resp_country := "us";
                     fromCache := true |}) /\
  fst (runCalls cachedPicker Samples.repeatCalls initialState) !! 20%nat
    = Some (Found {| resp_show := Samples.sampleShow "19" 80; resp_country := "us";
                     fromCache := false |}).
Proof. repeat split; vm_compute; reflexivity. Qed.

End PickerFacts.

(** * Properties of the pool cache *)

Module CacheFacts.

Import Cache CacheNotions.

Lemma sliceTo_length_le {A} (l : list A) (stop : Z) :
  0 <= stop -> Z.of_nat (length (sliceTo l stop)) <= stop.
Proof.
  intros Hs. unfold sliceTo.
  destruct (stop <? 0) eqn:E; [lia|].
  rewrite length_take. lia.
Qed.

Lemma sliceTo_all {A} (l : list A) (stop : Z) :
  Z.of_nat (length l) <= stop -> sliceTo l stop = l.
Proof.
  intros Hs. unfold sliceTo.
  destruct (stop <? 0) eqn:E; [lia|].
  apply firstn_all2. lia.
Qed.

Section Pass.

Variable searchShows : string -> option ShowType -> option string -> SearchResult.
Variable cfg : CacheConfig.
Variable ctry : string.
Variable t : option ShowType.

Lemma processPage_extends collected r :
  match processPage collected r with
  | Continue collected' _ | Break collected' => exists more, collected' = collected ++ more
  end.
Proof.
  unfold processPage. destruct r as [|page hasMore next].
  - exists []. now rewrite app_nil_r.
  - destruct (length page =? 0)%nat; [exists []; now rewrite app_nil_r|].
    destruct (negb hasMore || negb (truthyOpt next)); eexists; reflexivity.
Qed.

(** Nothing that was collected is dropped by the rest of the loop. *)
Lemma collectShows_extends remaining : forall collected cursor,
  exists more,
    collectShows searchShows cfg ctry t remaining collected cursor = collected ++ more.
Proof.
  induction remaining as [|n IH]; intros collected cursor; simpl.
  - exists []. now rewrite app_nil_r.
  - destruct (Z.of_nat (length collected) <? poolSize cfg);
      [|exists []; now rewrite app_nil_r].
    pose proof (processPage_extends collected (searchShows ctry t cursor)) as Hp.
    destruct (processPage collected (searchShows ctry t cursor)) as [c' cur'|c'].
    + destruct Hp as [m1 ->]. destruct (IH (collected ++ m1) cur') as [m2 ->].
      exists (m1 ++ m2). now rewrite app_assoc.
    + exact Hp.
Qed.

(** A pass that collects something has a positive pool size. *)
Lemma collectShows_nonempty remaining cursor :
  collectShows searchShows cfg ctry t remaining [] cursor <> [] -> 0 < poolSize cfg.
Proof.
  destruct remaining as [|n]; simpl; intros H; [congruence|].
  change (Z.of_nat 0) with 0 in H.
  destruct (0 <? poolSize cfg) eqn:E; [now apply Z.ltb_lt | congruence].
Qed.

Lemma loopReaches_collect remaining collected cursor :
  loopReaches searchShows cfg ctry t remaining collected cursor ->
  collectShows searchShows cfg ctry t (Z.to_nat maxAttempts) [] None
  = collectShows searchShows cfg ctry t remaining collected cursor.
Proof.
  induction 1 as [|n acc cur acc' cur' _ IH Hguard Hpage]; [reflexivity|].
  rewrite IH. simpl.
  apply Z.ltb_lt in Hguard. now rewrite Hguard, Hpage.
Qed.

(** A failed request ends the loop with what had been collected. *)
Lemma collectShows_failed remaining collected cursor :
  searchShows ctry t cursor = SearchFailed ->
  collectShows searchShows cfg ctry t remaining collected cursor = collected.
Proof.
  intros Hf. destruct remaining as [|n]; simpl; [reflexivity|].
  rewrite Hf. simpl. now destruct (_ <? _).
Qed.

End Pass.

Lemma refreshPool_config up c key ctry t now :
  config (refreshPool up c key ctry t now) = config c.
Proof.
  unfold refreshPool, finishRefresh, updatePool.
  destruct (bool_decide _); [reflexivity|]. cbv zeta.
  now destruct (0 <? length _)%nat.
Qed.

Lemma refreshPool_isRefreshing up c key ctry t now :
  key ∉ isRefreshing c ->
  isRefreshing (refreshPool up c key ctry t now) = isRefreshing c.
Proof.
  intros Hk. unfold refreshPool.
  rewrite bool_decide_eq_false_2 by exact Hk. cbv zeta.
  unfold finishRefresh, updatePool.
  assert (Hset : ({[key]} ∪ isRefreshing c) ∖ {[key]} = isRefreshing c).
  { apply set_eq. intros x.
    rewrite elem_of_difference, elem_of_union, !elem_of_singleton.
    split; [intros [[-> | Hx] Hn]; [congruence | exact Hx]|].
    intros Hx. split; [now right | intros ->; contradiction]. }
  destruct (0 <? length _)%nat; exact Hset.
Qed.

Lemma refreshPool_skip up c key ctry t now :
  key ∈ isRefreshing c -> refreshPool up c key ctry t now = c.
Proof. intros Hk. unfold refreshPool. now rewrite bool_decide_eq_true_2. Qed.

Lemma refreshPool_pools up c key ctry t now :
  key ∉ isRefreshing c ->
  pools (refreshPool up c key ctry t now) =
  match collectShows up (config c) ctry t (Z.to_nat maxAttempts) [] None with
  | [] => pools c
  | s :: l =>
      <[key := {| shows := sliceTo (s :: l) (poolSize (config c)); lastUpdate := now;
                  country := ctry;
                  pool_showType := match t with Some t => showTypeName t | None => "any" end |}]>
        (pools c)
  end.
Proof.
  intros Hk. unfold refreshPool.
  rewrite bool_decide_eq_false_2 by exact Hk. cbv zeta.
  change (config (markRefreshing c key)) with (config c).
  destruct (collectShows up (config c) ctry t (Z.to_nat maxAttempts) [] None);
    reflexivity.
Qed.

Lemma refreshPool_metadata_idle up c key ctry t now :
  collectShows up (config c) ctry t (Z.to_nat maxAttempts) [] None = [] ->
  metadata (refreshPool up c key ctry t now) = metadata c.
Proof.
  intros Hc. unfold refreshPool.
  destruct (bool_decide _); [reflexivity|]. cbv zeta.
  change (config (markRefreshing c key)) with (config c). now rewrite Hc.
Qed.

(** C5: a refreshPool call that is not skipped installs the collected
    titles (cut to the pool size) with the timestamp of the moment at the
    key when at least one valid title was collected, and leaves the pools and
    the metadata as they were when none was; when the request for a page
    fails in the middle of the pass, the titles collected from the earlier
    pages are what the pass ends with, and they are installed in full; the
    in-flight marker is gone afterwards. *)
Theorem refreshPool_updates_iff_collected up c key ctry t now :
  key ∉ isRefreshing c ->
  (collectShows up (config c) ctry t (Z.to_nat maxAttempts) [] None <> [] ->
   pools (refreshPool up c key ctry t now) =
   <[key := {| shows := sliceTo (collectShows up (config c) ctry t (Z.to_nat maxAttempts) [] None)
                                (poolSize (config c));
               lastUpdate := now; country := ctry;
               pool_showType := match t with Some t => showTypeName t | None => "any" end |}]>
     (pools c)) /\
  (collectShows up (config c) ctry t (Z.to_nat maxAttempts) [] None = [] ->
   pools (refreshPool up c key ctry t now) = pools c /\
   metadata (refreshPool up c key ctry t now) = metadata c) /\
  (forall remaining collected cursor,
     loopReaches up (config c) ctry t (S remaining) collected cursor ->
     Z.of_nat (length collected) < poolSize (config c) ->
     up ctry t cursor = SearchFailed ->
     collectShows up (config c) ctry t (Z.to_nat maxAttempts) [] None = collected /\
     sliceTo collected (poolSize (config c)) = collected) /\
  isRefreshing (refreshPool up c key ctry t now) = isRefreshing c.
Proof.
  intros Hk. rewrite (refreshPool_pools up c key ctry t now Hk).
  split; [|split; [|split]].
  - destruct (collectShows _ _ _ _ _ _ _); [congruence | reflexivity].
  - intros Hnil. split; [now rewrite Hnil|]. now apply refreshPool_metadata_idle.
  - intros n acc cur Hreach Hguard Hfail. split.
    + rewrite (loopReaches_collect _ _ _ _ _ _ _ Hreach). now apply collectShows_failed.
    + apply sliceTo_all. lia.
  - now apply refreshPool_isRefreshing.
Qed.

Lemma initial_poolsBounded cfg now :
  0 <= poolSize cfg -> poolsBounded (newCache cfg now).
Proof.
  intros Hpos k p. unfold newCache, initializePools, supportedCountries. cbn.
  intros H.
  repeat (rewrite lookup_insert in H;
          destruct (decide _); [injection H as <-; cbn; lia|]).
  now rewrite lookup_empty in H.
Qed.

(** C4: when every pool holds at most [poolSize] titles before a
    refreshPool call, every pool does after it; the pool at the key is
    either left as it was or holds exactly the titles collected by this
    pass, cut to [poolSize]; and the installed pool does not depend on what
    the pools held before. *)
Theorem refreshPool_keeps_pools_bounded up c key ctry t now :
  poolsBounded c ->
  poolsBounded (refreshPool up c key ctry t now) /\
  (pools (refreshPool up c key ctry t now) !! key = pools c !! key \/
   exists p, pools (refreshPool up c key ctry t now) !! key = Some p /\
     shows p = sliceTo (collectShows up (config c) ctry t (Z.to_nat maxAttempts) [] None)
                       (poolSize (config c))) /\
  (forall c2, config c2 = config c ->
     key ∉ isRefreshing c -> key ∉ isRefreshing c2 ->
     collectShows up (config c) ctry t (Z.to_nat maxAttempts) [] None <> [] ->
     pools (refreshPool up c2 key ctry t now) !! key
     = pools (refreshPool up c key ctry t now) !! key).
Proof.
  intros Hb.
  destruct (decide (key ∈ isRefreshing c)) as [Hin | Hout].
  { rewrite (refreshPool_skip up c key ctry t now Hin).
    split; [exact Hb|]. split; [now left | intros; contradiction]. }
  pose proof (refreshPool_pools up c key ctry t now Hout) as Hp.
  pose proof (collectShows_nonempty up (config c) ctry t (Z.to_nat maxAttempts) None) as Hpos.
  split; [|split].
  - intros k p. rewrite refreshPool_config, Hp.
    destruct (collectShows _ _ _ _ _ _ _) as [|s l]; [apply Hb|].
    destruct (decide (key = k)) as [<- | Hne].
    + rewrite lookup_insert_eq. intros [= <-]. simpl.
      apply sliceTo_length_le. specialize (Hpos ltac:(discriminate)). lia.
    + rewrite lookup_insert_ne by exact Hne. apply Hb.
  - rewrite Hp. destruct (collectShows _ _ _ _ _ _ _) as [|s l]; [now left|].
    right. eexists. rewrite lookup_insert_eq. split; reflexivity.
  - intros c2 Hcfg _ Hout2 Hne.
    rewrite (refreshPool_pools up c2 key ctry t now Hout2), Hp, Hcfg.
    destruct (collectShows _ _ _ _ _ _ _) as [|s l]; [congruence|].
    now rewrite !lookup_insert_eq.
Qed.


Lemma refreshPool_updates_iff_collected_witness :
  pools (refreshPool (Samples.failsOnSecond [Samples.showA; Samples.showB])
           (newCache defaultConfig 0) "us-movie" "us" (Some movie) 1000) !! "us-movie"
  = Some {| shows := [Samples.showA; Samples.showB]; lastUpdate := 1000;
            country := "us"; pool_showType := "movie" |} /\
  collectShows (Samples.failsOnSecond [Samples.showA; Samples.showB])
    defaultConfig "us" (Some movie) (Z.to_nat maxAttempts) [] None
  = [Samples.showA; Samples.showB].
Proof.
  destruct (refreshPool_updates_iff_collected
              (Samples.failsOnSecond [Samples.showA; Samples.showB])
              (newCache defaultConfig 0) "us-movie" "us" (Some movie) 1000)
    as (Hinstall & _ & Hfail & _).
  - apply not_elem_of_empty.
  - split.
    + rewrite Hinstall by (vm_compute; discriminate).
      rewrite lookup_insert_eq. vm_compute. reflexivity.
    + apply (Hfail 8%nat [Samples.showA; Samples.showB] (Some "page-2")).
      * eapply reaches_next; [apply reaches_start | reflexivity | reflexivity].
      * reflexivity.
      * reflexivity.
Defined.

Lemma refreshPool_keeps_pools_bounded_witness :
  poolsBounded (refreshPool (Samples.onePage Samples.twentyOne)
                  (newCache defaultConfig 0) "us-movie" "us" (Some movie) 1000).
Proof.
  apply (refreshPool_keeps_pools_bounded (Samples.onePage Samples.twentyOne)
           (newCache defaultConfig 0) "us-movie" "us" (Some movie) 1000).
  apply initial_poolsBounded. vm_compute. discriminate.
Defined.

Lemma finishRefresh_isRefreshing c key ctry t collected now :
  isRefreshing (finishRefresh c key ctry t collected now) = isRefreshing c ∖ {[key]}.
Proof.
  unfold finishRefresh, updatePool. now destruct (0 <? length collected)%nat.
Qed.

Lemma markersExact_ext sys sys' :
  isRefreshing (cache sys') = isRefreshing (cache sys) ->
  tasks sys' = tasks sys ->
  markersExact sys -> markersExact sys'.
Proof.
  unfold markersExact, inFlight. intros -> ->. tauto.
Qed.

(** Removing the element at a position of a duplicate-free list. *)
Lemma delete_NoDup (l : list string) i x :
  NoDup l -> l !! i = Some x ->
  NoDup (delete i l) /\ (x ∉ delete i l) /\
  forall y, y ∈ l <-> y = x \/ y ∈ delete i l.
Proof.
  intros Hnd Hi.
  rewrite <- (take_drop_middle l i x Hi) in Hnd.
  rewrite delete_take_drop.
  apply NoDup_app in Hnd as (H1 & H2 & H3).
  apply NoDup_cons in H3 as [H3 H4].
  split; [|split].
  - apply NoDup_app. repeat split; auto.
    intros y Hy Hy'. apply (H2 y Hy). now right.
  - rewrite elem_of_app. intros [Hx | Hx]; [|contradiction].
    apply (H2 x Hx). now left.
  - intros y. rewrite <- (take_drop_middle l i x Hi) at 1.
    rewrite !elem_of_app, elem_of_cons. tauto.
Qed.

Lemma finish_exact sys key ctry t collected now :
  NoDup (inFlight sys) -> key ∉ inFlight sys ->
  (forall k, k ∈ isRefreshing (cache sys) <-> k = key \/ k ∈ inFlight sys) ->
  markersExact (withCache sys (finishRefresh (cache sys) key ctry t collected now)).
Proof.
  intros Hnd Hk Hm. split; [exact Hnd|]. intros k.
  unfold withCache at 1. cbn [cache].
  rewrite finishRefresh_isRefreshing, elem_of_difference, elem_of_singleton, Hm.
  change (inFlight (withCache sys _)) with (inFlight sys).
  split; [intros [[-> | H] Hn]; [congruence | exact H]|].
  intros H. split; [now right | intros ->; contradiction].
Qed.

Lemma loopHead_exact sys t now :
  NoDup (inFlight sys) -> task_poolKey t ∉ inFlight sys ->
  (forall k, k ∈ isRefreshing (cache sys) <-> k = task_poolKey t \/ k ∈ inFlight sys) ->
  markersExact (loopHead sys t now).
Proof.
  intros Hnd Hk Hm. unfold loopHead.
  destruct (loopGuard _ _ _); [|now apply finish_exact].
  unfold markersExact, inFlight. simpl. rewrite map_app. simpl. split.
  - apply NoDup_app. repeat split; [exact Hnd | | apply NoDup_singleton].
    intros y Hy Hy'. apply list_elem_of_singleton in Hy'. subst. contradiction.
  - intros k. rewrite elem_of_app, list_elem_of_singleton, Hm. unfold inFlight. tauto.
Qed.

Lemma callRefreshPool_exact sys key ctry t now :
  markersExact sys -> markersExact (callRefreshPool sys key ctry t now).
Proof.
  intros [Hnd Hm]. unfold callRefreshPool.
  destruct (decide (key ∈ isRefreshing (cache sys))) as [Hin | Hout].
  - rewrite bool_decide_eq_true_2 by exact Hin. now split.
  - rewrite bool_decide_eq_false_2 by exact Hout.
    apply loopHead_exact; simpl.
    + exact Hnd.
    + change (inFlight (withCache sys _)) with (inFlight sys). now rewrite <- Hm.
    + intros k. change (inFlight (withCache sys _)) with (inFlight sys).
      rewrite elem_of_union, elem_of_singleton, Hm. tauto.
Qed.

Lemma resumeTask_exact sys i r now :
  markersExact sys -> markersExact (resumeTask sys i r now).
Proof.
  intros [Hnd Hm]. unfold resumeTask.
  destruct (tasks sys !! i) as [t|] eqn:Hi; [|now split].
  assert (Hk : inFlight sys !! i = Some (task_poolKey t)).
  { unfold inFlight. now rewrite list_lookup_fmap, Hi. }
  destruct (delete_NoDup _ _ _ Hnd Hk) as (Hnd' & Hout & Hsplit).
  set (sys' := {| cache := cache sys; tasks := delete i (tasks sys);
                  fetches := fetches sys |}).
  assert (Hfl : inFlight sys' = delete i (inFlight sys)).
  { unfold inFlight, sys'. simpl. unfold inFlight. 
    rewrite !delete_take_drop, map_app. 
    now rewrite <- fmap_take, <- fmap_drop. }
  assert (Hm' : forall k, k ∈ isRefreshing (cache sys') <->
                          k = task_poolKey t \/ k ∈ inFlight sys').
  { intros k. rewrite Hfl. simpl. rewrite Hm. apply Hsplit. }
  destruct (processPage (task_shows t) r) as [collected cursor | collected].
  - apply loopHead_exact; simpl; rewrite ?Hfl; auto. now rewrite <- Hfl.
  - apply finish_exact; rewrite ?Hfl; auto. now rewrite <- Hfl.
Qed.

Lemma step_exact sys sys' : step sys sys' -> markersExact sys -> markersExact sys'.
Proof.
  intros Hstep Hm. destruct Hstep as [sys key ctry t now | sys i r now _
                                     | sys ctry t now u | sys ctry count t now sh
                                     | sys].
  - now apply callRefreshPool_exact.
  - now apply resumeTask_exact.
  - unfold getRandomShow.
    destruct (unusable _ _ _).
    + simpl. destruct (negb _).
      * apply callRefreshPool_exact. eapply markersExact_ext; [| |exact Hm]; reflexivity.
      * eapply markersExact_ext; [| |exact Hm]; reflexivity.
    + destruct (pools (cache sys) !! getPoolKey ctry t) as [p|]; [|exact Hm]. simpl.
      assert (Hinner : markersExact
        (if Z.of_nat (length (shows p)) <? minPoolSize (config (cache sys))
         then if negb (bool_decide (getPoolKey ctry t ∈ isRefreshing (cache sys)))
              then callRefreshPool sys (getPoolKey ctry t) ctry t now else sys
         else sys)).
      { destruct (_ <? _); [|exact Hm]. destruct (negb _); [|exact Hm].
        now apply callRefreshPool_exact. }
      eapply markersExact_ext; [| |exact Hinner]; reflexivity.
  - unfold getRandomShows. destruct (unusable _ _ _); [exact Hm|].
    destruct (pools _ !! _); exact Hm.
  - eapply markersExact_ext; [| |exact Hm]; reflexivity.
Qed.

Lemma initial_exact cfg now : markersExact (initialSystem cfg now).
Proof.
  split; [constructor|]. intros k. simpl. split; intros H.
  - now apply not_elem_of_empty in H.
  - now apply not_elem_of_nil in H.
Qed.

Lemma reachable_exact cfg now0 sys :
  rtc step (initialSystem cfg now0) sys -> markersExact sys.
Proof.
  intros Hr. apply rtc_ind_r with (x := initialSystem cfg now0) (P := markersExact) in Hr; auto.
  - apply initial_exact.
  - intros y z _ Hstep Hy. eapply step_exact; eassumption.
Qed.

Lemma loopHead_config sys t now : config (cache (loopHead sys t now)) = config (cache sys).
Proof.
  unfold loopHead. destruct (loopGuard _ _ _); [reflexivity|].
  unfold withCache, finishRefresh, updatePool. cbn [cache].
  now destruct (0 <? length _)%nat.
Qed.

Lemma loopHead_fetches_idle sys t now :
  loopGuard (config (cache sys)) (task_shows t) (task_attempts t) = false ->
  fetches (loopHead sys t now) = fetches sys.
Proof. intros Hg. unfold loopHead. now rewrite Hg. Qed.

Lemma loopHead_marked sys t now :
  loopGuard (config (cache sys)) (task_shows t) (task_attempts t) = true ->
  isRefreshing (cache (loopHead sys t now)) = isRefreshing (cache sys).
Proof. intros Hg. unfold loopHead. now rewrite Hg. Qed.

(** A second call for the same key right after a first one sends no
    request upstream. *)
Lemma second_call_fetches_nothing sys key ctry t now ctry' t' now' :
  fetches (callRefreshPool (callRefreshPool sys key ctry t now) key ctry' t' now')
  = fetches (callRefreshPool sys key ctry t now).
Proof.
  set (sys1 := callRefreshPool sys key ctry t now).
  destruct (decide (key ∈ isRefreshing (cache sys1))) as [Hin | Hout].
  { unfold callRefreshPool at 1. now rewrite bool_decide_eq_true_2. }
  assert (Hfirst : key ∉ isRefreshing (cache sys)).
  { intros Hin. apply Hout. unfold sys1, callRefreshPool.
    now rewrite bool_decide_eq_true_2. }
  assert (Hguard : loopGuard (config (cache sys)) [] 0 = false).
  { destruct (loopGuard (config (cache sys)) [] 0) eqn:Hg; [exfalso | reflexivity].
    apply Hout. unfold sys1, callRefreshPool.
    rewrite bool_decide_eq_false_2 by exact Hfirst.
    rewrite loopHead_marked by exact Hg.
    unfold withCache, markRefreshing. cbn [cache isRefreshing].
    apply elem_of_union_l. now apply elem_of_singleton. }
  assert (Hcfg : config (cache sys1) = config (cache sys)).
  { unfold sys1, callRefreshPool. rewrite bool_decide_eq_false_2 by exact Hfirst.
    now rewrite loopHead_config. }
  unfold callRefreshPool at 1. rewrite bool_decide_eq_false_2 by exact Hout.
  rewrite loopHead_fetches_idle; [reflexivity|].
  unfold withCache, markRefreshing. cbn [cache config task_shows task_attempts].
  now rewrite Hcfg.
Qed.

(** C6: in every state the process can reach, no key has two suspended
    refreshes and the in-flight set holds exactly the keys of the suspended
    refreshes; a refreshPool call for a key in the set changes nothing and
    sends nothing upstream; when a pass ends, with a page or with a failed
    request, its key leaves the set; and a second call for a key right after
    a first one adds no upstream request. *)
Theorem single_refresh_in_flight cfg now0 sys :
  rtc step (initialSystem cfg now0) sys ->
  NoDup (inFlight sys) /\
  (forall k, k ∈ isRefreshing (cache sys) <-> k ∈ inFlight sys) /\
  (forall key ctry t now, key ∈ isRefreshing (cache sys) ->
     callRefreshPool sys key ctry t now = sys) /\
  (forall i tk r now collected,
     tasks sys !! i = Some tk ->
     processPage (task_shows tk) r = Break collected ->
     (task_poolKey tk ∉ isRefreshing (cache (resumeTask sys i r now))) /\
     (task_poolKey tk ∉ inFlight (resumeTask sys i r now))) /\
  (forall i tk now,
     tasks sys !! i = Some tk ->
     task_poolKey tk ∉ isRefreshing (cache (resumeTask sys i SearchFailed now))) /\
  (forall key ctry t now ctry' t' now',
     fetches (callRefreshPool (callRefreshPool sys key ctry t now) key ctry' t' now')
     = fetches (callRefreshPool sys key ctry t now)).
Proof.
  intros Hr. pose proof (reachable_exact cfg now0 sys Hr) as [Hnd Hm].
  split; [exact Hnd|]. split; [exact Hm|].
  assert (Hexit : forall i tk r now collected,
     tasks sys !! i = Some tk ->
     processPage (task_shows tk) r = Break collected ->
     (task_poolKey tk ∉ isRefreshing (cache (resumeTask sys i r now))) /\
     (task_poolKey tk ∉ inFlight (resumeTask sys i r now))).
  { intros i tk r now collected Hi Hp.
    pose proof (resumeTask_exact sys i r now (conj Hnd Hm)) as [_ Hm'].
    assert (Hgone : task_poolKey tk ∉ isRefreshing (cache (resumeTask sys i r now))).
    { unfold resumeTask. rewrite Hi, Hp. unfold withCache. cbn [cache].
      rewrite finishRefresh_isRefreshing, elem_of_difference, elem_of_singleton. tauto. }
    split; [exact Hgone | now rewrite <- Hm']. }
  split; [|split; [|split]].
  - intros key ctry t now Hin. unfold callRefreshPool.
    now rewrite bool_decide_eq_true_2.
  - exact Hexit.
  - intros i tk now Hi. now apply (Hexit i tk SearchFailed now (task_shows tk) Hi).
  - intros. apply second_call_fetches_nothing.
Qed.

Lemma single_refresh_in_flight_witness :
  callRefreshPool Samples.refreshing "us-movie" "us" (Some movie) 20 = Samples.refreshing.
Proof.
  destruct (single_refresh_in_flight defaultConfig 0 Samples.refreshing)
    as (_ & _ & Hnoop & _).
  - apply rtc_once. apply step_call.
  - apply Hnoop. apply (bool_decide_unpack _). vm_compute. exact I.
Defined.

Lemma getRandomShows_pure sys ctry count t now shuffle :
  snd (getRandomShows sys ctry count t now shuffle) = sys.
Proof.
  unfold getRandomShows. destruct (unusable _ _ _); [reflexivity|].
  now destruct (pools _ !! _).
Qed.

(** X1.  A read with getRandomShow of a pool that is missing, expired or empty
    returns null and, with a positive pool size, leaves the key of the pool
    marked as refreshing: the refresh was started, or one was in flight. *)
Lemma getRandomShow_triggers sys ctry t now u :
  unusable (config (cache sys)) now (pools (cache sys) !! getPoolKey ctry t) = true ->
  fst (getRandomShow sys ctry t now u) = None /\
  (0 < poolSize (config (cache sys)) ->
   getPoolKey ctry t ∈ isRefreshing (cache (snd (getRandomShow sys ctry t now u)))).
Proof.
  intros Hun. unfold getRandomShow. rewrite Hun. split; [reflexivity|]. intros Hpos.
  cbn [snd]. unfold withCache at 1 2. cbn [cache]. 
  change (isRefreshing (recordCacheMiss (cache sys))) with (isRefreshing (cache sys)).
  destruct (decide (getPoolKey ctry t ∈ isRefreshing (cache sys))) as [Hin | Hout].
  - rewrite bool_decide_eq_true_2 by exact Hin. exact Hin.
  - rewrite bool_decide_eq_false_2 by exact Hout. cbn [negb].
    unfold callRefreshPool. cbn [cache].
    change (isRefreshing (recordCacheMiss (cache sys))) with (isRefreshing (cache sys)).
    rewrite bool_decide_eq_false_2 by exact Hout.
    rewrite loopHead_marked.
    + unfold withCache, markRefreshing. cbn [cache isRefreshing].
      apply elem_of_union_l. now apply elem_of_singleton.
    + unfold loopGuard. cbn. apply andb_true_intro. split; [now apply Z.ltb_lt | reflexivity].
Qed.

(** C7 (the code at the failing input): in a process that has just been
    started the "us-movie" pool is empty.  getRandomShows returns the empty
    list and leaves the process as it was: no key is marked in flight and no
    request is sent upstream.  getRandomShow on the same pool returns null
    and does start the refresh. *)
Theorem getRandomShows_starts_no_refresh :
  getRandomShows (initialSystem defaultConfig 0) "us" 20 (Some movie) 10 (fun l => l)
    = ([], initialSystem defaultConfig 0) /\
  isRefreshing (cache (initialSystem defaultConfig 0)) = ∅ /\
  fetches (initialSystem defaultConfig 0) = [] /\
  fst (getRandomShow (initialSystem defaultConfig 0) "us" (Some movie) 10 0) = None /\
  isRefreshing (cache (snd (getRandomShow (initialSystem defaultConfig 0) "us" (Some movie) 10 0)))
    = {["us-movie"]} /\
  fetches (snd (getRandomShow (initialSystem defaultConfig 0) "us" (Some movie) 10 0))
    = [("us-movie", None)].
Proof. repeat split; vm_compute; reflexivity. Qed.


(** * The pool bound while refreshes interleave *)

Lemma finishRefresh_bounded c key ctry t collected now :
  poolsBounded c -> (collected <> [] -> 0 < poolSize (config c)) ->
  poolsBounded (finishRefresh c key ctry t collected now).
Proof.
  intros Hb Hpos k p. unfold finishRefresh, updatePool.
  destruct collected as [|s l]; [apply Hb|]. cbn.
  destruct (decide (key = k)) as [<- | Hne].
  - rewrite lookup_insert_eq. intros [= <-]. cbn [shows].
    apply sliceTo_length_le. specialize (Hpos ltac:(discriminate)). lia.
  - rewrite lookup_insert_ne by exact Hne. apply Hb.
Qed.

Lemma finishRefresh_config c key ctry t collected now :
  config (finishRefresh c key ctry t collected now) = config c.
Proof. unfold finishRefresh, updatePool. now destruct (0 <? length collected)%nat. Qed.

Lemma loopHead_bounded sys t now :
  boundedSystem sys ->
  (task_shows t <> [] -> 0 < poolSize (config (cache sys))) ->
  boundedSystem (loopHead sys t now).
Proof.
  intros [Hb Ht] Hpos. unfold loopHead.
  destruct (loopGuard _ _ _) eqn:Hg.
  - split; [exact Hb|]. intros _. cbn [cache].
    unfold loopGuard in Hg. apply andb_prop in Hg as [Hg _].
    apply Z.ltb_lt in Hg. lia.
  - split.
    + unfold withCache. cbn [cache]. now apply finishRefresh_bounded.
    + unfold withCache. cbn [cache tasks]. now rewrite finishRefresh_config.
Qed.

Lemma step_bounded sys sys' : step sys sys' -> boundedSystem sys -> boundedSystem sys'.
Proof.
  intros Hstep Hb.
  assert (Hcall : forall s key ctry t now,
            boundedSystem s -> boundedSystem (callRefreshPool s key ctry t now)).
  { intros s key ctry t now Hs. unfold callRefreshPool.
    destruct (bool_decide _); [exact Hs|].
    apply loopHead_bounded; [exact Hs | intros H; now contradiction H]. }
  destruct Hstep as [sys key ctry t now | sys i r now Hi
                    | sys ctry t now u | sys ctry count t now sh | sys].
  - now apply Hcall.
  - unfold resumeTask. destruct (tasks sys !! i) as [tk|] eqn:Htk; [|exact Hb].
    destruct Hb as [Hb Ht].
    assert (Hpos : 0 < poolSize (config (cache sys))).
    { apply Ht. intros Hnil. rewrite Hnil in Htk. discriminate. }
    destruct (processPage (task_shows tk) r) as [collected cursor | collected].
    + apply loopHead_bounded; [|intros _; exact Hpos].
      split; [exact Hb | intros _; exact Hpos].
    + split.
      * unfold withCache. cbn [cache]. apply finishRefresh_bounded; auto.
      * intros _. unfold withCache. cbn [cache]. now rewrite finishRefresh_config.
  - unfold getRandomShow. destruct (unusable _ _ _).
    + cbn [snd]. destruct (negb _); [apply Hcall|]; exact Hb.
    + destruct (pools (cache sys) !! getPoolKey ctry t) as [p|]; [|exact Hb]. cbn [snd].
      assert (Hinner : boundedSystem
        (if Z.of_nat (length (shows p)) <? minPoolSize (config (cache sys))
         then if negb (bool_decide (getPoolKey ctry t ∈ isRefreshing (cache sys)))
              then callRefreshPool sys (getPoolKey ctry t) ctry t now else sys
         else sys)).
      { destruct (_ <? _); [|exact Hb]. destruct (negb _); [|exact Hb]. now apply Hcall. }
      exact Hinner.
  - rewrite getRandomShows_pure. exact Hb.
  - destruct Hb as [Hb Ht]. split; [|exact Ht].
    intros k p. cbn. now rewrite lookup_empty.
Qed.

(** X2.  While calls of refreshPool, upstream answers, reads and clearCache
    interleave in any order, no pool ever holds more than [poolSize] titles. *)
Lemma reachable_bounded cfg now0 sys :
  0 <= poolSize cfg ->
  rtc step (initialSystem cfg now0) sys -> poolsBounded (cache sys).
Proof.
  intros Hpos Hr.
  enough (boundedSystem sys) as [H _] by exact H.
  apply rtc_ind_r with (x := initialSystem cfg now0) (P := boundedSystem) in Hr; auto.
  - split; [now apply initial_poolsBounded | intros H; now contradiction H].
  - intros y z _ Hstep Hy. eapply step_bounded; eassumption.
Qed.

(** * The two models of refreshPool agree *)

Section Alone.

Variable up : string -> option ShowType -> option string -> SearchResult.
Variable now : Z.

Lemma runAlone_idle fuel sys : tasks sys = [] -> runAlone up fuel sys now = sys.
Proof. intros H. destruct fuel; simpl; [reflexivity | now rewrite H]. Qed.

Lemma collectShows_guard_false cfg ctry t n collected cursor a :
  a = maxAttempts - Z.of_nat n ->
  loopGuard cfg collected a = false ->
  collectShows up cfg ctry t n collected cursor = collected.
Proof.
  intros Ha Hg. destruct n as [|n]; [reflexivity|]. simpl.
  unfold loopGuard in Hg. apply andb_false_iff in Hg as [Hg | Hg].
  - now rewrite Hg.
  - apply Z.ltb_ge in Hg. unfold maxAttempts in *. lia.
Qed.

Lemma runAlone_single : forall n sys tk,
  tasks sys = [tk] ->
  task_attempts tk = maxAttempts - Z.of_nat n ->
  loopGuard (config (cache sys)) (task_shows tk) (task_attempts tk) = true ->
  tasks (runAlone up n sys now) = [] /\
  cache (runAlone up n sys now)
  = finishRefresh (cache sys) (task_poolKey tk) (task_country tk) (task_showType tk)
      (collectShows up (config (cache sys)) (task_country tk) (task_showType tk) n
         (task_shows tk) (task_cursor tk))
      now.
Proof.
  induction n as [|n IH]; intros sys tk Htk Ha Hg.
  - exfalso. unfold loopGuard in Hg. apply andb_prop in Hg as [_ Hg].
    apply Z.ltb_lt in Hg. simpl in Ha. lia.
  - simpl. rewrite Htk. unfold resumeTask. rewrite Htk. cbn [lookup list_lookup].
    assert (Hlen : (Z.of_nat (length (task_shows tk)) <? poolSize (config (cache sys))) = true).
    { unfold loopGuard in Hg. now apply andb_prop in Hg as [Hg _]. }
    rewrite Hlen.
    destruct (processPage (task_shows tk)
                (up (task_country tk) (task_showType tk) (task_cursor tk)))
      as [collected cursor | collected].
    + cbn [delete list_delete cache].
      unfold loopHead. cbn [cache task_shows task_attempts tasks fetches task_poolKey
                            task_country task_showType task_cursor].
      destruct (loopGuard (config (cache sys)) collected (task_attempts tk + 1)) eqn:Hg'.
      * match goal with |- context [runAlone up n ?s now] => 
          destruct (IH s {| task_poolKey := task_poolKey tk; task_country := task_country tk;
                            task_showType := task_showType tk; task_shows := collected;
                            task_cursor := cursor; task_attempts := task_attempts tk + 1 |})
            as [H1 H2] end; cbn; try reflexivity; try assumption; [lia|].
        split; [exact H1 | exact H2].
      * rewrite runAlone_idle by reflexivity. split; [reflexivity|].
        unfold withCache. cbn [cache].
        rewrite (collectShows_guard_false _ _ _ n collected cursor (task_attempts tk + 1));
          [reflexivity | lia | exact Hg'].
    + cbn [delete list_delete cache]. rewrite runAlone_idle by reflexivity.
      split; reflexivity.
Qed.

(** Run alone, a call of refreshPool ends in the cache that [refreshPool]
    computes. *)
Lemma runAlone_refreshPool sys key ctry t :
  tasks sys = [] ->
  tasks (runAlone up (Z.to_nat maxAttempts) (callRefreshPool sys key ctry t now) now) = [] /\
  cache (runAlone up (Z.to_nat maxAttempts) (callRefreshPool sys key ctry t now) now)
  = refreshPool up (cache sys) key ctry t now.
Proof.
  intros Hidle. unfold callRefreshPool, refreshPool.
  destruct (bool_decide (key ∈ isRefreshing (cache sys))).
  - rewrite runAlone_idle by exact Hidle. now split.
  - cbv zeta. unfold loopHead.
    cbn [cache task_shows task_attempts tasks fetches task_poolKey task_country
         task_showType task_cursor withCache].
    destruct (loopGuard (config (markRefreshing (cache sys) key)) [] 0) eqn:Hg.
    + match goal with |- context [runAlone up _ ?s now] =>
        destruct (runAlone_single (Z.to_nat maxAttempts) s
                    {| task_poolKey := key; task_country := ctry; task_showType := t;
                       task_shows := []; task_cursor := None; task_attempts := 0 |})
          as [H1 H2] end; cbn; try reflexivity; try assumption.
      * now rewrite Hidle.
      * split; [exact H1 | exact H2].
    + rewrite runAlone_idle by exact Hidle. split; [exact Hidle|]. cbn [cache].
      rewrite (collectShows_guard_false _ _ _ (Z.to_nat maxAttempts) [] None 0);
        [reflexivity | reflexivity | exact Hg].
Qed.

End Alone.

End CacheFacts.

(** * Further properties of the pickers *)

Module PickerExtras.

Import Picker Notions MoreNotions PickerFacts.

(** A selected title passed the quality filter. *)
Lemma selectAmong_quality cfg userId m candidates u s :
  selectAmong cfg userId m candidates u = Some s -> qualityFilter s = true.
Proof.
  intros Hsel. apply selectAmong_Some in Hsel as [_ Hin].
  apply In_strictFilter in Hin as (_ & He & _).
  unfold eligible in He. now apply andb_prop in He as [_ Hq].
Qed.

(** X3.  What selectRandomShow returns is one of the candidates it read, passes
    the quality filter, has at least the requested rating when a non-zero
    minRating is given, and is not in the history of the user when recent
    picks are excluded. *)
Theorem selectAmong_sound cfg userId m candidates u s :
  selectAmong cfg userId m candidates u = Some s ->
  In s candidates /\
  qualityFilter s = true /\
  (forall r, minRating cfg = Some r -> r <> 0 -> r <= rating s) /\
  (forall uid, userId = Some uid -> truthyString uid = true ->
     excludeRecentOf cfg = true ->
     ~ In (show_id s) (map show_id (getUserRecentPicks uid m))).
Proof.
  intros Hsel. apply selectAmong_Some in Hsel as [_ Hin].
  apply In_strictFilter in Hin as (Hc & He & Hrec).
  unfold eligible in He. apply andb_prop in He as [Hr Hq].
  repeat split; auto.
  - intros r Hm Hr0. rewrite Hm in Hr. unfold truthyNumber in Hr.
    destruct (r =? 0) eqn:E; [apply Z.eqb_eq in E; contradiction|].
    simpl in Hr. now apply Z.leb_le.
  - intros uid -> Hu Hex. apply Hrec. now rewrite Hex, Hu.
Qed.

Lemma selectAmong_sound_witness :
  In Samples.showB [Samples.showA; Samples.showB] /\
  qualityFilter Samples.showB = true.
Proof.
  destruct (selectAmong_sound (Samples.movieRequest (Some 50)) (Some "u1")
              [("u1", [Samples.showA])] [Samples.showA; Samples.showB] 0 Samples.showB)
    as (Hin & Hq & _).
  - vm_compute. reflexivity.
  - split; assumption.
Defined.

(** A successful call returns a title that passed the quality filter and
    counts one more pick. *)
Lemma discover_found P cfg userId strict relaxed st r st' :
  discover P cfg userId strict relaxed st = (Found r, st') ->
  qualityFilter (resp_show r) = true /\ totalPicks st' = totalPicks st + 1.
Proof.
  unfold discover, selectRandomShow.
  destruct (selectAmong cfg userId (recentPicks st) (gatherCandidates cfg strict)
              (draw strict)) as [s|] eqn:E1.
  - unfold buildResponse. cbv beta iota zeta. intros [= <- <-].
    cbn [resp_show totalPicks]. split; [exact (selectAmong_quality _ _ _ _ _ _ E1)|].
    destruct userId as [uid|]; simpl; [destruct (truthyString uid)|]; reflexivity.
  - destruct (selectAmong (relaxedConfig cfg) userId (recentPicks st)
                (gatherCandidates (relaxedConfig cfg) relaxed) (draw relaxed))
      as [s|] eqn:E2; [|discriminate].
    unfold buildResponse. cbv beta iota zeta. intros [= <- <-].
    cbn [resp_show totalPicks]. split; [exact (selectAmong_quality _ _ _ _ _ _ E2) | reflexivity].
Qed.

(** X4.  A successful discover of the cache-backed service returns a title that
    passes the quality filter, for the requested country, and counts one
    more pick; fromCache tells the two paths apart: true for a survivor of
    the strict filters, false for a title of the relaxed retry after an
    empty strict pass, in which case the histories are left as they were. *)
Theorem discover_sound P cfg userId strict relaxed st r st' :
  discover P cfg userId strict relaxed st = (Found r, st') ->
  qualityFilter (resp_show r) = true /\
  resp_country r = country cfg /\
  totalPicks st' = totalPicks st + 1 /\
  (fromCache r = true ->
     In (resp_show r) (strictFilter cfg userId (recentPicks st) (gatherCandidates cfg strict))) /\
  (fromCache r = false ->
     strictFilter cfg userId (recentPicks st) (gatherCandidates cfg strict) = [] /\
     In (resp_show r) (gatherCandidates cfg relaxed) /\
     recentPicks st' = recentPicks st).
Proof.
  unfold discover, selectRandomShow.
  destruct (selectAmong cfg userId (recentPicks st) (gatherCandidates cfg strict)
              (draw strict)) as [s|] eqn:E1.
  - unfold buildResponse. cbv beta iota zeta. intros [= <- <-].
    cbn [resp_show resp_country fromCache totalPicks].
    pose proof (selectAmong_Some _ _ _ _ _ _ E1) as [_ Hin].
    pose proof (selectAmong_quality _ _ _ _ _ _ E1) as Hq.
    split; [exact Hq|]. split; [reflexivity|]. split; [|split].
    + destruct userId as [uid|]; simpl; [destruct (truthyString uid)|]; reflexivity.
    + intros _. exact Hin.
    + discriminate.
  - destruct (selectAmong (relaxedConfig cfg) userId (recentPicks st)
                (gatherCandidates (relaxedConfig cfg) relaxed) (draw relaxed))
      as [s|] eqn:E2; [|discriminate].
    unfold buildResponse. cbv beta iota zeta. intros [= <- <-].
    cbn [resp_show resp_country fromCache totalPicks recentPicks].
    pose proof (selectAmong_quality _ _ _ _ _ _ E2) as Hq.
    pose proof (selectAmong_Some _ _ _ _ _ _ E2) as [_ Hin].
    apply In_strictFilter in Hin as (Hin & _ & _).
    apply selectAmong_None in E1.
    split; [exact Hq|]. split; [reflexivity|]. split; [reflexivity|]. split.
    + discriminate.
    + intros _. now rewrite gatherCandidates_relaxed in Hin.
Qed.

Lemma discover_sound_witness :
  qualityFilter Samples.showA = true /\
  In Samples.showA
     (gatherCandidates (Samples.movieRequest (Some 95))
        (Samples.passOver (Samples.systemWith [Samples.showA]) 0)).
Proof.
  destruct (discover_sound cachedPicker (Samples.movieRequest (Some 95)) (Some "u1")
              (Samples.passOver (Samples.systemWith [Samples.showA]) 0)
              (Samples.passOver (Samples.systemWith [Samples.showA]) 0) initialState
              {| resp_show := Samples.showA; resp_country := "us"; fromCache := false |}
              {| recentPicks := []; totalPicks := 1 |})
    as (Hq & _ & _ & _ & Hrelaxed).
  - vm_compute. reflexivity.
  - split; [exact Hq|]. now destruct (Hrelaxed eq_refl) as (_ & Hin & _).
Defined.

Lemma trackUserPick_wellFormed P uid s m :
  (keepUsers P <= maxUsers P)%nat ->
  wellFormed P m -> wellFormed P (trackUserPick P uid s m).
Proof.
  intros Hk [Hnd Hlen]. rewrite trackUserPick_unfold.
  set (m1 := mapSet uid _ m).
  assert (Hnd1 : NoDup (map fst m1)) by now apply mapSet_NoDup.
  destruct (decide (maxUsers P < length m1)%nat) as [Hbig | Hsmall].
  - rewrite (cleanupOldPicks_keeps_first P m1 Hnd1 Hbig). split.
    + rewrite <- firstn_map. rewrite <- (take_drop (keepUsers P) (map fst m1)) in Hnd1.
      now apply NoDup_app in Hnd1 as [H _].
    + rewrite length_take. lia.
  - rewrite cleanupOldPicks_idle by lia. split; [exact Hnd1 | lia].
Qed.

Lemma direct_discover_history P cfg userId strict relaxed st :
  recentPicks (snd (DirectPicker.discover P cfg userId strict relaxed st)) = recentPicks st \/
  exists uid s,
    userId = Some uid /\ truthyString uid = true /\
    recentPicks (snd (DirectPicker.discover P cfg userId strict relaxed st))
      = trackUserPick P uid s (recentPicks st).
Proof.
  unfold DirectPicker.discover.
  destruct (DirectPicker.selectRandomShow cfg userId (recentPicks st) strict) as [msg|[s|]].
  - now left.
  - destruct userId as [uid|]; simpl; [|now left].
    destruct (truthyString uid) eqn:E; simpl; [|now left].
    right. exists uid, s. repeat split; auto.
  - destruct (DirectPicker.selectRandomShow (relaxedConfig cfg) userId (recentPicks st) relaxed)
      as [msg|[s|]]; simpl; now left.
Qed.

(** X5.  Both versions of discover keep the pick map a map within its bound: no
    user twice and at most [maxUsers] users, provided the cleanup keeps no
    more users than the bound. *)
Theorem discover_keeps_map_wellFormed P cfg userId strict relaxed dstrict drelaxed st :
  (keepUsers P <= maxUsers P)%nat ->
  wellFormed P (recentPicks st) ->
  wellFormed P (recentPicks (snd (discover P cfg userId strict relaxed st))) /\
  wellFormed P
    (recentPicks (snd (DirectPicker.discover P cfg userId dstrict drelaxed st))).
Proof.
  intros Hk Hw. split.
  - destruct (discover_history P cfg userId strict relaxed st)
      as [-> | (uid & s & _ & _ & _ & _ & ->)]; [exact Hw|].
    now apply trackUserPick_wellFormed.
  - destruct (direct_discover_history P cfg userId dstrict drelaxed st)
      as [-> | (uid & s & _ & _ & ->)]; [exact Hw|].
    now apply trackUserPick_wellFormed.
Qed.

Lemma discover_keeps_map_wellFormed_witness :
  wellFormed cachedPicker
    (recentPicks (snd (discover cachedPicker (Samples.movieRequest None) (Some "u1")
       (Samples.passOver (Samples.systemWith [Samples.showA]) 0)
       (Samples.passOver (Samples.systemWith [Samples.showA]) 0) initialState))).
Proof.
  apply (discover_keeps_map_wellFormed cachedPicker (Samples.movieRequest None) (Some "u1")
           (Samples.passOver (Samples.systemWith [Samples.showA]) 0)
           (Samples.passOver (Samples.systemWith [Samples.showA]) 0)
           {| DirectPicker.answer := DirectPicker.ApiShows [Samples.showA];
              DirectPicker.direct_draw := 0 |}
           {| DirectPicker.answer := DirectPicker.ApiShows [Samples.showA];
              DirectPicker.direct_draw := 0 |}
           initialState).
  - simpl. lia.
  - split; [constructor | simpl; lia].
Defined.

Lemma mapGet_mapDelete_ne k k' m : k <> k' -> mapGet k' (mapDelete k m) = mapGet k' m.
Proof.
  intros Hne. induction m as [|[k0 v0] m IH]; simpl; [reflexivity|].
  destruct (String.eqb k k0) eqn:E; simpl.
  - apply String.eqb_eq in E. subst k0.
    assert (String.eqb k' k = false) as -> by (apply String.eqb_neq; congruence).
    reflexivity.
  - now rewrite IH.
Qed.

Lemma mapGet_mapDelete_eq k m : NoDup (map fst m) -> mapGet k (mapDelete k m) = None.
Proof.
  induction m as [|[k0 v0] m IH]; simpl; intros Hnd; [reflexivity|].
  apply NoDup_cons in Hnd as [Hk0 Hnd].
  destruct (String.eqb k k0) eqn:E; simpl.
  - apply String.eqb_eq in E. subst k0. apply mapGet_None_keys.
    intros Hin. apply Hk0. now apply list_elem_of_In.
  - rewrite E. now apply IH.
Qed.

Lemma keys_mapDelete_sublist k m : sublist (map fst (mapDelete k m)) (map fst m).
Proof.
  induction m as [|[k0 v0] m IH]; simpl; [constructor|].
  destruct (String.eqb k k0); simpl.
  - now apply sublist_cons.
  - now apply sublist_skip.
Qed.

(** X6.  clearUserHistory empties the history of the user and of nobody else;
    afterwards the recent-picks filter lets every candidate of that user
    through. *)
Theorem clearUserHistory_forgets P userId st :
  wellFormed P (recentPicks st) ->
  getUserRecentPicks userId (recentPicks (clearUserHistory userId st)) = [] /\
  (forall other, other <> userId ->
     getUserRecentPicks other (recentPicks (clearUserHistory userId st))
     = getUserRecentPicks other (recentPicks st)) /\
  (forall cfg l,
     recentFilter cfg (Some userId) (recentPicks (clearUserHistory userId st)) l = l) /\
  wellFormed P (recentPicks (clearUserHistory userId st)).
Proof.
  intros [Hnd Hlen]. unfold clearUserHistory, getUserRecentPicks. simpl.
  assert (Hgone : mapGet userId (mapDelete userId (recentPicks st)) = None)
    by now apply mapGet_mapDelete_eq.
  split; [now rewrite Hgone|]. split; [|split].
  - intros other Hne. now rewrite mapGet_mapDelete_ne by congruence.
  - intros cfg l. unfold recentFilter, getUserRecentPicks. rewrite Hgone.
    destruct (excludeRecentOf cfg && truthyString userId); [|reflexivity].
    simpl. induction l as [|x l IH]; simpl; [reflexivity|].
    rewrite bool_decide_eq_false_2 by apply not_elem_of_empty. simpl. now f_equal.
  - pose proof (keys_mapDelete_sublist userId (recentPicks st)) as Hsub. split.
    + eapply sublist_NoDup; eassumption.
    + apply sublist_length in Hsub. rewrite !length_map in Hsub. lia.
Qed.

Lemma clearUserHistory_forgets_witness :
  getUserRecentPicks "u1"
    (recentPicks (clearUserHistory "u1"
       {| recentPicks := [("u1", [Samples.showA]); ("u2", [Samples.showB])];
          totalPicks := 2 |})) = [] /\
  getUserRecentPicks "u2"
    (recentPicks (clearUserHistory "u1"
       {| recentPicks := [("u1", [Samples.showA]); ("u2", [Samples.showB])];
          totalPicks := 2 |})) = [Samples.showB].
Proof.
  destruct (clearUserHistory_forgets cachedPicker "u1"
              {| recentPicks := [("u1", [Samples.showA]); ("u2", [Samples.showB])];
                 totalPicks := 2 |}) as (Hgone & Hother & _).
  - split; [|simpl; lia]. simpl. apply NoDup_cons. split.
    + intros H. apply list_elem_of_singleton in H. discriminate.
    + apply NoDup_singleton.
  - split; [exact Hgone|]. rewrite Hother by discriminate. reflexivity.
Defined.

(** X7.  Over any sequence of discover calls, totalPicks grows by exactly the
    number of calls that returned a title; a failed call counts nothing. *)
Theorem totalPicks_counts_successes P (calls : list Call) (st : PickerState) :
  totalPicks (snd (runCalls P calls st))
  = totalPicks st
    + Z.of_nat (length (List.filter
                          (fun r => match r with Found _ => true | Failed _ => false end)
                          (fst (runCalls P calls st)))).
Proof.
  revert st. induction calls as [|c rest IH]; intros st; simpl; [lia|].
  destruct (discover P (call_cfg c) (call_user c) (call_strict c) (call_relaxed c) st)
    as [r st1] eqn:Hd.
  specialize (IH st1). destruct (runCalls P rest st1) as [rs st2]. simpl in *.
  rewrite IH. destruct r as [resp|msg].
  - apply discover_found in Hd as [_ Ht]. simpl. lia.
  - assert (Hsame : totalPicks st1 = totalPicks st).
    { unfold discover in Hd.
      destruct (selectRandomShow _ _ _ (call_strict c)); [discriminate|].
      destruct (selectRandomShow _ _ _ (call_relaxed c)); [discriminate|].
      now injection Hd as _ <-. }
    simpl. lia.
Qed.

(** The loop of getMultipleSuggestions keeps the suggestions free of
    repeated identifiers, made of quality titles and not longer than asked
    for. *)
Lemma suggestLoop_invariant P cfg count userId passes remaining :
  forall i suggestions st,
    NoDup (map (fun r => show_id (resp_show r)) suggestions) ->
    Forall (fun r => qualityFilter (resp_show r) = true) suggestions ->
    Z.of_nat (length suggestions) <= Z.max 0 count ->
    let out := fst (PickerMore.suggestLoop P cfg count userId passes remaining i
                      suggestions st) in
    NoDup (map (fun r => show_id (resp_show r)) out) /\
    Forall (fun r => qualityFilter (resp_show r) = true) out /\
    Z.of_nat (length out) <= Z.max 0 count /\
    (length out <= length suggestions + remaining)%nat.
Proof.
  induction remaining as [|n IH]; intros i suggestions st Hnd Hq Hlen; simpl.
  - repeat split; auto. lia.
  - destruct (Z.of_nat (length suggestions) <? count) eqn:Hlt;
      [|simpl; repeat split; auto; lia].
    apply Z.ltb_lt in Hlt.
    destruct (discover P cfg userId (fst (passes i)) (snd (passes i)) st)
      as [r st1] eqn:Hd.
    destruct r as [resp|msg].
    + destruct (PickerMore.isDuplicate suggestions resp) eqn:Hdup.
      * destruct (IH (S i) suggestions st1 Hnd Hq Hlen) as (H1 & H2 & H3 & H4).
        repeat split; auto. lia.
      * destruct (IH (S i) (suggestions ++ [resp]) st1) as (H1 & H2 & H3 & H4).
        -- rewrite map_app. simpl. apply NoDup_app.
           repeat split; [exact Hnd | | apply NoDup_singleton].
           intros x Hx Hx'. apply list_elem_of_singleton in Hx'. subst x.
           apply list_elem_of_In, in_map_iff in Hx as (r0 & Hid & Hr0).
           unfold PickerMore.isDuplicate in Hdup.
           assert (Hex : existsb
                     (fun s => String.eqb (show_id (resp_show s)) (show_id (resp_show resp)))
                     suggestions = true).
           { apply existsb_exists. exists r0. split; [exact Hr0|].
             now apply String.eqb_eq. }
           congruence.
        -- apply Forall_app. split; [exact Hq|]. constructor; [|constructor].
           now apply discover_found in Hd as [Hq' _].
        -- rewrite length_app. simpl. lia.
        -- repeat split; auto. rewrite length_app in H4. simpl in H4. lia.
    + destruct (IH (S i) suggestions st1 Hnd Hq Hlen) as (H1 & H2 & H3 & H4).
      repeat split; auto. lia.
Qed.

(** X8.  getMultipleSuggestions returns titles with pairwise distinct ids, each
    passing the quality filter, and at most min(count, 20) of them (none for
    a count below 1). *)
Theorem getMultipleSuggestions_distinct P cfg count userId passes st :
  NoDup (map (fun r => show_id (resp_show r))
             (fst (PickerMore.getMultipleSuggestions P cfg count userId passes st))) /\
  Forall (fun r => qualityFilter (resp_show r) = true)
         (fst (PickerMore.getMultipleSuggestions P cfg count userId passes st)) /\
  Z.of_nat (length (fst (PickerMore.getMultipleSuggestions P cfg count userId passes st)))
    <= Z.max 0 (Z.min count 20).
Proof.
  unfold PickerMore.getMultipleSuggestions.
  destruct (suggestLoop_invariant P cfg count userId passes
              (Z.to_nat (Z.min (count * 2) 20)) 0%nat [] st)
    as (H1 & H2 & H3 & H4); [constructor | constructor | simpl; lia |].
  repeat split; auto. simpl in H4. lia.
Qed.

Lemma take_app_take (l l' : list NetflixShow) : forall n k : nat,
  (n <= k)%nat -> firstn n (l ++ firstn k l') = firstn n (l ++ l').
Proof.
  induction l as [|x l IH]; intros n k Hnk; simpl.
  - rewrite take_take. f_equal. lia.
  - destruct n as [|n]; [reflexivity|]. simpl. f_equal. apply IH. lia.
Qed.

(** X9.  The history of a user after a series of recorded picks: the picks,
    newest first, in front of the older history, cut to [maxRecentPicks];
    the histories of the other users are untouched. *)
Theorem history_newest_first P uid (picks : list NetflixShow) (m : PickMap) :
  (length m < maxUsers P)%nat \/ (mapHas uid m = true /\ (length m <= maxUsers P)%nat) ->
  (length (getUserRecentPicks uid m) <= maxRecentPicks P)%nat ->
  getUserRecentPicks uid (foldl (fun acc s => trackUserPick P uid s acc) m picks)
  = firstn (maxRecentPicks P) (rev picks ++ getUserRecentPicks uid m) /\
  forall other, other <> uid ->
    getUserRecentPicks other (foldl (fun acc s => trackUserPick P uid s acc) m picks)
    = getUserRecentPicks other m.
Proof.
  revert m. induction picks as [|s picks IH]; intros m Hsize Hb; simpl.
  - split; [|reflexivity]. symmetry. now apply firstn_all2.
  - assert (Hquiet : trackUserPick P uid s m
             = mapSet uid (firstn (maxRecentPicks P) (s :: getUserRecentPicks uid m)) m).
    { rewrite trackUserPick_unfold. apply cleanupOldPicks_idle.
      rewrite length_mapSet. destruct Hsize as [H | [-> H]]; [|exact H].
      destruct (mapHas uid m); lia. }
    rewrite Hquiet.
    set (m1 := mapSet uid (firstn (maxRecentPicks P) (s :: getUserRecentPicks uid m)) m).
    assert (Hget : getUserRecentPicks uid m1
                   = firstn (maxRecentPicks P) (s :: getUserRecentPicks uid m)).
    { unfold getUserRecentPicks at 1, m1. now rewrite mapGet_mapSet_eq. }
    destruct (IH m1) as [Hmine Hothers].
    + right. split.
      * unfold mapHas, m1. now rewrite mapGet_mapSet_eq.
      * unfold m1. rewrite length_mapSet. destruct Hsize as [H | [-> H]]; [|exact H].
        destruct (mapHas uid m); lia.
    + rewrite Hget, length_take. lia.
    + split.
      * rewrite Hmine, Hget. rewrite <- app_assoc. simpl.
        rewrite take_app_take by lia. reflexivity.
      * intros other Hne. rewrite (Hothers other Hne).
        unfold getUserRecentPicks, m1. now rewrite mapGet_mapSet_ne by congruence.
Qed.

Lemma history_newest_first_witness :
  getUserRecentPicks "u1"
    (foldl (fun acc s => trackUserPick cachedPicker "u1" s acc)
           [("u1", [Samples.showC])] [Samples.showA; Samples.showB])
  = [Samples.showB; Samples.showA; Samples.showC].
Proof.
  destruct (history_newest_first cachedPicker "u1" [Samples.showA; Samples.showB]
              [("u1", [Samples.showC])]) as [Hmine _].
  - left. simpl. lia.
  - simpl. lia.
  - rewrite Hmine. reflexivity.
Defined.

(** X10.  The outcomes of the direct discover: a returned title passes the
    quality filter, for the requested country, never marked as cached; a
    failure changes no state and carries the error of the strict upstream
    call (no retry then), or that of the retry after an empty strict pass,
    or the not-found message when the retry read nothing of quality. *)
Theorem direct_discover_outcomes P cfg userId strict relaxed st :
  match fst (DirectPicker.discover P cfg userId strict relaxed st) with
  | Found r =>
      qualityFilter (resp_show r) = true /\
      resp_country r = country cfg /\
      fromCache r = false
  | Failed message =>
      snd (DirectPicker.discover P cfg userId strict relaxed st) = st /\
      (DirectPicker.answer strict = DirectPicker.ApiFailed message \/
       exists l,
         DirectPicker.answer strict = DirectPicker.ApiShows l /\
         strictFilter cfg userId (recentPicks st) l = [] /\
         (DirectPicker.answer relaxed = DirectPicker.ApiFailed message \/
          exists l',
            DirectPicker.answer relaxed = DirectPicker.ApiShows l' /\
            List.filter qualityFilter l' = [] /\
            message = notFoundMessage cfg))
  end.
Proof.
  unfold DirectPicker.discover, DirectPicker.selectRandomShow.
  destruct (DirectPicker.answer strict) as [msg | l] eqn:Hs.
  - simpl. split; [reflexivity | now left].
  - destruct (selectAmong cfg userId (recentPicks st) l (DirectPicker.direct_draw strict))
      as [s|] eqn:E1.
    + unfold buildResponse. cbv beta iota zeta. cbn [fst resp_show resp_country fromCache].
      pose proof (selectAmong_quality _ _ _ _ _ _ E1) as Hq. now repeat split.
    + apply selectAmong_None in E1.
      destruct (DirectPicker.answer relaxed) as [msg' | l'] eqn:Hr.
      * simpl. split; [reflexivity|]. right. exists l. repeat split; auto.
      * destruct (selectAmong (relaxedConfig cfg) userId (recentPicks st) l'
                    (DirectPicker.direct_draw relaxed)) as [s|] eqn:E2.
        -- unfold buildResponse. cbv beta iota zeta. cbn [fst resp_show resp_country fromCache].
           pose proof (selectAmong_quality _ _ _ _ _ _ E2) as Hq. now repeat split.
        -- apply selectAmong_None in E2. rewrite strictFilter_relaxed in E2.
           simpl. split; [reflexivity|]. right. exists l. repeat split; auto.
           right. exists l'. repeat split; auto.
Qed.

(** What a call of the direct discover leaves behind. *)
Lemma direct_discover_cases P cfg userId strict relaxed st :
  match DirectPicker.discover P cfg userId strict relaxed st with
  | (Found r, st') =>
      qualityFilter (resp_show r) = true /\ resp_country r = country cfg /\
      fromCache r = false /\ totalPicks st' = totalPicks st + 1
  | (Failed _, st') => st' = st
  end.
Proof.
  unfold DirectPicker.discover, DirectPicker.selectRandomShow.
  destruct (DirectPicker.answer strict) as [msg | l]; [reflexivity|].
  destruct (selectAmong cfg userId (recentPicks st) l (DirectPicker.direct_draw strict))
    as [s|] eqn:E1.
  - unfold buildResponse. cbv beta iota zeta. cbn [resp_show resp_country fromCache totalPicks].
    repeat split; [exact (selectAmong_quality _ _ _ _ _ _ E1)|].
    destruct userId as [uid|]; simpl; [destruct (truthyString uid)|]; reflexivity.
  - destruct (DirectPicker.answer relaxed) as [msg' | l']; [reflexivity|].
    destruct (selectAmong (relaxedConfig cfg) userId (recentPicks st) l'
                (DirectPicker.direct_draw relaxed)) as [s|] eqn:E2; [|reflexivity].
    unfold buildResponse. cbv beta iota zeta. cbn [resp_show resp_country fromCache totalPicks].
    repeat split. exact (selectAmong_quality _ _ _ _ _ _ E2).
Qed.

End PickerExtras.

(** * Further properties of the cache *)

Module CacheExtras.

Import Cache CacheNotions MoreNotions CacheFacts.

(** *** Pool keys *)

Lemma list_ascii_of_append (s1 s2 : string) :
  String.list_ascii_of_string (s1 +:+ s2) = String.list_ascii_of_string s1 ++ String.list_ascii_of_string s2.
Proof. induction s1 as [|a s1 IH]; simpl; [reflexivity | now rewrite IH]. Qed.

Lemma list_ascii_inj (s1 s2 : string) :
  String.list_ascii_of_string s1 = String.list_ascii_of_string s2 -> s1 = s2.
Proof.
  intros H. rewrite <- (String.string_of_list_ascii_of_string s1),
                    <- (String.string_of_list_ascii_of_string s2). now rewrite H.
Qed.

Lemma getPoolKey_injective (c c' : string) (t t' : option ShowType) :
  getPoolKey c t = getPoolKey c' t' -> c = c' /\ t = t'.
Proof.
  unfold getPoolKey. intros H.
  apply (f_equal String.list_ascii_of_string) in H.
  rewrite !list_ascii_of_append in H.
  apply (f_equal (@rev _)) in H. rewrite !rev_app_distr in H.
  destruct t as [[|]|], t' as [[|]|]; simpl in H;
    try discriminate;
    (split; [|reflexivity]);
    apply list_ascii_inj, rev_inj;
    repeat (injection H as H); exact H.
Qed.

(** X11.  Pool keys tell countries and types apart, so a refresh of the pool of
    one country and type leaves the pool of every other pair as it was. *)
Theorem refreshPool_touches_one_pool up c ctry t ctry' t' now :
  (ctry', t') <> (ctry, t) ->
  pools (refreshPool up c (getPoolKey ctry t) ctry t now) !! getPoolKey ctry' t'
  = pools c !! getPoolKey ctry' t'.
Proof.
  intros Hne.
  destruct (decide (getPoolKey ctry t ∈ isRefreshing c)) as [Hin | Hout].
  - now rewrite refreshPool_skip.
  - rewrite refreshPool_pools by exact Hout.
    destruct (collectShows up (config c) ctry t (Z.to_nat maxAttempts) [] None);
      [reflexivity|].
    apply lookup_insert_ne. intros Hk.
    apply getPoolKey_injective in Hk as [-> ->]. now apply Hne.
Qed.

Lemma refreshPool_touches_one_pool_witness :
  pools (refreshPool (Samples.onePage [Samples.showA]) (newCache defaultConfig 0)
           (getPoolKey "us" (Some movie)) "us" (Some movie) 1000)
    !! getPoolKey "us" (Some series)
  = pools (newCache defaultConfig 0) !! getPoolKey "us" (Some series).
Proof.
  apply (refreshPool_touches_one_pool (Samples.onePage [Samples.showA])
           (newCache defaultConfig 0) "us" (Some movie) "us" (Some series) 1000).
  discriminate.
Defined.

(** *** Reads *)

Lemma initial_pools_empty k p : initializePools !! k = Some p -> shows p = [].
Proof.
  unfold initializePools, supportedCountries. cbn. intros H.
  repeat (rewrite lookup_insert in H;
          destruct (decide _); [injection H as <-; reflexivity|]).
  now rewrite lookup_empty in H.
Qed.

Lemma unusable_empty cfg now (o : option CachePool) :
  (forall p, o = Some p -> shows p = []) -> unusable cfg now o = true.
Proof.
  intros H. destruct o as [p|]; [|reflexivity]. simpl.
  rewrite (H p eq_refl). simpl. apply orb_true_r.
Qed.

(** X12.  A cache that was just constructed answers no read: getRandomShows
    returns the empty list and getRandomShow null for every country and
    type, and there is no pool at all for the type "any". *)
Theorem fresh_cache_has_no_result cfg now0 ctry count t now shuffle u :
  fst (getRandomShows (initialSystem cfg now0) ctry count t now shuffle) = [] /\
  fst (getRandomShow (initialSystem cfg now0) ctry t now u) = None /\
  pools (cache (initialSystem cfg now0)) !! getPoolKey ctry None = None.
Proof.
  assert (Hun : unusable cfg now (initializePools !! getPoolKey ctry t) = true).
  { apply unusable_empty. intros p. apply initial_pools_empty. }
  split; [|split].
  - unfold getRandomShows. cbn [initialSystem cache newCache pools config].
    now rewrite Hun.
  - unfold getRandomShow. cbn [initialSystem cache newCache pools config].
    now rewrite Hun.
  - cbn [initialSystem cache newCache pools].
    destruct (initializePools !! getPoolKey ctry None) as [p|] eqn:E; [exfalso | reflexivity].
    unfold initializePools, supportedCountries in E. cbn [foldl] in E.
    repeat (rewrite lookup_insert in E;
            destruct (decide _) as [Hk|_];
            [apply getPoolKey_injective in Hk as [_ Hk]; discriminate|]).
    now rewrite lookup_empty in E.
Qed.

Lemma sliceTo_In {A} (l : list A) stop x : In x (sliceTo l stop) -> In x l.
Proof.
  unfold sliceTo. intros H. apply list_elem_of_In in H. apply list_elem_of_In.
  apply elem_of_take in H as (i & Hi & _). eapply list_elem_of_lookup_2. exact Hi.
Qed.

Lemma sliceTo_length {A} (l : list A) (stop : Z) :
  0 <= stop -> Z.of_nat (length (sliceTo l stop)) = Z.min stop (Z.of_nat (length l)).
Proof.
  intros Hs. unfold sliceTo. destruct (stop <? 0) eqn:E; [lia|].
  rewrite length_take. lia.
Qed.

Lemma getRandomShows_shape sys ctry count t now shuffle :
  fst (getRandomShows sys ctry count t now shuffle) = [] \/
  exists p,
    pools (cache sys) !! getPoolKey ctry t = Some p /\
    unusable (config (cache sys)) now (Some p) = false /\
    fst (getRandomShows sys ctry count t now shuffle)
    = sliceTo (shuffle (shows p)) (Z.min count (Z.of_nat (length (shuffle (shows p))))).
Proof.
  unfold getRandomShows.
  destruct (pools (cache sys) !! getPoolKey ctry t) as [p|] eqn:E; [|now left].
  destruct (unusable _ _ (Some p)) eqn:Hu; [now left|].
  right. exists p. auto.
Qed.

Lemma getRandomShows_length sys ctry count t now shuffle :
  0 <= count ->
  Z.of_nat (length (fst (getRandomShows sys ctry count t now shuffle))) <= count.
Proof.
  intros Hc. destruct (getRandomShows_shape sys ctry count t now shuffle)
    as [-> | (p & _ & _ & ->)]; [simpl; lia|].
  rewrite sliceTo_length by lia. lia.
Qed.

(** X13.  The candidates selectRandomShow reads from the cache are at most 20,
    and each of them is held by an unexpired movie or series pool of the
    requested country, of the requested type when one is given. *)
Theorem gatherCandidates_bounded cfg (p : Picker.Pass) :
  (forall l x, In x (Picker.shuffle p l) -> In x l) ->
  Z.of_nat (length (Picker.gatherCandidates cfg p)) <= 20 /\
  forall s, In s (Picker.gatherCandidates cfg p) ->
    exists ty pool,
      pools (cache (Picker.seen p)) !! getPoolKey (Picker.country cfg) (Some ty) = Some pool /\
      In s (shows pool) /\
      isPoolExpired (config (cache (Picker.seen p))) (Picker.at_time p) pool = false /\
      match Picker.cfg_showType cfg with
      | Some Picker.kind_movie => ty = movie
      | Some Picker.kind_series => ty = series
      | _ => True
      end.
Proof.
  intros Hsh.
  assert (Hfrom : forall ty count s,
            In s (fst (getRandomShows (Picker.seen p) (Picker.country cfg) count (Some ty)
                         (Picker.at_time p) (Picker.shuffle p))) ->
            exists pool,
              pools (cache (Picker.seen p)) !! getPoolKey (Picker.country cfg) (Some ty)
                = Some pool /\
              In s (shows pool) /\
              isPoolExpired (config (cache (Picker.seen p))) (Picker.at_time p) pool = false).
  { intros ty count s Hs.
    destruct (getRandomShows_shape (Picker.seen p) (Picker.country cfg) count (Some ty)
                (Picker.at_time p) (Picker.shuffle p)) as [E | (pool & Hp & Hu & E)];
      rewrite E in Hs; [contradiction|].
    exists pool. split; [exact Hp|]. split.
    - apply Hsh. eapply sliceTo_In. exact Hs.
    - simpl in Hu. now apply orb_false_elim in Hu as [Hu _]. }
  unfold Picker.gatherCandidates.
  pose proof (getRandomShows_length (Picker.seen p) (Picker.country cfg) 10 (Some movie)
                (Picker.at_time p) (Picker.shuffle p) ltac:(lia)) as Hm10.
  pose proof (getRandomShows_length (Picker.seen p) (Picker.country cfg) 20 (Some movie)
                (Picker.at_time p) (Picker.shuffle p) ltac:(lia)) as Hm20.
  pose proof (getRandomShows_length (Picker.seen p) (Picker.country cfg) 20 (Some series)
                (Picker.at_time p) (Picker.shuffle p) ltac:(lia)) as Hs20.
  assert (Hany :
    Z.of_nat (length
      (let '(movies, sys1) :=
         getRandomShows (Picker.seen p) (Picker.country cfg) 10 (Some movie)
           (Picker.at_time p) (Picker.shuffle p) in
       let '(series_, _) :=
         getRandomShows sys1 (Picker.country cfg) 10 (Some series)
           (Picker.at_time p) (Picker.shuffle p) in
       movies ++ series_)) <= 20 /\
    forall s, In s
      (let '(movies, sys1) :=
         getRandomShows (Picker.seen p) (Picker.country cfg) 10 (Some movie)
           (Picker.at_time p) (Picker.shuffle p) in
       let '(series_, _) :=
         getRandomShows sys1 (Picker.country cfg) 10 (Some series)
           (Picker.at_time p) (Picker.shuffle p) in
       movies ++ series_) ->
      exists ty pool,
        pools (cache (Picker.seen p)) !! getPoolKey (Picker.country cfg) (Some ty) = Some pool /\
        In s (shows pool) /\
        isPoolExpired (config (cache (Picker.seen p))) (Picker.at_time p) pool = false).
  { pose proof (getRandomShows_pure (Picker.seen p) (Picker.country cfg) 10 (Some movie)
                  (Picker.at_time p) (Picker.shuffle p)) as Hpure.
    destruct (getRandomShows (Picker.seen p) (Picker.country cfg) 10 (Some movie)
                (Picker.at_time p) (Picker.shuffle p)) as [movies sys1] eqn:E1.
    simpl in Hpure, Hm10. subst sys1.
    pose proof (getRandomShows_length (Picker.seen p) (Picker.country cfg) 10 (Some series)
                  (Picker.at_time p) (Picker.shuffle p) ltac:(lia)) as Hs10.
    pose proof (Hfrom series 10) as Hfs. pose proof (Hfrom movie 10) as Hfm.
    rewrite E1 in Hfm. simpl in Hfm.
    destruct (getRandomShows (Picker.seen p) (Picker.country cfg) 10 (Some series)
                (Picker.at_time p) (Picker.shuffle p)) as [series_ sys2] eqn:E2.
    simpl in Hs10, Hfs. split.
    - rewrite length_app. lia.
    - intros s Hs. apply in_app_or in Hs as [Hs | Hs].
      + exists movie. now apply Hfm.
      + exists series. now apply Hfs. }
  destruct (Picker.cfg_showType cfg) as [[| |]|].
  - split; [exact Hm20|]. intros s Hs. exists movie.
    destruct (Hfrom movie 20 s Hs) as (pool & H1 & H2 & H3). exists pool. auto.
  - split; [exact Hs20|]. intros s Hs. exists series.
    destruct (Hfrom series 20 s Hs) as (pool & H1 & H2 & H3). exists pool. auto.
  - destruct Hany as [Hl Hin]. split; [exact Hl|]. intros s Hs.
    destruct (Hin s Hs) as (ty & pool & H1 & H2 & H3). exists ty, pool. auto.
  - destruct Hany as [Hl Hin]. split; [exact Hl|]. intros s Hs.
    destruct (Hin s Hs) as (ty & pool & H1 & H2 & H3). exists ty, pool. auto.
Qed.

Lemma gatherCandidates_bounded_witness :
  Z.of_nat (length (Picker.gatherCandidates (Samples.movieRequest None)
                      (Samples.passOver (Samples.systemWith Samples.twentyOne) 0))) <= 20.
Proof.
  apply (gatherCandidates_bounded (Samples.movieRequest None)
           (Samples.passOver (Samples.systemWith Samples.twentyOne) 0)).
  intros l x H. exact H.
Defined.

(** A call of refreshPool writes no pool and no metadata before its first
    page arrives. *)
Lemma callRefreshPool_writes_nothing sys key ctry t now :
  pools (cache (callRefreshPool sys key ctry t now)) = pools (cache sys) /\
  metadata (cache (callRefreshPool sys key ctry t now)) = metadata (cache sys).
Proof.
  unfold callRefreshPool. destruct (bool_decide _); [now split|].
  unfold loopHead. destruct (loopGuard _ _ _); now split.
Qed.

Lemma random_index_in_range (u : Q) (n : nat) :
  (0 <= u)%Q -> (u < 1)%Q -> (0 < n)%nat ->
  0 <= Qfloor (u * inject_Z (Z.of_nat n)) < Z.of_nat n.
Proof.
  intros H0 H1 Hn.
  assert (Hpos : (0 < inject_Z (Z.of_nat n))%Q) by (rewrite <- (Zlt_Qlt 0); lia).
  split.
  - change 0 with (Qfloor 0). apply Qfloor_resp_le.
    apply Qmult_le_0_compat; [exact H0 | now apply Qlt_le_weak].
  - rewrite Zlt_Qlt. eapply Qle_lt_trans; [apply Qfloor_le|].
    rewrite <- (Qmult_1_l (inject_Z (Z.of_nat n))) at 2.
    now apply Qmult_lt_compat_r.
Qed.

(** X14.  getRandomShow never changes a pool and counts every call once: a miss
    (and null) when the pool is missing, expired or empty, a hit otherwise,
    with a title of the pool returned. *)
Theorem getRandomShow_accounts sys ctry t now u :
  (0 <= u)%Q -> (u < 1)%Q ->
  pools (cache (snd (getRandomShow sys ctry t now u))) = pools (cache sys) /\
  (unusable (config (cache sys)) now (pools (cache sys) !! getPoolKey ctry t) = true ->
     fst (getRandomShow sys ctry t now u) = None /\
     missCount (metadata (cache (snd (getRandomShow sys ctry t now u))))
       = missCount (metadata (cache sys)) + 1 /\
     hitCount (metadata (cache (snd (getRandomShow sys ctry t now u))))
       = hitCount (metadata (cache sys))) /\
  (unusable (config (cache sys)) now (pools (cache sys) !! getPoolKey ctry t) = false ->
     (exists p s,
        pools (cache sys) !! getPoolKey ctry t = Some p /\
        fst (getRandomShow sys ctry t now u) = Some s /\ In s (shows p)) /\
     hitCount (metadata (cache (snd (getRandomShow sys ctry t now u))))
       = hitCount (metadata (cache sys)) + 1 /\
     missCount (metadata (cache (snd (getRandomShow sys ctry t now u))))
       = missCount (metadata (cache sys))).
Proof.
  intros H0 H1. unfold getRandomShow.
  destruct (unusable (config (cache sys)) now (pools (cache sys) !! getPoolKey ctry t))
    eqn:Hun.
  - cbn [fst snd].
    assert (Hinner : forall s1,
       pools (cache s1) = pools (cache sys) ->
       metadata (cache s1) = metadata (recordCacheMiss (cache sys)) ->
       pools (cache (if negb (bool_decide (getPoolKey ctry t ∈ isRefreshing (cache s1)))
                     then callRefreshPool s1 (getPoolKey ctry t) ctry t now else s1))
         = pools (cache sys) /\
       metadata (cache (if negb (bool_decide (getPoolKey ctry t ∈ isRefreshing (cache s1)))
                        then callRefreshPool s1 (getPoolKey ctry t) ctry t now else s1))
         = metadata (recordCacheMiss (cache sys))).
    { intros s1 Hp Hm. destruct (negb _); [|now split].
      destruct (callRefreshPool_writes_nothing s1 (getPoolKey ctry t) ctry t now) as [-> ->].
      now split. }
    destruct (Hinner (withCache sys (recordCacheMiss (cache sys))) eq_refl eq_refl)
      as [Hp Hm].
    split; [exact Hp|]. split; [|discriminate].
    intros _. split; [reflexivity|]. rewrite Hm. split; reflexivity.
  - destruct (pools (cache sys) !! getPoolKey ctry t) as [p|] eqn:Hp; [|discriminate].
    cbn [fst snd].
    set (sys1 := if Z.of_nat (length (shows p)) <? minPoolSize (config (cache sys))
                 then if negb (bool_decide (getPoolKey ctry t ∈ isRefreshing (cache sys)))
                      then callRefreshPool sys (getPoolKey ctry t) ctry t now else sys
                 else sys).
    assert (Hsame : pools (cache sys1) = pools (cache sys) /\
                    metadata (cache sys1) = metadata (cache sys)).
    { unfold sys1. destruct (_ <? _); [|now split]. destruct (negb _); [|now split].
      apply callRefreshPool_writes_nothing. }
    destruct Hsame as [Hps Hms].
    unfold withCache. cbn [cache]. unfold recordCacheHit. cbn [pools metadata hitCount missCount].
    split; [exact Hps|]. split; [discriminate|]. intros _.
    rewrite Hms. split; [|split; reflexivity].
    assert (Hlen : (0 < length (shows p))%nat).
    { simpl in Hun. apply orb_false_elim in Hun as [_ Hun].
      apply Nat.eqb_neq in Hun. lia. }
    destruct (random_index_in_range u (length (shows p)) H0 H1 Hlen) as [Hlo Hhi].
    assert (Hneg : (Qfloor (u * inject_Z (Z.of_nat (length (shows p)))) <? 0) = false)
      by (apply Z.ltb_ge; lia).
    rewrite Hneg.
    destruct (lookup_lt_is_Some_2 (shows p)
                (Z.to_nat (Qfloor (u * inject_Z (Z.of_nat (length (shows p)))))) ltac:(lia))
      as [s Hs].
    exists p, s. split; [reflexivity|]. split; [exact Hs|].
    apply list_elem_of_In. eapply list_elem_of_lookup_2. exact Hs.
Qed.

Lemma getRandomShow_accounts_witness :
  exists p s,
    pools (cache (Samples.systemWith [Samples.showA])) !! getPoolKey "us" (Some movie) = Some p /\
    fst (getRandomShow (Samples.systemWith [Samples.showA]) "us" (Some movie) 2000 (1 # 2))
      = Some s /\ In s (shows p).
Proof.
  destruct (getRandomShow_accounts (Samples.systemWith [Samples.showA]) "us" (Some movie)
              2000 (1 # 2)) as (_ & _ & Hhit).
  - discriminate.
  - reflexivity.
  - destruct Hhit as [Hex _]; [vm_compute; reflexivity | exact Hex].
Defined.

(** *** What a pass collects *)

Lemma processPage_valid collected r :
  Forall (fun s => validShow s = true) collected ->
  match processPage collected r with
  | Continue collected' _ | Break collected' =>
      Forall (fun s => validShow s = true) collected'
  end.
Proof.
  intros Hv. unfold processPage. destruct r as [|page hasMore next]; [exact Hv|].
  destruct (length page =? 0)%nat; [exact Hv|].
  assert (Hnew : Forall (fun s => validShow s = true) (collected ++ List.filter validShow page)).
  { apply Forall_app. split; [exact Hv|]. apply List.Forall_forall.
    intros x Hx. now apply filter_In in Hx as [_ Hx]. }
  now destruct (negb hasMore || negb (truthyOpt next)).
Qed.

Lemma collectShows_valid up cfg ctry t remaining : forall collected cursor,
  Forall (fun s => validShow s = true) collected ->
  Forall (fun s => validShow s = true) (collectShows up cfg ctry t remaining collected cursor).
Proof.
  induction remaining as [|n IH]; intros collected cursor Hv; simpl; [exact Hv|].
  destruct (Z.of_nat (length collected) <? poolSize cfg); [|exact Hv].
  pose proof (processPage_valid collected (up ctry t cursor) Hv) as Hp.
  destruct (processPage collected (up ctry t cursor)) as [c' cur' | c']; [|exact Hp].
  now apply IH.
Qed.

(** X15.  After a refresh that collected something, getRandomShows on the same
    country and type returns titles of that collection, all valid, and at
    least one, until the time to live has passed; afterwards it returns
    nothing. *)
Theorem refresh_then_read up c ctry t now tread count shuffle sys :
  getPoolKey ctry t ∉ isRefreshing c ->
  collectShows up (config c) ctry t (Z.to_nat maxAttempts) [] None <> [] ->
  cache sys = refreshPool up c (getPoolKey ctry t) ctry t now ->
  0 < count ->
  (forall l, Permutation (shuffle l) l) ->
  (tread - now <= ttlHours (config c) * 60 * 60 * 1000 ->
     fst (getRandomShows sys ctry count t tread shuffle) <> [] /\
     forall s, In s (fst (getRandomShows sys ctry count t tread shuffle)) ->
       In s (collectShows up (config c) ctry t (Z.to_nat maxAttempts) [] None) /\
       validShow s = true) /\
  (ttlHours (config c) * 60 * 60 * 1000 < tread - now ->
     fst (getRandomShows sys ctry count t tread shuffle) = []).
Proof.
  intros Hkey Hne Hsys Hcount Hperm.
  pose proof (refreshPool_pools up c (getPoolKey ctry t) ctry t now Hkey) as Hp.
  pose proof (refreshPool_config up c (getPoolKey ctry t) ctry t now) as Hcfg.
  pose proof (collectShows_nonempty up (config c) ctry t (Z.to_nat maxAttempts) None Hne)
    as Hpos.
  pose proof (collectShows_valid up (config c) ctry t (Z.to_nat maxAttempts) [] None
                ltac:(constructor)) as Hvalid.
  set (collected := collectShows up (config c) ctry t (Z.to_nat maxAttempts) [] None) in *.
  destruct collected as [|s0 l0] eqn:Ecol; [congruence|]. rewrite <- Ecol in *.
  set (pool := {| shows := sliceTo collected (poolSize (config c)); lastUpdate := now;
                  country := ctry;
                  pool_showType := match t with
                                   | Some t0 => showTypeName t0
                                   | None => "any"
                                   end |}).
  assert (Hlook : pools (cache sys) !! getPoolKey ctry t = Some pool).
  { rewrite Hsys, Hp, Ecol. unfold pool. rewrite Ecol. apply lookup_insert_eq. }
  assert (Hlen : 0 < Z.of_nat (length (shows pool))).
  { unfold pool. cbn [shows]. rewrite sliceTo_length by lia.
    rewrite Ecol. simpl length. lia. }
  unfold getRandomShows. rewrite Hlook, Hsys, Hcfg. cbn [unusable isPoolExpired lastUpdate].
  assert (Hnz : (length (shows pool) =? 0)%nat = false) by (apply Nat.eqb_neq; lia).
  rewrite Hnz, orb_false_r.
  change (isPoolExpired (config c) tread pool)
    with (ttlHours (config c) * 60 * 60 * 1000 <? tread - now).
  split.
  - intros Hin. assert (Hexp : (ttlHours (config c) * 60 * 60 * 1000 <? tread - now) = false)
      by (apply Z.ltb_ge; lia).
    rewrite Hexp. cbn [fst].
    pose proof (Permutation_length (Hperm (shows pool))) as Hpl.
    split.
    + intros Hnil. apply (f_equal (fun l => Z.of_nat (length l))) in Hnil.
      cbv beta in Hnil. rewrite sliceTo_length in Hnil by lia.
      change (Z.of_nat (length [])) with 0 in Hnil. lia.
    + intros s Hs. apply sliceTo_In in Hs.
      apply (Permutation_in _ (Hperm (shows pool))) in Hs.
      unfold pool in Hs. cbn [shows] in Hs. apply sliceTo_In in Hs.
      split; [exact Hs|]. rewrite List.Forall_forall in Hvalid. now apply Hvalid.
  - intros Hlate. assert (Hexp : (ttlHours (config c) * 60 * 60 * 1000 <? tread - now) = true)
      by (apply Z.ltb_lt; lia).
    now rewrite Hexp.
Qed.

Lemma refresh_then_read_witness :
  fst (getRandomShows (Samples.systemWith [Samples.showA; Samples.showB]) "us" 20
         (Some movie) 2000 (fun l => l)) <> [].
Proof.
  destruct (refresh_then_read (Samples.onePage [Samples.showA; Samples.showB])
              (newCache defaultConfig 0) "us" (Some movie) 1000 2000 20 (fun l => l)
              (Samples.systemWith [Samples.showA; Samples.showB])) as [Hfresh _].
  - apply not_elem_of_empty.
  - vm_compute. discriminate.
  - reflexivity.
  - lia.
  - intros l. apply Permutation_refl.
  - apply Hfresh. vm_compute. discriminate.
Defined.

(** *** Invariants of the running cache *)

Lemma finishRefresh_sound c key ctry t collected now :
  metadataExact c ->
  (forall k p, pools c !! k = Some p -> Forall (fun s => validShow s = true) (shows p)) ->
  Forall (fun s => validShow s = true) collected ->
  (collected <> [] -> 0 < poolSize (config c)) ->
  metadataExact (finishRefresh c key ctry t collected now) /\
  (forall k p, pools (finishRefresh c key ctry t collected now) !! k = Some p ->
     Forall (fun s => validShow s = true) (shows p)).
Proof.
  intros (Htot & Hsizes & Hrec) Hvalid Hcol Hpos.
  unfold finishRefresh, updatePool.
  destruct collected as [|s0 l0];
    [split; [exact (conj Htot (conj Hsizes Hrec)) | exact Hvalid]|].
  specialize (Hpos ltac:(discriminate)).
  change (0 <? length (s0 :: l0))%nat with true. cbv iota.
  set (pool := {| shows := sliceTo (s0 :: l0) (poolSize (config c)); lastUpdate := now;
                  country := ctry;
                  pool_showType := match t with
                                   | Some t0 => showTypeName t0
                                   | None => "any"
                                   end |}).
  assert (Hlen : 0 < Z.of_nat (length (shows pool))).
  { unfold pool. cbn [shows]. rewrite sliceTo_length by lia. simpl length. lia. }
  unfold metadataExact, clearRefreshing. cbn [pools metadata totalShows poolSizes].
  repeat split.
  - destruct (decide (key = k)) as [<- | Hne].
    + rewrite lookup_insert_eq in H. injection H as <-. exact Hlen.
    + rewrite lookup_insert_ne in H by exact Hne. now apply Hsizes in H as [H _].
  - destruct (decide (key = k)) as [<- | Hne].
    + rewrite lookup_insert_eq in H. injection H as <-.
      exists pool. now rewrite lookup_insert_eq.
    + rewrite lookup_insert_ne in H by exact Hne.
      apply Hsizes in H as [_ (p & Hp & Hn)]. exists p.
      now rewrite lookup_insert_ne by exact Hne.
  - intros k p Hp Hnonempty. destruct (decide (key = k)) as [<- | Hne].
    + rewrite lookup_insert_eq. eauto.
    + rewrite lookup_insert_ne in Hp by exact Hne.
      rewrite lookup_insert_ne by exact Hne. eapply Hrec; eassumption.
  - intros k p Hp. destruct (decide (key = k)) as [<- | Hne].
    + rewrite lookup_insert_eq in Hp. injection Hp as <-. unfold pool. cbn [shows].
      unfold sliceTo. now apply Forall_take.
    + rewrite lookup_insert_ne in Hp by exact Hne. eapply Hvalid. exact Hp.
Qed.

Lemma loopHead_sound sys t now :
  soundSystem sys ->
  Forall (fun s => validShow s = true) (task_shows t) ->
  (task_shows t <> [] -> 0 < poolSize (config (cache sys))) ->
  soundSystem (loopHead sys t now).
Proof.
  intros (Hm & [Hpv Htv] & Hpos) Hv Hpt. unfold loopHead.
  destruct (loopGuard _ _ _) eqn:Hg.
  - split; [exact Hm|]. split.
    + split; [exact Hpv|]. cbn [tasks]. apply Forall_app. split; [exact Htv|].
      constructor; [exact Hv | constructor].
    + intros _. cbn [cache]. unfold loopGuard in Hg. apply andb_prop in Hg as [Hg _].
      apply Z.ltb_lt in Hg. lia.
  - destruct (finishRefresh_sound (cache sys) (task_poolKey t) (task_country t)
                (task_showType t) (task_shows t) now Hm Hpv Hv Hpt) as [Hm' Hpv'].
    split; [exact Hm'|]. split; [split; [exact Hpv' | exact Htv]|].
    unfold withCache. cbn [cache tasks]. now rewrite finishRefresh_config.
Qed.

Lemma callRefreshPool_sound sys key ctry t now :
  soundSystem sys -> soundSystem (callRefreshPool sys key ctry t now).
Proof.
  intros Hs. unfold callRefreshPool. destruct (bool_decide _); [exact Hs|].
  apply loopHead_sound; [exact Hs | constructor | intros H; now contradiction H].
Qed.

Lemma step_sound sys sys' : step sys sys' -> soundSystem sys -> soundSystem sys'.
Proof.
  intros Hstep Hs.
  destruct Hstep as [sys key ctry t now | sys i r now Hi
                    | sys ctry t now u | sys ctry count t now sh | sys].
  - now apply callRefreshPool_sound.
  - unfold resumeTask. destruct (tasks sys !! i) as [tk|] eqn:Htk; [|exact Hs].
    destruct Hs as (Hm & [Hpv Htv] & Hpos).
    assert (Hp : 0 < poolSize (config (cache sys))).
    { apply Hpos. intros Hnil. rewrite Hnil in Htk. discriminate. }
    assert (Hvtk : Forall (fun s => validShow s = true) (task_shows tk)).
    { rewrite Forall_lookup in Htv. exact (Htv i tk Htk). }
    assert (Hrest : Forall (fun t => Forall (fun s => validShow s = true) (task_shows t))
                           (delete i (tasks sys))).
    { now apply Forall_delete. }
    pose proof (processPage_valid (task_shows tk) r Hvtk) as Hpp.
    destruct (processPage (task_shows tk) r) as [collected cursor | collected].
    + apply loopHead_sound; [|exact Hpp | intros _; exact Hp].
      split; [exact Hm|]. split; [split; [exact Hpv | exact Hrest]|]. intros _. exact Hp.
    + destruct (finishRefresh_sound (cache sys) (task_poolKey tk) (task_country tk)
                  (task_showType tk) collected now Hm Hpv Hpp ltac:(intros _; exact Hp))
        as [Hm' Hpv'].
      split; [exact Hm'|]. split; [split; [exact Hpv' | exact Hrest]|].
      intros _. unfold withCache. cbn [cache]. now rewrite finishRefresh_config.
  - assert (Hwrap : forall s1 (f : NetPickCache -> NetPickCache),
              (forall c, pools (f c) = pools c /\ totalShows (metadata (f c)) = totalShows (metadata c)
                         /\ poolSizes (metadata (f c)) = poolSizes (metadata c)
                         /\ config (f c) = config c) ->
              soundSystem s1 -> soundSystem (withCache s1 (f (cache s1)))).
    { intros s1 f Hf ((Ht & Hsz & Hrec) & [Hpv Htv] & Hpos).
      destruct (Hf (cache s1)) as (Hfp & Hft & Hfs & Hfc).
      unfold soundSystem, metadataExact, pooledValid, withCache. cbn [cache tasks].
      rewrite Hfp, Hft, Hfs, Hfc. repeat split; auto.
      - now apply Hsz in H as [H _].
      - now apply Hsz in H as [_ H]. }
    unfold getRandomShow. destruct (unusable _ _ _).
    + cbn [snd]. destruct (negb _).
      * apply callRefreshPool_sound. apply (Hwrap sys recordCacheMiss); [|exact Hs].
        intros c. now repeat split.
      * apply (Hwrap sys recordCacheMiss); [|exact Hs]. intros c. now repeat split.
    + destruct (pools (cache sys) !! getPoolKey ctry t) as [p|]; [|exact Hs]. cbn [snd].
      apply (Hwrap _ recordCacheHit); [intros c; now repeat split|].
      destruct (_ <? _); [|exact Hs]. destruct (negb _); [|exact Hs].
      now apply callRefreshPool_sound.
  - rewrite getRandomShows_pure. exact Hs.
  - destruct Hs as (Hm & [Hpv Htv] & Hpos).
    unfold soundSystem, metadataExact, pooledValid, withCache, clearCache.
    cbn [cache tasks pools metadata totalShows poolSizes config].
    repeat split; auto.
    + now rewrite lookup_empty in H.
    + now rewrite lookup_empty in H.
    + intros k p Hp. now rewrite lookup_empty in Hp.
    + intros k p Hp. now rewrite lookup_empty in Hp.
Qed.

Lemma initial_sound cfg now0 : soundSystem (initialSystem cfg now0).
Proof.
  unfold soundSystem, metadataExact, pooledValid.
  cbn [initialSystem cache tasks newCache pools metadata totalShows poolSizes].
  repeat split.
  - now rewrite lookup_empty in H.
  - now rewrite lookup_empty in H.
  - intros k p Hp Hne. apply initial_pools_empty in Hp. contradiction.
  - intros k p Hp. rewrite (initial_pools_empty k p Hp). constructor.
  - constructor.
  - intros H. now contradiction H.
Qed.

Lemma reachable_sound cfg now0 sys :
  rtc step (initialSystem cfg now0) sys -> soundSystem sys.
Proof.
  intros Hr.
  apply rtc_ind_r with (x := initialSystem cfg now0) (P := soundSystem) in Hr; auto.
  - apply initial_sound.
  - intros y z _ Hstep Hy. eapply step_sound; eassumption.
Qed.

(** X16.  In every state the process reaches, the metadata agree with the pools:
    totalShows is the sum of the pool sizes, and poolSizes records, for
    exactly the non-empty pools, their positive size. *)
Theorem reachable_metadata_exact cfg now0 sys :
  rtc step (initialSystem cfg now0) sys -> metadataExact (cache sys).
Proof. intros Hr. now destruct (reachable_sound cfg now0 sys Hr) as [H _]. Qed.

Lemma reachable_metadata_exact_witness : metadataExact (cache Samples.refreshing).
Proof.
  apply (reachable_metadata_exact defaultConfig 0). apply rtc_once. apply step_call.
Defined.

Lemma quality_is_valid_and_rated (s : NetflixShow) :
  Picker.qualityFilter s = validShow s && (0 <? rating s).
Proof.
  unfold Picker.qualityFilter, validShow.
  destruct (truthyString (title s)), (truthyString (overview s)),
    (truthyOpt (netflixLink s)), (truthyOpt (poster_w480 s)); reflexivity.
Qed.

(** X17.  Every title the cache ever holds passed the validity filter of the
    refresh, so the quality filter of the picker rejects a cached title only
    for a rating that is not positive. *)
Theorem reachable_pools_valid cfg now0 sys k p s :
  rtc step (initialSystem cfg now0) sys ->
  pools (cache sys) !! k = Some p -> In s (shows p) ->
  validShow s = true /\
  (Picker.qualityFilter s = true <-> 0 < rating s).
Proof.
  intros Hr Hp Hs. destruct (reachable_sound cfg now0 sys Hr) as (_ & [Hpv _] & _).
  specialize (Hpv k p Hp). rewrite List.Forall_forall in Hpv. specialize (Hpv s Hs).
  split; [exact Hpv|]. rewrite quality_is_valid_and_rated, Hpv. simpl.
  apply Z.ltb_lt.
Qed.

Lemma reachable_pools_valid_witness :
  validShow Samples.showA = true /\
  (Picker.qualityFilter Samples.showA = true <-> 0 < rating Samples.showA).
Proof.
  apply (reachable_pools_valid defaultConfig 0
           (resumeTask Samples.refreshing 0 (SearchPage [Samples.showA] false None) 20)
           "us-movie"
           {| shows := [Samples.showA]; lastUpdate := 20; country := "us";
              pool_showType := "movie" |} Samples.showA).
  - apply (rtc_l _ _ Samples.refreshing); [apply step_call|].
    apply rtc_once. apply (step_resume Samples.refreshing 0). vm_compute. lia.
  - vm_compute. reflexivity.
  - left. reflexivity.
Defined.

Lemma sumPoolSizes_zero (m : gmap string CachePool) :
  0 <= sumPoolSizes m /\
  (sumPoolSizes m = 0 <-> forall k p, m !! k = Some p -> shows p = []).
Proof.
  unfold sumPoolSizes.
  apply (map_fold_weak_ind
           (fun r (m : gmap string CachePool) =>
              0 <= r /\ (r = 0 <-> forall k p, m !! k = Some p -> shows p = []))).
  - split; [lia|]. split; [intros _ k p Hp; now rewrite lookup_empty in Hp | reflexivity].
  - intros i x m0 r Hi [Hr Hiff]. split; [lia|]. split.
    + intros Hsum k p Hp. destruct (decide (i = k)) as [<- | Hne].
      * rewrite lookup_insert_eq in Hp. injection Hp as <-.
        destruct (shows x); [reflexivity | simpl in Hsum; lia].
      * rewrite lookup_insert_ne in Hp by exact Hne. apply Hiff in Hp; [exact Hp | lia].
    + intros Hall. assert (Hx : shows x = []) by (apply (Hall i); apply lookup_insert_eq).
      assert (Hr0 : r = 0).
      { apply Hiff. intros k p Hp. apply (Hall k).
        rewrite lookup_insert_ne; [exact Hp|]. intros <-. congruence. }
      rewrite Hx. simpl. lia.
Qed.

(** X18.  In every state the process reaches, the health check of the cache
    reports unhealthy exactly when every pool is empty, whatever the hit
    rate. *)
Theorem healthCheck_unhealthy_iff_empty cfg now0 sys hitRate :
  rtc step (initialSystem cfg now0) sys ->
  (CacheHealth.healthCheck (cache sys) hitRate = CacheHealth.unhealthy <->
   forall k p, pools (cache sys) !! k = Some p -> shows p = []).
Proof.
  intros Hr. destruct (reachable_sound cfg now0 sys Hr) as ((Htot & Hsz & Hrec) & _ & _).
  destruct (sumPoolSizes_zero (pools (cache sys))) as [_ Hzero].
  unfold CacheHealth.healthCheck. split.
  - intros Hh. destruct (totalShows (metadata (cache sys)) =? 0) eqn:Et.
    + apply Z.eqb_eq in Et. apply Hzero. congruence.
    + destruct (Z.of_nat (size (poolSizes (metadata (cache sys)))) =? 0) eqn:Ea.
      * apply Z.eqb_eq in Ea. intros k p Hp.
        destruct (shows p) as [|s0 l0] eqn:Es; [reflexivity | exfalso].
        destruct (Hrec k p Hp ltac:(rewrite Es; discriminate)) as [n Hn].
        assert (Hempty : poolSizes (metadata (cache sys)) = ∅)
          by (apply map_size_empty_inv; lia).
        rewrite Hempty, lookup_empty in Hn. discriminate.
      * simpl in Hh. destruct (_ || _); discriminate.
  - intros Hall. apply Hzero in Hall. rewrite Htot, Hall. reflexivity.
Qed.

Lemma healthCheck_unhealthy_iff_empty_witness :
  CacheHealth.healthCheck (cache Samples.refreshing) 1 = CacheHealth.unhealthy.
Proof.
  apply (healthCheck_unhealthy_iff_empty defaultConfig 0 Samples.refreshing 1).
  - apply rtc_once. apply step_call.
  - intros k p Hp. now apply initial_pools_empty in Hp.
Defined.

(** *** Requests sent by one pass *)

Section AloneFetches.

Variable up : string -> option ShowType -> option string -> SearchResult.
Variable now : Z.

Lemma runAlone_fetches : forall n sys tk,
  tasks sys = [tk] ->
  task_attempts tk = maxAttempts - Z.of_nat n ->
  loopGuard (config (cache sys)) (task_shows tk) (task_attempts tk) = true ->
  (length (fetches (runAlone up n sys now)) + 1 <= length (fetches sys) + n)%nat.
Proof.
  induction n as [|n IH]; intros sys tk Htk Ha Hg.
  - exfalso. unfold loopGuard in Hg. apply andb_prop in Hg as [_ Hg].
    apply Z.ltb_lt in Hg. simpl in Ha. lia.
  - simpl. rewrite Htk. unfold resumeTask. rewrite Htk. cbn [lookup list_lookup].
    destruct (processPage (task_shows tk)
                (up (task_country tk) (task_showType tk) (task_cursor tk)))
      as [collected cursor | collected].
    + cbn [delete list_delete cache].
      unfold loopHead. cbn [cache task_shows task_attempts tasks fetches task_poolKey
                            task_country task_showType task_cursor].
      destruct (loopGuard (config (cache sys)) collected (task_attempts tk + 1)) eqn:Hg'.
      * match goal with |- context [runAlone up n ?s now] =>
          pose proof (IH s {| task_poolKey := task_poolKey tk; task_country := task_country tk;
                              task_showType := task_showType tk; task_shows := collected;
                              task_cursor := cursor; task_attempts := task_attempts tk + 1 |}
                        eq_refl) as Hrec end.
        cbn [task_attempts task_shows cache fetches] in Hrec.
        specialize (Hrec ltac:(lia) Hg'). rewrite length_app in Hrec.
        simpl length in Hrec. cbn [app]. lia.
      * rewrite runAlone_idle by reflexivity. unfold withCache. cbn [fetches]. lia.
    + cbn [delete list_delete cache]. rewrite runAlone_idle by reflexivity.
      unfold withCache. cbn [fetches]. lia.
Qed.

(** X19.  One call of refreshPool sends at most ten requests upstream before it
    ends, whatever the upstream answers. *)
Theorem pass_sends_at_most_ten_requests sys key ctry t :
  tasks sys = [] ->
  (length (fetches (runAlone up (Z.to_nat maxAttempts) (callRefreshPool sys key ctry t now) now))
   <= length (fetches sys) + 10)%nat /\
  tasks (runAlone up (Z.to_nat maxAttempts) (callRefreshPool sys key ctry t now) now) = [].
Proof.
  intros Hidle. split; [|now apply runAlone_refreshPool].
  unfold callRefreshPool.
  destruct (bool_decide (key ∈ isRefreshing (cache sys))).
  - rewrite runAlone_idle by exact Hidle. lia.
  - unfold loopHead.
    cbn [cache task_shows task_attempts tasks fetches task_poolKey task_country
         task_showType task_cursor withCache].
    destruct (loopGuard (config (markRefreshing (cache sys) key)) [] 0) eqn:Hg.
    + rewrite Hidle. cbn [app].
      match goal with |- context [runAlone up ?k ?s now] =>
        pose proof (runAlone_fetches k s
                      {| task_poolKey := key; task_country := ctry; task_showType := t;
                         task_shows := []; task_cursor := None; task_attempts := 0 |}
                      eq_refl eq_refl Hg) as Hrec;
        remember (runAlone up k s now) as R
      end.
      cbn [fetches] in Hrec. rewrite length_app in Hrec. simpl in Hrec.
      change (Z.to_nat maxAttempts) with 10%nat in Hrec. lia.
    + rewrite runAlone_idle by exact Hidle. unfold withCache. cbn [fetches]. lia.
Qed.

End AloneFetches.

Lemma pass_sends_at_most_ten_requests_witness :
  (length (fetches (runAlone (Samples.failsOnSecond [Samples.showA]) (Z.to_nat maxAttempts)
                      (callRefreshPool (initialSystem defaultConfig 0) "us-movie" "us"
                         (Some movie) 10) 10))
   <= length (fetches (initialSystem defaultConfig 0)) + 10)%nat.
Proof.
  apply (pass_sends_at_most_ten_requests (Samples.failsOnSecond [Samples.showA]) 10
           (initialSystem defaultConfig 0) "us-movie" "us" (Some movie)).
  reflexivity.
Defined.

(** Run alone, the interleaved model only takes steps of the process. *)
Lemma runAlone_reachable up now fuel : forall sys, rtc step sys (runAlone up fuel sys now).
Proof.
  induction fuel as [|fuel IH]; intros sys; simpl; [apply rtc_refl|].
  destruct (tasks sys) as [|tk rest] eqn:Htk; [apply rtc_refl|].
  eapply rtc_l; [|apply IH]. apply step_resume. rewrite Htk. simpl. lia.
Qed.

(** X20.  The cache a call of refreshPool computes when nothing else happens is
    a state of the interleaved process: the call followed by the answers to
    its requests. *)
Theorem refreshPool_is_a_run up sys key ctry t now :
  tasks sys = [] ->
  exists sys',
    rtc step sys sys' /\ tasks sys' = [] /\
    cache sys' = refreshPool up (cache sys) key ctry t now.
Proof.
  intros Hidle.
  exists (runAlone up (Z.to_nat maxAttempts) (callRefreshPool sys key ctry t now) now).
  destruct (runAlone_refreshPool up now sys key ctry t Hidle) as [Ht Hc].
  split; [|split; [exact Ht | exact Hc]].
  eapply rtc_l; [apply step_call | apply runAlone_reachable].
Qed.

Lemma refreshPool_is_a_run_witness :
  exists sys',
    rtc step (initialSystem defaultConfig 0) sys' /\ tasks sys' = [] /\
    cache sys' = refreshPool (Samples.onePage [Samples.showA])
                   (cache (initialSystem defaultConfig 0)) "us-movie" "us" (Some movie) 10.
Proof.
  apply (refreshPool_is_a_run (Samples.onePage [Samples.showA])
           (initialSystem defaultConfig 0) "us-movie" "us" (Some movie) 10).
  reflexivity.
Defined.

(** *** Instances of the invariants of the interleaved model *)

Lemma reachable_bounded_witness :
  Z.of_nat (length [Samples.showA]) <= poolSize defaultConfig.
Proof.
  apply (reachable_bounded defaultConfig 0
           (resumeTask Samples.refreshing 0 (SearchPage [Samples.showA] false None) 20)
           ltac:(simpl; lia)
           ltac:(apply (rtc_l _ _ Samples.refreshing); [apply step_call|];
                 apply rtc_once; apply (step_resume Samples.refreshing 0);
                 vm_compute; lia)
           "us-movie"
           {| shows := [Samples.showA]; lastUpdate := 20; country := "us";
              pool_showType := "movie" |}).
  vm_compute. reflexivity.
Defined.

Lemma getRandomShow_triggers_witness :
  fst (getRandomShow (initialSystem defaultConfig 0) "us" (Some movie) 5 0) = None /\
  "us-movie" ∈ isRefreshing
     (cache (snd (getRandomShow (initialSystem defaultConfig 0) "us" (Some movie) 5 0))).
Proof.
  destruct (getRandomShow_triggers (initialSystem defaultConfig 0) "us" (Some movie) 5 0)
    as [Hnone Hmark].
  - vm_compute. reflexivity.
  - split; [exact Hnone|]. apply Hmark. simpl. lia.
Defined.

(** X21.  clearCache cancels nothing: the refreshes in flight and their markers
    stay.  Right after it every read comes back empty, and the first
    getRandomShow is the first recorded miss. *)
Theorem clearCache_keeps_refreshes sys :
  tasks (withCache sys (clearCache (cache sys))) = tasks sys /\
  isRefreshing (cache (withCache sys (clearCache (cache sys)))) = isRefreshing (cache sys) /\
  (forall ctry count t now shuffle,
     fst (getRandomShows (withCache sys (clearCache (cache sys))) ctry count t now shuffle)
     = []) /\
  (forall ctry t now u,
     fst (getRandomShow (withCache sys (clearCache (cache sys))) ctry t now u) = None /\
     missCount (metadata (cache (snd (getRandomShow (withCache sys (clearCache (cache sys)))
                                        ctry t now u)))) = 1).
Proof.
  split; [reflexivity|]. split; [reflexivity|]. split.
  - intros ctry count t now shuffle. unfold getRandomShows.
    unfold withCache, clearCache. cbn [cache pools]. now rewrite lookup_empty.
  - intros ctry t now u.
    assert (Hun : unusable (config (cache (withCache sys (clearCache (cache sys))))) now
                    (pools (cache (withCache sys (clearCache (cache sys))))
                       !! getPoolKey ctry t) = true).
    { unfold withCache, clearCache. cbn [cache pools]. now rewrite lookup_empty. }
    unfold getRandomShow. rewrite Hun. cbn [fst snd]. split; [reflexivity|].
    destruct (negb _).
    + match goal with |- context [callRefreshPool ?s ?k ?c ?ty ?n] =>
        destruct (callRefreshPool_writes_nothing s k c ty n) as [_ Hm]; rewrite Hm
      end.
      reflexivity.
    + reflexivity.
Qed.

End CacheExtras.

(** * Properties of the routes *)

Module RouteFacts.

Import Picker DiscoverRoute MoreNotions.

Lemma checkRateLimit_other L ip now counts other :
  other <> ip -> snd (checkRateLimit L ip now counts) !! other = counts !! other.
Proof.
  intros Hne. unfold checkRateLimit.
  destruct (counts !! ip) as [d|]; simpl.
  - destruct (resetTime d <? now); simpl; [now rewrite lookup_insert_ne|].
    destruct (count d <? RATE_LIMIT L); simpl; [now rewrite lookup_insert_ne | reflexivity].
  - now rewrite lookup_insert_ne.
Qed.

Lemma requestsOf_nonneg ip reqs : 0 <= requestsOf ip reqs.
Proof. unfold requestsOf. lia. Qed.

Lemma requestsOf_cons ip ip' now reqs :
  requestsOf ip ((ip', now) :: reqs)
  = (if String.eqb ip ip' then 1 else 0) + requestsOf ip reqs.
Proof.
  unfold requestsOf. simpl. destruct (String.eqb ip ip'); simpl length; lia.
Qed.

(** Inside a running window the limiter lets through the requests of a
    client until its count reaches the limit, and none after. *)
Lemma rate_limit_running_window L ip (reqs : list (string * Z)) :
  forall counts d,
    counts !! ip = Some d ->
    Forall (fun r => fst r = ip -> snd r <= resetTime d) reqs ->
    allowedOf ip reqs (fst (serve L reqs counts))
    = Z.min (requestsOf ip reqs) (Z.max 0 (RATE_LIMIT L - count d)).
Proof.
  induction reqs as [|[ip' now] rest IH]; intros counts d Hd Hwin.
  - simpl. unfold requestsOf. simpl. lia.
  - inversion Hwin as [|? ? Hnow Hrest]; subst. simpl in Hnow.
    simpl. destruct (checkRateLimit L ip' now counts) as [v counts1] eqn:Hc.
    destruct (serve L rest counts1) as [vs counts2] eqn:Hs.
    cbn [fst allowedOf]. rewrite requestsOf_cons.
    pose proof (requestsOf_nonneg ip rest) as Hnn.
    destruct (String.eqb ip ip') eqn:E.
    + apply String.eqb_eq in E. subst ip'. specialize (Hnow eq_refl).
      unfold checkRateLimit in Hc. rewrite Hd in Hc.
      assert (Hnot : (resetTime d <? now) = false) by (apply Z.ltb_ge; lia).
      rewrite Hnot in Hc.
      destruct (count d <? RATE_LIMIT L) eqn:Hlim; injection Hc as <- <-.
      * apply Z.ltb_lt in Hlim.
        specialize (IH (<[ip := {| count := count d + 1; resetTime := resetTime d |}]> counts)
                       {| count := count d + 1; resetTime := resetTime d |}
                       (lookup_insert_eq _ _ _) Hrest).
        rewrite Hs in IH. cbn [fst count] in IH. rewrite IH. simpl. lia.
      * apply Z.ltb_ge in Hlim. specialize (IH counts d Hd Hrest).
        rewrite Hs in IH. cbn [fst] in IH. rewrite IH. simpl. lia.
    + assert (Hne : ip <> ip') by now apply String.eqb_neq.
      assert (Hd1 : counts1 !! ip = Some d).
      { pose proof (checkRateLimit_other L ip' now counts ip Hne) as Ho.
        rewrite Hc in Ho. simpl in Ho. congruence. }
      specialize (IH counts1 d Hd1 Hrest). rewrite Hs in IH. cbn [fst] in IH.
      rewrite IH. simpl. lia.
Qed.

(** X22.  A request that opens a window (no entry for the client, or an entry
    whose window has passed) is let through, and of the client's requests
    up to the end of that window exactly the first max(1, RATE_LIMIT) are
    let through in all, however the requests of other clients interleave. *)
Theorem rate_limit_window L ip t0 (rest : list (string * Z)) counts :
  (counts !! ip = None \/ exists d, counts !! ip = Some d /\ resetTime d < t0) ->
  Forall (fun r => fst r = ip -> snd r <= t0 + RATE_WINDOW L) rest ->
  allowedOf ip ((ip, t0) :: rest) (fst (serve L ((ip, t0) :: rest) counts))
  = Z.min (1 + requestsOf ip rest) (Z.max 1 (RATE_LIMIT L)).
Proof.
  intros Hstart Hwin. simpl.
  assert (Hc : checkRateLimit L ip t0 counts
               = (true, <[ip := {| count := 1; resetTime := t0 + RATE_WINDOW L |}]> counts)).
  { unfold checkRateLimit. destruct Hstart as [-> | (d & -> & Hd)]; [reflexivity|].
    apply Z.ltb_lt in Hd. now rewrite Hd. }
  rewrite Hc.
  pose proof (rate_limit_running_window L ip rest
                (<[ip := {| count := 1; resetTime := t0 + RATE_WINDOW L |}]> counts)
                {| count := 1; resetTime := t0 + RATE_WINDOW L |}
                (lookup_insert_eq _ _ _) Hwin) as Hrun.
  destruct (serve L rest _) as [vs counts2]. cbn [fst allowedOf count] in *.
  rewrite String.eqb_refl. simpl. rewrite Hrun.
  pose proof (requestsOf_nonneg ip rest). lia.
Qed.

Lemma rate_limit_window_witness :
  allowedOf "1.2.3.4" [("1.2.3.4", 0); ("1.2.3.4", 5); ("5.6.7.8", 6); ("1.2.3.4", 7)]
    (fst (serve {| RATE_LIMIT := 2; RATE_WINDOW := 60000 |}
            [("1.2.3.4", 0); ("1.2.3.4", 5); ("5.6.7.8", 6); ("1.2.3.4", 7)] ∅))
  = 2.
Proof.
  rewrite (rate_limit_window {| RATE_LIMIT := 2; RATE_WINDOW := 60000 |} "1.2.3.4" 0
             [("1.2.3.4", 5); ("5.6.7.8", 6); ("1.2.3.4", 7)] ∅).
  - reflexivity.
  - left. apply lookup_empty.
  - repeat constructor; simpl; intros _; lia.
Defined.

(** X23.  The periodic cleanup of the rate-limit entries is invisible to the
    clients: a later request gets the same verdict and leaves the same
    entry for its client as without the cleanup. *)
Theorem cleanup_is_transparent L ip t tc counts :
  0 <= RATE_WINDOW L -> tc <= t ->
  fst (checkRateLimit L ip t (cleanupRateLimits L tc counts))
    = fst (checkRateLimit L ip t counts) /\
  snd (checkRateLimit L ip t (cleanupRateLimits L tc counts)) !! ip
    = snd (checkRateLimit L ip t counts) !! ip.
Proof.
  intros HW Ht. unfold checkRateLimit, cleanupRateLimits.
  destruct (counts !! ip) as [d|] eqn:Hd.
  - destruct (decide (resetTime d + RATE_WINDOW L < tc)) as [Hold | Hkeep].
    + assert (Hgone : filter (fun e : string * ClientData =>
                                ~ resetTime (snd e) + RATE_WINDOW L < tc) counts !! ip = None).
      { apply map_lookup_filter_None. right. intros x Hx. simpl.
        rewrite Hd in Hx. injection Hx as <-. intros Hn. now apply Hn. }
      rewrite Hgone.
      assert (Hexp : (resetTime d <? t) = true) by (apply Z.ltb_lt; lia).
      rewrite Hexp. simpl. now rewrite !lookup_insert_eq.
    + assert (Hkept : filter (fun e : string * ClientData =>
                                ~ resetTime (snd e) + RATE_WINDOW L < tc) counts !! ip = Some d).
      { apply map_lookup_filter_Some. split; [exact Hd | exact Hkeep]. }
      rewrite Hkept.
      destruct (resetTime d <? t); simpl; [now rewrite !lookup_insert_eq|].
      destruct (count d <? RATE_LIMIT L); simpl; [now rewrite !lookup_insert_eq|].
      now rewrite Hkept, Hd.
  - assert (Hgone : filter (fun e : string * ClientData =>
                              ~ resetTime (snd e) + RATE_WINDOW L < tc) counts !! ip = None).
    { apply map_lookup_filter_None. left. exact Hd. }
    rewrite Hgone. simpl. now rewrite !lookup_insert_eq.
Qed.

Lemma cleanup_is_transparent_witness :
  fst (checkRateLimit defaultLimits "1.2.3.4" 200000
         (cleanupRateLimits defaultLimits 150000
            {["1.2.3.4" := {| count := 100; resetTime := 60000 |}]}))
  = fst (checkRateLimit defaultLimits "1.2.3.4" 200000
           {["1.2.3.4" := {| count := 100; resetTime := 60000 |}]}).
Proof.
  apply (cleanup_is_transparent defaultLimits "1.2.3.4" 200000 150000
           {["1.2.3.4" := {| count := 100; resetTime := 60000 |}]}).
  - simpl. lia.
  - lia.
Defined.

(** X24.  The answers of GET /api/discover: 429 exactly when the rate limiter
    refuses, and then nothing changes; every answer other than 200 leaves
    the picker as it was, though a request that was let through has been
    counted; a 200 carries a title that passes the quality filter, for a
    supported country, not marked as cached, the minRating of the request
    lies between 0 and 100, and one more pick has been counted. *)
Theorem GET_outcomes P L clientIP q now strict relaxed st :
  let out := GET P L clientIP q now strict relaxed st in
  requestCounts (snd out) = snd (checkRateLimit L clientIP now (requestCounts st)) /\
  (statusOf (fst out) = 429 <->
     fst (checkRateLimit L clientIP now (requestCounts st)) = false) /\
  (statusOf (fst out) = 429 -> snd out = st) /\
  (statusOf (fst out) <> 200 -> picker (snd out) = picker st) /\
  (forall r, fst out = Success r ->
     qualityFilter (resp_show r) = true /\
     resp_country r ∈ Cache.supportedCountries /\
     fromCache r = false /\
     (forall m, q_minRating q = Some m -> 0 <= m <= 100) /\
     totalPicks (picker (snd out)) = totalPicks (picker st) + 1).
Proof.
  cbv zeta. unfold GET.
  assert (Hden : fst (checkRateLimit L clientIP now (requestCounts st)) = false ->
                 snd (checkRateLimit L clientIP now (requestCounts st)) = requestCounts st).
  { unfold checkRateLimit. destruct (requestCounts st !! clientIP) as [d|]; [|discriminate].
    destruct (resetTime d <? now); [discriminate|].
    destruct (count d <? RATE_LIMIT L); [discriminate | reflexivity]. }
  destruct (checkRateLimit L clientIP now (requestCounts st)) as [allowed counts].
  cbn [fst snd] in *. destruct allowed; cbn [negb].
  2:{ cbn [fst snd statusOf requestCounts picker]. rewrite (Hden eq_refl).
      repeat split; auto; try discriminate. now destruct st. }
  clear Hden.
  destruct (bool_decide (orElse (q_country q) "us" ∈ Cache.supportedCountries)) eqn:Hc;
    cbn [negb].
  2:{ cbn [fst snd statusOf requestCounts picker]. repeat split; auto; discriminate. }
  apply bool_decide_eq_true_1 in Hc.
  destruct (parseKind (orElse (q_type q) "any")) as [kind|].
  2:{ cbn [fst snd statusOf requestCounts picker]. repeat split; auto; discriminate. }
  destruct (truthyOptNumber (q_minRating q) && _) eqn:Hm.
  { cbn [fst snd statusOf requestCounts picker]. repeat split; auto; discriminate. }
  match goal with |- context [DirectPicker.discover P ?cfg ?u strict relaxed (picker st)] =>
    pose proof (PickerExtras.direct_discover_cases P cfg u strict relaxed (picker st)) as Hd;
    destruct (DirectPicker.discover P cfg u strict relaxed (picker st)) as [[r|msg] pst]
  end.
  - cbn [fst snd statusOf requestCounts picker]. destruct Hd as (Hq & Hctry & Hfc & Ht).
    split; [reflexivity|]. split; [split; discriminate|]. split; [discriminate|].
    split; [intros Hne; now contradiction Hne|].
    intros r' [= <-]. split; [exact Hq|]. split; [now rewrite Hctry|].
    split; [exact Hfc|]. split; [|exact Ht].
    intros m Hq'. rewrite Hq' in Hm. unfold truthyOptNumber, truthyNumber in Hm.
    destruct (m =? 0) eqn:E0; [apply Z.eqb_eq in E0; lia|].
    simpl in Hm. apply orb_false_elim in Hm as [H1 H2].
    apply Z.ltb_ge in H1. apply Z.ltb_ge in H2. lia.
  - cbn [fst snd statusOf requestCounts picker]. subst pst.
    repeat split; auto; discriminate.
Qed.

End RouteFacts.

(** * Properties of the health route *)

Module HealthFacts.

Import CacheHealth HealthRoute.

(** X25.  The status of GET /api/health: 200 exactly when both the cache and the
    upstream are healthy, 503 exactly when the cache is unhealthy while the
    upstream answers; a failing upstream always gives 207, also with an
    unhealthy cache. *)
Theorem overall_health_status (c : HealthStatus) (a : ApiStatus) :
  (httpStatus (overallStatus c a) = 200 <-> c = healthy /\ a = api_ok) /\
  (httpStatus (overallStatus c a) = 503 <-> c = unhealthy /\ a = api_ok) /\
  (a = api_error -> httpStatus (overallStatus c a) = 207).
Proof.
  destruct c, a; cbn; repeat split; try discriminate; try reflexivity;
    try (intros [? ?]; discriminate); try (intros; lia).
Qed.

End HealthFacts.
